(** * Rank tracker: promotion detection and incremental match aggregation

    A shallow embedding of the refresh pipeline of the rank-tracker server
    ([server/server.js]): the promotion comparison, the match-detail cache
    with its fetch budget, the incremental aggregator, the recent-games
    summary, the roster loop of [refreshAll] and the ban-recording handler.
    The promotion comparison of the older server file of the repository is
    embedded next to the current one ([Legacy]).  Around the pipeline the
    development embeds the bootstrap script ([Bootstrap]), the paginated
    listing of a year, the retries of [riotFetch], the refresh cycle, the
    worker pool and the yearly aggregate of the older server
    ([LegacyServer], [Pool], [LegacyYear]) and, of the page script
    ([app.js]), the escaping, the player list and the calls to the server
    ([Frontend], [Page]).  The properties follow the definitions.

    Conventions of the embedding.
    - JavaScript numbers that hold counters, durations, league points and
      epoch times are integers of the provider's schema and are modelled
      in [Z].  ISO time strings produced by [new Date().toISOString()] are
      kept as the epoch milliseconds they render, and one cycle reads one
      clock value.  The wait of [riotFetch] between two requests, which
      need not be a whole number, is a binary64 float.
    - Strings are ASCII.
    - A value that JavaScript may find [undefined] or [null] is an [option].
    - An [async] function is run to completion; what it returns or throws
      is a [Completion], and the objects it mutates are passed in and out.
    - [riotFetch] is an oracle ([Remote]): per endpoint, the JSON it returns
      or the [Error] it throws once its retries are over.
    - [loadState] and [saveState] read and replace the stored document and
      do not fail. *)

From Stdlib Require Import ZArith QArith Lia Ascii String PrimFloat.
From stdpp Require Import base option list gmap strings pretty sorting.

Local Open Scope string_scope.
Local Open Scope Z_scope.
Local Open Scope list_scope.

(** ** JavaScript strings (ASCII) *)

Module JsString.

Definition is_lower (c : ascii) : bool :=
  let n := N_of_ascii c in ((97 <=? n) && (n <=? 122))%N.

Definition is_upper (c : ascii) : bool :=
  let n := N_of_ascii c in ((65 <=? n) && (n <=? 90))%N.

Definition upper_char (c : ascii) : ascii :=
  if is_lower c then ascii_of_N (N_of_ascii c - 32) else c.

Definition lower_char (c : ascii) : ascii :=
  if is_upper c then ascii_of_N (N_of_ascii c + 32) else c.

Fixpoint map_chars (f : ascii -> ascii) (s : string) : string :=
  match s with
  | EmptyString => EmptyString
  | String c s' => String (f c) (map_chars f s')
  end.

(** [s.toUpperCase()] and [s.toLowerCase()]. *)
Definition toUpperCase : string -> string := map_chars upper_char.
Definition toLowerCase : string -> string := map_chars lower_char.

(** The class [\s] of a regular expression, which is also what [trim]
    strips: tab, line feed, vertical tab, form feed, carriage return and
    space. *)
Definition is_space (c : ascii) : bool :=
  let n := N_of_ascii c in (((9 <=? n) && (n <=? 13)) || (n =? 32))%N.

Fixpoint trimStart (s : string) : string :=
  match s with
  | String c s' => if is_space c then trimStart s' else s
  | EmptyString => EmptyString
  end.

(** Drops the white space at the end: a character is kept when it is not
    white space or when something is kept after it. *)
Fixpoint trimEnd (s : string) : string :=
  match s with
  | EmptyString => EmptyString
  | String c s' =>
      match trimEnd s' with
      | EmptyString => if is_space c then EmptyString else String c EmptyString
      | t => String c t
      end
  end.

Definition trim (s : string) : string := trimEnd (trimStart s).

(** [s.replace(/\s+/g, " ")]: every maximal run of white space becomes one
    space.  [in_run] tells that the previous character was white space. *)
Fixpoint collapse_from (in_run : bool) (s : string) : string :=
  match s with
  | EmptyString => EmptyString
  | String c s' =>
      if is_space c
      then if in_run then collapse_from true s'
           else String " " (collapse_from true s')
      else String c (collapse_from false s')
  end.

Definition collapseSpaces : string -> string := collapse_from false.

(** [hay.includes(needle)]. *)
Fixpoint includes (needle hay : string) : bool :=
  String.prefix needle hay ||
  match hay with
  | EmptyString => false
  | String _ hay' => includes needle hay'
  end.

(** Truthiness of a string that may be missing. *)
Definition truthy (s : option string) : bool :=
  match s with
  | Some (String _ _) => true
  | _ => false
  end.

End JsString.

(** ** Errors and completions *)

Inductive JsError : Type :=
  | Error (message : string)
  | ReferenceError (message : string)
  | TypeError (message : string).

Definition message (e : JsError) : string :=
  match e with
  | Error m | ReferenceError m | TypeError m => m
  end.

(** [String(err?.message || err)]: the message, or for an empty message the
    rendering of the error object, which is then its name. *)
Definition errorString (e : JsError) : string :=
  match message e with
  | String _ _ as m => m
  | EmptyString =>
      match e with
      | Error _ => "Error"
      | ReferenceError _ => "ReferenceError"
      | TypeError _ => "TypeError"
      end
  end.

Inductive Completion (A : Type) : Type :=
  | Normal (a : A)
  | Throw (e : JsError).
Arguments Normal {A} a.
Arguments Throw {A} e.

Definition is_normal {A} (c : Completion A) : bool :=
  match c with Normal _ => true | Throw _ => false end.

(** ** Data model *)

(** What [fetchSoloQRank] returns: [{ unranked: true }] or the solo-queue
    entry.  The derived [winrate] is a display value and is left out. *)
Record RankedData : Type := mkRanked {
  tier : string;
  division : string;
  lp : Z;
  wins : Z;
  losses : Z
}.

Inductive RankSnapshot : Type :=
  | Unranked
  | Ranked (r : RankedData).

Record PendingBan : Type := mkPendingBan {
  detectedAt : Z;
  from : option RankSnapshot;
  to : RankSnapshot
}.

Record BanRecord : Type := mkBan {
  ban_time : Z;
  ban_champion : string;
  ban_note : string
}.

Record Promotion : Type := mkPromotion {
  promo_from : option RankSnapshot;
  promo_to : RankSnapshot;
  promo_detectedAt : Z
}.

Record HistoryEntry : Type := mkEntry {
  entry_time : Z;
  entry_playerId : string;
  entry_playerName : string;
  entry_champion : string;
  entry_note : string;
  promotion : option Promotion
}.

(** A row of [byChampion]. *)
Record ChampionRow : Type := mkRow {
  championId : Z;
  count : Z;
  name : string;
  icon : option string
}.

(** The per-year aggregate [player.champGamesByYear[year]].  The keys of
    [countsByChampionId] are the decimal renderings of champion ids; they
    are kept as the ids themselves. *)
Record YearStats : Type := mkStats {
  stats_year : Z;
  stats_queueId : option Z;
  totalGames : Z;
  byChampion : list ChampionRow;
  countsByChampionId : option (gmap Z Z);
  latestMatchId : option string;
  computedAt : option Z;
  matchCount : Z;
  lastIncrement : option (Z * Z)
}.

Record GameSummary : Type := mkGame {
  matchId : string;
  time : Z;
  win : bool;
  game_championId : option Z;
  championName : string;
  championIcon : option string;
  kills : Z;
  deaths : Z;
  assists : Z;
  durationSec : Z;
  game_queueId : Z
}.

Record Player : Type := mkPlayer {
  pid : string;
  displayName : string;
  platform : string;
  riotId : string * string;
  puuid : option string;
  currentRank : option RankSnapshot;
  lastRank : option RankSnapshot;
  soloWL : option (Z * Z);
  champGamesByYear : gmap Z YearStats;
  last5 : option (Z * list GameSummary);
  pendingBan : option PendingBan;
  bans : option (list BanRecord);
  needsCatchup : bool;
  lastError : option string;
  lastUpdatedAt : option Z
}.

Record State : Type := mkState {
  players : list Player;
  banHistory : list HistoryEntry;
  globalLastUpdatedAt : option Z
}.

(** Field updates ([p.field = v]). *)

Definition set_puuid (v : option string) (p : Player) : Player :=
  mkPlayer (pid p) (displayName p) (platform p) (riotId p) v (currentRank p)
    (lastRank p) (soloWL p) (champGamesByYear p) (last5 p) (pendingBan p)
    (bans p) (needsCatchup p) (lastError p) (lastUpdatedAt p).

Definition set_currentRank (v : option RankSnapshot) (p : Player) : Player :=
  mkPlayer (pid p) (displayName p) (platform p) (riotId p) (puuid p) v
    (lastRank p) (soloWL p) (champGamesByYear p) (last5 p) (pendingBan p)
    (bans p) (needsCatchup p) (lastError p) (lastUpdatedAt p).

Definition set_lastRank (v : option RankSnapshot) (p : Player) : Player :=
  mkPlayer (pid p) (displayName p) (platform p) (riotId p) (puuid p)
    (currentRank p) v (soloWL p) (champGamesByYear p) (last5 p) (pendingBan p)
    (bans p) (needsCatchup p) (lastError p) (lastUpdatedAt p).

Definition set_soloWL (v : option (Z * Z)) (p : Player) : Player :=
  mkPlayer (pid p) (displayName p) (platform p) (riotId p) (puuid p)
    (currentRank p) (lastRank p) v (champGamesByYear p) (last5 p)
    (pendingBan p) (bans p) (needsCatchup p) (lastError p) (lastUpdatedAt p).

Definition set_champGamesByYear (v : gmap Z YearStats) (p : Player) : Player :=
  mkPlayer (pid p) (displayName p) (platform p) (riotId p) (puuid p)
    (currentRank p) (lastRank p) (soloWL p) v (last5 p) (pendingBan p)
    (bans p) (needsCatchup p) (lastError p) (lastUpdatedAt p).

Definition set_last5 (v : option (Z * list GameSummary)) (p : Player) : Player :=
  mkPlayer (pid p) (displayName p) (platform p) (riotId p) (puuid p)
    (currentRank p) (lastRank p) (soloWL p) (champGamesByYear p) v
    (pendingBan p) (bans p) (needsCatchup p) (lastError p) (lastUpdatedAt p).

Definition set_pendingBan (v : option PendingBan) (p : Player) : Player :=
  mkPlayer (pid p) (displayName p) (platform p) (riotId p) (puuid p)
    (currentRank p) (lastRank p) (soloWL p) (champGamesByYear p) (last5 p) v
    (bans p) (needsCatchup p) (lastError p) (lastUpdatedAt p).

Definition set_bans (v : option (list BanRecord)) (p : Player) : Player :=
  mkPlayer (pid p) (displayName p) (platform p) (riotId p) (puuid p)
    (currentRank p) (lastRank p) (soloWL p) (champGamesByYear p) (last5 p)
    (pendingBan p) v (needsCatchup p) (lastError p) (lastUpdatedAt p).

Definition set_needsCatchup (v : bool) (p : Player) : Player :=
  mkPlayer (pid p) (displayName p) (platform p) (riotId p) (puuid p)
    (currentRank p) (lastRank p) (soloWL p) (champGamesByYear p) (last5 p)
    (pendingBan p) (bans p) v (lastError p) (lastUpdatedAt p).

Definition set_lastError (v : option string) (p : Player) : Player :=
  mkPlayer (pid p) (displayName p) (platform p) (riotId p) (puuid p)
    (currentRank p) (lastRank p) (soloWL p) (champGamesByYear p) (last5 p)
    (pendingBan p) (bans p) (needsCatchup p) v (lastUpdatedAt p).

Definition set_lastUpdatedAt (v : option Z) (p : Player) : Player :=
  mkPlayer (pid p) (displayName p) (platform p) (riotId p) (puuid p)
    (currentRank p) (lastRank p) (soloWL p) (champGamesByYear p) (last5 p)
    (pendingBan p) (bans p) (needsCatchup p) (lastError p) v.

Definition set_queueId (v : option Z) (s : YearStats) : YearStats :=
  mkStats (stats_year s) v (totalGames s) (byChampion s) (countsByChampionId s)
    (latestMatchId s) (computedAt s) (matchCount s) (lastIncrement s).

Definition set_counts (v : option (gmap Z Z)) (s : YearStats) : YearStats :=
  mkStats (stats_year s) (stats_queueId s) (totalGames s) (byChampion s) v
    (latestMatchId s) (computedAt s) (matchCount s) (lastIncrement s).

Definition set_totalGames (v : Z) (s : YearStats) : YearStats :=
  mkStats (stats_year s) (stats_queueId s) v (byChampion s) (countsByChampionId s)
    (latestMatchId s) (computedAt s) (matchCount s) (lastIncrement s).

Definition set_latestMatchId (v : option string) (s : YearStats) : YearStats :=
  mkStats (stats_year s) (stats_queueId s) (totalGames s) (byChampion s)
    (countsByChampionId s) v (computedAt s) (matchCount s) (lastIncrement s).

Definition set_computedAt (v : option Z) (s : YearStats) : YearStats :=
  mkStats (stats_year s) (stats_queueId s) (totalGames s) (byChampion s)
    (countsByChampionId s) (latestMatchId s) v (matchCount s) (lastIncrement s).

(** ** Promotion ordering *)

Definition tierNames : list string :=
  ["IRON"; "BRONZE"; "SILVER"; "GOLD"; "PLATINUM"; "EMERALD"; "DIAMOND";
   "MASTER"; "GRANDMASTER"; "CHALLENGER"].

(** [arr.indexOf(x)], with [-1] when [x] is absent. *)
Fixpoint indexOf (x : string) (arr : list string) : Z :=
  match arr with
  | [] => -1
  | y :: arr' =>
      if String.eqb y x then 0
      else let i := indexOf x arr' in if i =? -1 then -1 else i + 1
  end.

(** The older server: [rankValue(rank)] is a score, and a promotion is a
    strictly larger score.  The score [tIdx * 1000 + divScore * 10 +
    min(lp, 99) / 100] is kept as the rational it denotes; two scores differ
    by a multiple of 1/100 below 10^4, so the comparison of the doubles is
    the comparison of the rationals. *)
Module Legacy.

Definition divOrder : list string := ["IV"; "III"; "II"; "I"].

Definition rankValue (rank : option RankSnapshot) : Q :=
  match rank with
  | None | Some Unranked => inject_Z (-1)
  | Some (Ranked r) =>
      let t := JsString.toUpperCase (tier r) in
      let d := JsString.toUpperCase (division r) in
      let tIdx := indexOf t tierNames in
      if tIdx =? -1 then inject_Z (-1)
      else
        let isApex :=
          negb (indexOf t ["MASTER"; "GRANDMASTER"; "CHALLENGER"] =? -1) in
        let dIdx := if isApex then 3 else indexOf d divOrder in
        let divScore := if dIdx =? -1 then 0 else dIdx in
        (inject_Z (tIdx * 1000 + divScore * 10) + Qmake (Z.min (lp r) 99) 100)%Q
  end.

Definition isPromotion (prevRank newRank : option RankSnapshot) : bool :=
  negb (Qle_bool (rankValue newRank) (rankValue prevRank)).

(** The [catch (err)] block of the older [refreshAll]:
    [p.lastUpdatedAt = nowIso; p.lastError = String(err?.message || err)]. *)
Definition refreshCatch (nowIso : Z) (err : JsError) (p : Player) : Player :=
  set_lastError (Some (errorString err)) (set_lastUpdatedAt (Some nowIso) p).

End Legacy.

(** The current server: [rankValue(oldRank, newRank)] itself answers whether
    the new snapshot is a promotion. *)

Definition tierOrder : gmap string Z :=
  list_to_map
    [("IRON", 1); ("BRONZE", 2); ("SILVER", 3); ("GOLD", 4); ("PLATINUM", 5);
     ("EMERALD", 6); ("DIAMOND", 7); ("MASTER", 8); ("GRANDMASTER", 9);
     ("CHALLENGER", 10)].

Definition divOrder : gmap string Z :=
  list_to_map [("IV", 1); ("III", 2); ("II", 3); ("I", 4)].

(** [tierOrder[String(rank.tier || "").toUpperCase()] ?? 0] *)
Definition tierIndex (r : RankedData) : Z :=
  default 0 (tierOrder !! JsString.toUpperCase (tier r)).

(** [divOrder[String(rank.division || "").toUpperCase()] ?? 0] *)
Definition divIndex (r : RankedData) : Z :=
  default 0 (divOrder !! JsString.toUpperCase (division r)).

Definition rankValue (oldRank newRank : option RankSnapshot) : bool :=
  match oldRank with
  | None | Some Unranked => false
  | Some (Ranked o) =>
      match newRank with
      | None | Some Unranked => false
      | Some (Ranked n) =>
          let oldTier := tierIndex o in
          let newTier := tierIndex n in
          if negb (newTier =? oldTier) then oldTier <? newTier
          else
            let apex := default 0 (tierOrder !! "MASTER") <=? newTier in
            let oldDiv := if apex then 0 else divIndex o in
            let newDiv := if apex then 0 else divIndex n in
            if negb (newDiv =? oldDiv) then oldDiv <? newDiv
            else false
      end
  end.

Definition isPromotion (prevRank newRank : option RankSnapshot) : bool :=
  rankValue prevRank newRank.

(** ** The remote provider *)

Record Participant : Type := mkParticipant {
  me_puuid : option string;
  me_championId : option Z;
  me_win : bool;
  me_kills : Z;
  me_deaths : Z;
  me_assists : Z
}.

(** A match record: [m.info.gameDuration], [m.info.participants],
    [m.info.gameEndTimestamp] and [m.info.queueId]. *)
Record Match : Type := mkMatch {
  gameDuration : option Z;
  participants : list Participant;
  gameEndTimestamp : option Z;
  info_queueId : option Z
}.

Record LeagueEntry : Type := mkLeagueEntry {
  queueType : string;
  entry_tier : string;
  entry_rank : string;
  leaguePoints : Z;
  entry_wins : Z;
  entry_losses : Z
}.

Record Champion : Type := mkChampion {
  champ_key : string;
  champ_name : string;
  champ_icon : string
}.

(** The query string of the match-id listing. *)
Record Query : Type := mkQuery {
  q_startTime : option Z;
  q_endTime : option Z;
  q_start : Z;
  q_count : Z;
  q_queue : option Z
}.

(** One answer per endpoint for the length of a call; [dateNow] is the
    clock.  A listing that is not an array is [None]. *)
Record Remote : Type := mkRemote {
  dateNow : Z;
  account_by_riot_id : string -> string -> Completion string;
  league_entries : string -> option string -> Completion (option (list LeagueEntry));
  match_ids : string -> option string -> Query -> Completion (option (list string));
  match_detail : string -> string -> Completion Match;
  ddragon_champions : Completion (list Champion)
}.

(** The process-wide mutable state: [MATCH_DETAIL_BUDGET] and
    [matchDetailCache]. *)
Record Heap : Type := mkHeap {
  MATCH_DETAIL_BUDGET : Z;
  matchDetailCache : gmap string Match
}.

Definition REMAKE_MAX_DURATION_SEC : Z := 300.
Definition MATCH_DETAIL_BUDGET_PER_REFRESH : Z := 20.

Definition regionalForPlatform (platform : string) : string :=
  let p := JsString.toLowerCase platform in
  if negb (indexOf p ["euw1"; "eun1"; "tr1"; "ru"] =? -1) then "europe"
  else if negb (indexOf p ["na1"; "br1"; "la1"; "la2"; "oc1"] =? -1) then "americas"
  else "asia".

(** [Date.UTC(year, 0, 1) / 1000] for a four-digit year. *)
Definition utcYearStart (year : Z) : Z :=
  (365 * (year - 1970) + (year - 1969) / 4 - (year - 1901) / 100
   + (year - 1601) / 400) * 86400.

Definition yearRangeEpochSeconds (year : Z) : Z * Z :=
  (utcYearStart year, utcYearStart (year + 1)).

Definition fetchMatchDetail (R : Remote) (region matchId : string) (h : Heap)
  : Completion Match * Heap :=
  let key := region +:+ ":" +:+ matchId in
  match matchDetailCache h !! key with
  | Some m => (Normal m, h)
  | None =>
      if MATCH_DETAIL_BUDGET h <=? 0
      then (Throw (Error "MATCH_DETAIL_BUDGET_EXCEEDED"), h)
      else
        let h1 := mkHeap (MATCH_DETAIL_BUDGET h - 1) (matchDetailCache h) in
        match match_detail R region matchId with
        | Throw e => (Throw e, h1)
        | Normal data =>
            (Normal data,
             mkHeap (MATCH_DETAIL_BUDGET h1) (<[key := data]> (matchDetailCache h1)))
        end
  end.

Definition ensurePuuidAndSummonerId (R : Remote) (player : Player)
  : Completion unit * Player :=
  if negb (JsString.truthy (puuid player))
  then
    let '(gameName, tagLine) := riotId player in
    match account_by_riot_id R gameName tagLine with
    | Throw e => (Throw e, player)
    | Normal acc => (Normal tt, set_puuid (Some acc) player)
    end
  else (Normal tt, player).

Definition fetchSoloQRank (R : Remote) (player : Player)
  : Completion RankSnapshot :=
  let platform := JsString.toLowerCase
                    (if String.eqb (platform player) "" then "euw1"
                     else platform player) in
  match league_entries R platform (puuid player) with
  | Throw e => Throw e
  | Normal entries =>
      match List.find (fun e => String.eqb (queueType e) "RANKED_SOLO_5x5")
                      (default [] entries) with
      | None => Normal Unranked
      | Some solo =>
          Normal (Ranked (mkRanked (entry_tier solo) (entry_rank solo)
                            (leaguePoints solo) (entry_wins solo)
                            (entry_losses solo)))
      end
  end.

(** [Number.isFinite(dur) && dur > 0 && dur < REMAKE_MAX_DURATION_SEC] *)
Definition isRemake (m : Match) : bool :=
  match gameDuration m with
  | Some dur => (0 <? dur) && (dur <? REMAKE_MAX_DURATION_SEC)
  | None => false
  end.

(** [parts.find((x) => x?.puuid === puuid)] *)
Definition findMe (puuid : option string) (m : Match) : option Participant :=
  List.find (fun x => bool_decide (me_puuid x = puuid)) (participants m).

(** [new Map(dd.champions.map((c) => [String(c.key), c]))]: a later entry
    with the same key replaces an earlier one. *)
Definition championsByKey (champions : list Champion) : gmap string Champion :=
  foldl (fun m c => <[champ_key c := c]> m) ∅ champions.

(** [champ?.name || `Champion ${id}`] and [champ?.icon || null]. *)
Definition nameOr (champ : option Champion) (idStr : string) : string :=
  match champ with
  | Some c => if String.eqb (champ_name c) "" then "Champion " +:+ idStr
              else champ_name c
  | None => "Champion " +:+ idStr
  end.

Definition iconOr (champ : option Champion) : option string :=
  match champ with
  | Some c => if String.eqb (champ_icon c) "" then None else Some (champ_icon c)
  | None => None
  end.

(** ** Sorting

    [Array.prototype.sort] is stable; [x] goes before the first [y] it does
    not compare after. *)

Fixpoint insert_sorted {A} (le : A -> A -> bool) (x : A) (l : list A) : list A :=
  match l with
  | [] => [x]
  | y :: l' => if le x y then x :: y :: l' else y :: insert_sorted le x l'
  end.

Definition stable_sort {A} (le : A -> A -> bool) (l : list A) : list A :=
  foldr (insert_sorted le) [] l.

(** [Object.entries(obj)] for an object whose keys are array indices, the
    integers from 0 to 2^32 - 2, as the ids of champions are: ascending
    keys.  Keys of another form come after these in insertion order, which
    a [gmap] does not keep. *)
Definition entries (obj : gmap Z Z) : list (Z * Z) :=
  stable_sort (fun x y => x.1 <=? y.1) (map_to_list obj).

(** [list.sort((a, b) => b.count - a.count)] *)
Definition sortByCountDesc (l : list ChampionRow) : list ChampionRow :=
  stable_sort (fun a b => count b <=? count a) l.

(** ** Incremental aggregator *)

Definition ensureCountsMap (stats : YearStats) : YearStats :=
  match countsByChampionId stats with
  | Some _ => stats
  | None =>
      set_counts
        (Some (foldl (fun map row => <[championId row := count row]> map) ∅
                     (byChampion stats)))
        stats
  end.

(** The listing request of the aggregator: [startTime], [endTime],
    [start: "0"], [count: "100"] and the queue. *)
Definition listingQuery (year : Z) (queueId : option Z) : Query :=
  let '(start, end_) := yearRangeEpochSeconds year in
  mkQuery (Some start) (Some end_) 0 100 queueId.

(** [for (const id of ids) { if (id === marker) break; newIds.push(id); }] *)
Fixpoint idsUntil (marker : option string) (ids : list string) : list string :=
  match ids with
  | [] => []
  | id :: rest =>
      if bool_decide (Some id = marker) then [] else id :: idsUntil marker rest
  end.

(** What the walk mutates: [stats.countsByChampionId], [stats.totalGames]
    and the local [added]. *)
Record Tally : Type := mkTally {
  counts : gmap Z Z;
  total : Z;
  added : Z
}.

(** The body of the walk once the record [m] is fetched. *)
Definition countMatch (puuid : option string) (m : Match) (t : Tally) : Tally :=
  if isRemake m then t
  else
    match findMe puuid m with
    | None => t
    | Some me =>
        match me_championId me with
        | None => t
        | Some champId =>
            mkTally (<[champId := default 0 (counts t !! champId) + 1]> (counts t))
                    (total t + 1) (added t + 1)
        end
    end.

(** [for (const matchId of newIds) { ... }]: a throw of [fetchMatchDetail]
    leaves the loop with what was counted so far. *)
Fixpoint deltaWalk (R : Remote) (region : string) (puuid : option string)
    (newIds : list string) (t : Tally) (h : Heap)
  : Completion unit * Tally * Heap :=
  match newIds with
  | [] => (Normal tt, t, h)
  | matchId :: rest =>
      match fetchMatchDetail R region matchId h with
      | (Throw e, h') => (Throw e, t, h')
      | (Normal m, h') => deltaWalk R region puuid rest (countMatch puuid m t) h'
      end
  end.

(** [Object.entries(stats.countsByChampionId).map(...)] followed by the sort. *)
Definition rebuildByChampion (byKey : gmap string Champion) (obj : gmap Z Z)
  : list ChampionRow :=
  sortByCountDesc
    (List.map (fun '(champId, n) =>
                 let champ := byKey !! pretty champId in
                 mkRow champId n (nameOr champ (pretty champId)) (iconOr champ))
              (entries obj)).

(** [stats] is the object stored in [player.champGamesByYear[key]]: every
    assignment to it shows in the player, also when the function throws.
    The last component tells that [saveState(state)] ran, which is the last
    statement of each path that runs it. *)
Definition updateChampionOverviewIncremental (R : Remote) (player : Player)
    (year : Z) (queueId : option Z) (h : Heap)
  : Completion unit * Player * Heap * bool :=
  match ensurePuuidAndSummonerId R player with
  | (Throw e, player) => (Throw e, player, h, false)
  | (Normal _, player) =>
      let key := year in
      let stats :=
        match champGamesByYear player !! key with
        | Some stats => stats
        | None => mkStats year queueId 0 [] None None None 0 None
        end in
      let stats := ensureCountsMap (set_queueId queueId stats) in
      let store st := set_champGamesByYear (<[key := st]> (champGamesByYear player)) player in
      let region := regionalForPlatform (platform player) in
      match match_ids R region (puuid player) (listingQuery year queueId) with
      | Throw e => (Throw e, store stats, h, false)
      | Normal None | Normal (Some []) => (Normal tt, store stats, h, false)
      | Normal (Some ((id0 :: _) as ids)) =>
          if negb (JsString.truthy (latestMatchId stats))
          then
            let stats := set_latestMatchId (Some id0) stats in
            let stats := set_computedAt (Some (dateNow R)) stats in
            (Normal tt, store stats, h, true)
          else
            let newIds := idsUntil (latestMatchId stats) ids in
            let stats := set_latestMatchId (Some id0) stats in
            match newIds with
            | [] =>
                let stats := set_computedAt (Some (dateNow R)) stats in
                (Normal tt, store stats, h, true)
            | _ :: _ =>
                match ddragon_champions R with
                | Throw e => (Throw e, store stats, h, false)
                | Normal champions =>
                    let byKey := championsByKey champions in
                    let t0 := mkTally (default ∅ (countsByChampionId stats))
                                      (totalGames stats) 0 in
                    let '(c, t, h') :=
                      deltaWalk R region (puuid player) newIds t0 h in
                    let stats := set_totalGames (total t)
                                   (set_counts (Some (counts t)) stats) in
                    match c with
                    | Throw e => (Throw e, store stats, h', false)
                    | Normal _ =>
                        let list := rebuildByChampion byKey (counts t) in
                        let stats :=
                          mkStats (stats_year stats) (stats_queueId stats) (totalGames stats)
                            list (countsByChampionId stats) (latestMatchId stats)
                            (Some (dateNow R))
                            (matchCount stats + Z.of_nat (length newIds))
                            (Some (Z.of_nat (length newIds), added t)) in
                        (Normal tt, store stats, h', true)
                    end
                end
            end
      end
  end.

(** ** Recent games *)

Definition idString (champId : option Z) : string :=
  match champId with
  | Some z => pretty z
  | None => "undefined"
  end.

(** [x || fallback] for a number that may be missing. *)
Definition numberOr (x : option Z) (fallback : Z) : Z :=
  match x with
  | Some v => if v =? 0 then fallback else v
  | None => fallback
  end.

Definition summarize (R : Remote) (byKey : gmap string Champion)
    (matchId : string) (m : Match) (me : Participant) : GameSummary :=
  let champId := me_championId me in
  let champ := byKey !! idString champId in
  mkGame matchId
    (numberOr (gameEndTimestamp m) (dateNow R))
    (me_win me) champId
    (nameOr champ (idString champId)) (iconOr champ)
    (me_kills me) (me_deaths me) (me_assists me)
    (numberOr (gameDuration m) 0)
    (numberOr (info_queueId m) 0).

(** [for (const matchId of matchIds) { if (out.length >= n) break; ... }] *)
Fixpoint summaryLoop (R : Remote) (region : string) (puuid : option string)
    (byKey : gmap string Champion) (n : Z) (matchIds : list string)
    (out : list GameSummary) (h : Heap)
  : Completion (list GameSummary) * Heap :=
  match matchIds with
  | [] => (Normal out, h)
  | matchId :: rest =>
      if n <=? Z.of_nat (length out) then (Normal out, h)
      else
        match fetchMatchDetail R region matchId h with
        | (Throw e, h') => (Throw e, h')
        | (Normal m, h') =>
            if isRemake m then summaryLoop R region puuid byKey n rest out h'
            else
              match findMe puuid m with
              | None => summaryLoop R region puuid byKey n rest out h'
              | Some me =>
                  summaryLoop R region puuid byKey n rest
                    (out ++ [summarize R byKey matchId m me]) h'
              end
        end
  end.

Definition fetchLastNGamesSummary (R : Remote) (player : Player) (n : Z)
    (queueId : option Z) (h : Heap)
  : Completion (list GameSummary) * Heap :=
  let region := regionalForPlatform (platform player) in
  let qs := mkQuery None None 0 (Z.min (n * 2) 20) queueId in
  match match_ids R region (puuid player) qs with
  | Throw e => (Throw e, h)
  | Normal None | Normal (Some []) => (Normal [], h)
  | Normal (Some matchIds) =>
      match ddragon_champions R with
      | Throw e => (Throw e, h)
      | Normal champions =>
          summaryLoop R region (puuid player) (championsByKey champions) n
            matchIds [] h
      end
  end.

(** ** Refresh orchestrator *)

(** [x || y] and [x ?? y] on objects that may be missing. *)
Definition orElse {A} (x y : option A) : option A :=
  match x with
  | Some _ => x
  | None => y
  end.

Definition winsLosses (r : RankSnapshot) : Z * Z :=
  match r with
  | Unranked => (0, 0)
  | Ranked d => (wins d, losses d)
  end.

(** The body of the [try] block for one player.  The last component is the
    player as [saveState] wrote it from inside the aggregator, if it did. *)
Definition refreshPlayer (R : Remote) (nowIso : Z) (p : Player) (h : Heap)
  : Completion unit * Player * Heap * option Player :=
  match ensurePuuidAndSummonerId R p with
  | (Throw e, p) => (Throw e, p, h, None)
  | (Normal _, p) =>
      match fetchSoloQRank R p with
      | Throw e => (Throw e, p, h, None)
      | Normal newRank =>
          let prevRank := default Unranked (orElse (currentRank p) (lastRank p)) in
          let prevTotal :=
            match soloWL p with
            | Some (w, l) => w + l
            | None => 0
            end in
          let newWL := winsLosses newRank in
          let newTotal := newWL.1 + newWL.2 in
          let p := set_soloWL (Some newWL) p in
          let p := set_lastRank (orElse (currentRank p) (lastRank p)) p in
          let p := set_currentRank (Some newRank) p in
          let '(c, p, h, written) :=
            if negb (newTotal =? prevTotal)
            then
              match updateChampionOverviewIncremental R p 2026 (Some 420) h with
              | (Throw e, p, h, saved) =>
                  (Throw e, p, h, if saved then Some p else None)
              | (Normal _, p, h, saved) =>
                  let written := if saved then Some p else None in
                  match fetchLastNGamesSummary R p 5 (Some 420) h with
                  | (Throw e, h) => (Throw e, p, h, written)
                  | (Normal games, h) =>
                      (Normal tt, set_last5 (Some (nowIso, games)) p, h, written)
                  end
              end
            else (Normal tt, p, h, None) in
          match c with
          | Throw e => (Throw e, p, h, written)
          | Normal _ =>
              let p := set_lastUpdatedAt (Some nowIso) p in
              let p :=
                if isPromotion (Some prevRank) (Some newRank)
                then
                  match pendingBan p with
                  | None =>
                      set_pendingBan
                        (Some (mkPendingBan nowIso (Some prevRank) newRank)) p
                  | Some _ => p
                  end
                else p in
              (Normal tt, p, h, written)
          end
      end
  end.

(** The [catch (err)] block.  Its first statement reads the identifier [e].
    The bindings the block can see are its parameter [err], the locals of
    [refreshAll] ([state], [nowIso], [p]) and the module scope, which
    declares no [e]; reading an undeclared identifier throws. *)
Definition catchBindings (err : JsError) : list (string * option JsError) :=
  [("err", Some err); ("p", None); ("nowIso", None); ("state", None)].

Definition resolve (x : string) (scope : list (string * option JsError))
  : option (option JsError) :=
  snd <$> List.find (fun b => String.eqb (fst b) x) scope.

Definition refreshCatch (err : JsError) (p : Player) : Completion Player :=
  match resolve "e" (catchBindings err) with
  | None => Throw (ReferenceError "e is not defined")
  | Some e =>
      let msg := match e with Some e => errorString e | None => "[object Object]" end in
      if JsString.includes "MATCH_DETAIL_BUDGET_EXCEEDED" msg
      then Normal (set_needsCatchup true p)
      else Normal (set_lastError (Some msg) p)
  end.

(** The server: the contents of [data.json] and the process-wide heap. *)
Record Server : Type := mkServer {
  disk : State;
  heap : Heap
}.

(** [for (const p of state.players) { try { ... } catch (err) { ... } }].
    [done] are the players already visited, [todo] those still to visit;
    the array in memory is [done ++ todo].  The result carries the array in
    memory, the document on disk and the heap. *)
Fixpoint refreshLoop (R : Remote) (nowIso : Z) (hist : list HistoryEntry)
    (done todo : list Player) (onDisk : State) (h : Heap)
  : Completion unit * list Player * State * Heap :=
  match todo with
  | [] => (Normal tt, done, onDisk, h)
  | p :: rest =>
      let '(c, p', h', written) := refreshPlayer R nowIso p h in
      let onDisk' :=
        match written with
        | Some pw => mkState (done ++ pw :: rest) hist (Some nowIso)
        | None => onDisk
        end in
      match c with
      | Normal _ => refreshLoop R nowIso hist (done ++ [p']) rest onDisk' h'
      | Throw err =>
          match refreshCatch err p' with
          | Normal p'' => refreshLoop R nowIso hist (done ++ [p'']) rest onDisk' h'
          | Throw e2 => (Throw e2, done ++ p' :: rest, onDisk', h')
          end
      end
  end.

(** [refreshAll()]: the state it returns, or the error it throws, with the
    object it was working on and the server afterwards.  [loadState] before
    the loop and [saveState] after it, which no [try] encloses, are taken
    not to fail: [Throw] is the throw of the loop. *)
Definition refreshAll (R : Remote) (srv : Server)
  : Completion State * State * Server :=
  let h := mkHeap MATCH_DETAIL_BUDGET_PER_REFRESH (matchDetailCache (heap srv)) in
  let state := disk srv in
  let nowIso := dateNow R in
  let '(c, ps, onDisk, h') :=
    refreshLoop R nowIso (banHistory state) [] (players state) (disk srv) h in
  let state' := mkState ps (banHistory state) (Some nowIso) in
  match c with
  | Throw e => (Throw e, state', mkServer onDisk h')
  | Normal _ => (Normal state', state', mkServer state' h')
  end.

(** ** Ban recording: [POST /api/ban] *)

Record BanRequest : Type := mkBanRequest {
  req_playerId : string;
  req_champion : string;
  req_note : string
}.

Inductive Response : Type :=
  | BadRequest400
  | NotFound404
  | Conflict409 (error : string)
  | Ok200 (state : State).

Definition norm (s : string) : string :=
  JsString.toLowerCase (JsString.collapseSpaces (JsString.trim s)).

(** The index of [state.players.find((x) => x.id === playerId)]. *)
Fixpoint findPlayerIndex (playerId : string) (ps : list Player) : option nat :=
  match ps with
  | [] => None
  | x :: ps' =>
      if String.eqb (pid x) playerId then Some 0%nat
      else S <$> findPlayerIndex playerId ps'
  end.

(** The handler: its response (or the error that escapes it) and the
    contents of [data.json] afterwards. *)
Definition postApiBan (time : Z) (body : BanRequest) (onDisk : State)
  : Completion Response * State :=
  let playerId := req_playerId body in
  let champ := JsString.trim (req_champion body) in
  if String.eqb playerId "" || String.eqb champ ""
  then (Normal BadRequest400, onDisk)
  else
    let state := onDisk in
    match findPlayerIndex playerId (players state) with
    | None => (Normal NotFound404, onDisk)
    | Some i =>
        match players state !! i with
        | None => (Normal NotFound404, onDisk)
        | Some p =>
            match pendingBan p with
            | None =>
                (Normal (Conflict409
                   "Kein Uprank erkannt. Bans sind nur nach einem Uprank erlaubt."),
                 onDisk)
            | Some pending =>
                match bans p with
                | None => (Throw (TypeError "p.bans is undefined"), onDisk)
                | Some bs =>
                    if existsb (fun b => String.eqb (norm (ban_champion b)) (norm champ)) bs
                    then
                      (Normal (Conflict409
                         "Champion ist für diesen Spieler bereits gebannt."),
                       onDisk)
                    else
                      let entry :=
                        mkEntry time (pid p) (displayName p) champ (req_note body)
                          (Some (mkPromotion (from pending) (to pending)
                                   (detectedAt pending))) in
                      let p' :=
                        set_pendingBan None
                          (set_bans (Some (bs ++ [mkBan time champ (req_note body)])) p) in
                      let state' :=
                        mkState (<[i := p']> (players state))
                                (entry :: banHistory state)
                                (globalLastUpdatedAt state) in
                      (Normal (Ok200 state'), state')
                end
            end
        end
    end.

(** ** Vocabulary of the properties *)

(** The sum of the values of [countsByChampionId]. *)
Definition sumCounts (obj : gmap Z Z) : Z :=
  foldr (fun kv acc => kv.2 + acc) 0 (map_to_list obj).

(** The sum of the [count] fields of [byChampion]. *)
Definition sumRows (rows : list ChampionRow) : Z :=
  foldr (fun row acc => count row + acc) 0 rows.

(** The per-champion counts of an aggregate, as the aggregator reads them:
    [countsByChampionId] once [ensureCountsMap] has run. *)
Definition countsOf (stats : YearStats) : gmap Z Z :=
  default ∅ (countsByChampionId (ensureCountsMap stats)).

(** Count consistency of an aggregate. *)
Definition consistent (stats : YearStats) : Prop :=
  totalGames stats = sumCounts (countsOf stats) /\
  sumCounts (countsOf stats) = sumRows (byChampion stats).

(** A record the walk counts: not a remake, with the tracked player among
    the participants under a numeric champion id. *)
Definition countable (puuid : option string) (m : Match) : bool :=
  negb (isRemake m) &&
  match findMe puuid m with
  | Some me => bool_decide (is_Some (me_championId me))
  | None => false
  end.

(** The records the walk obtains, in order, up to the first throw of
    [fetchMatchDetail]. *)
Fixpoint fetched (R : Remote) (region : string) (ids : list string) (h : Heap)
  : list Match :=
  match ids with
  | [] => []
  | matchId :: rest =>
      match fetchMatchDetail R region matchId h with
      | (Throw _, _) => []
      | (Normal m, h') => m :: fetched R region rest h'
      end
  end.

(** The provider's listing endpoint over a player's matches of the year,
    newest first: [count] ids from offset [start]. *)
Definition riotListing (timeline : list string) (q : Query) : list string :=
  take (Z.to_nat (q_count q)) (drop (Z.to_nat (q_start q)) timeline).

Definition servedFrom (R : Remote) (timeline : list string) : Remote :=
  mkRemote (dateNow R) (account_by_riot_id R) (league_entries R)
    (fun _ _ q => Normal (Some (riotListing timeline q)))
    (match_detail R) (ddragon_champions R).

(** How a refresh may change the pending promotion of a player: not at all,
    or from none to a promotion between two ranked snapshots. *)
Definition pendingStep (p p' : Player) : Prop :=
  pendingBan p' = pendingBan p \/
  (pendingBan p = None /\
   exists o n t,
     pendingBan p' = Some (mkPendingBan t (Some (Ranked o)) (Ranked n)) /\
     orElse (currentRank p) (lastRank p) = Some (Ranked o) /\
     currentRank p' = Some (Ranked n) /\
     isPromotion (Some (Ranked o)) (Some (Ranked n)) = true).

Definition isOk (r : Completion Response) : bool :=
  match r with
  | Normal (Ok200 _) => true
  | _ => false
  end.

(** The walk over records already fetched. *)
Definition tallyOver (pu : option string) (ms : list Match) (t : Tally) : Tally :=
  foldl (fun t m => countMatch pu m t) t ms.

Definition freshStats (year : Z) (queueId : option Z) : YearStats :=
  mkStats year queueId 0 [] None None None 0 None.

(** The aggregate the run works on, once [queueId] is set and
    [ensureCountsMap] has run. *)
Definition statsOnEntry (p : Player) (year : Z) (queueId : option Z) : YearStats :=
  ensureCountsMap
    (set_queueId queueId (default (freshStats year queueId) (champGamesByYear p !! year))).

Definition storeStats (year : Z) (stats : YearStats) (p : Player) : Player :=
  set_champGamesByYear (<[year := stats]> (champGamesByYear p)) p.

(** The aggregate after the walk: as the walk left it when it threw, rebuilt
    and stamped when it completed. *)
Definition statsAfterWalk (R : Remote) (byKey : gmap string Champion)
    (newIds : list string) (c : Completion unit) (t : Tally) (s : YearStats)
  : YearStats :=
  let s1 := set_totalGames (total t) (set_counts (Some (counts t)) s) in
  match c with
  | Throw _ => s1
  | Normal _ =>
      mkStats (stats_year s1) (stats_queueId s1) (totalGames s1)
        (rebuildByChampion byKey (counts t)) (countsByChampionId s1)
        (latestMatchId s1) (Some (dateNow R))
        (matchCount s1 + Z.of_nat (length newIds))
        (Some (Z.of_nat (length newIds), added t))
  end.

(** A duration the summary may carry: that of a record that is no remake. *)
Definition keptDuration (dur : Z) : Prop :=
  ~ (0 < dur < REMAKE_MAX_DURATION_SEC).

(** The key of a record in [matchDetailCache]. *)
Definition cacheKey (region matchId : string) : string :=
  region +:+ ":" +:+ matchId.

(** A string that does not start with white space. *)
Definition headKept (s : string) : Prop :=
  match s with
  | String c _ => JsString.is_space c = false
  | EmptyString => True
  end.

(** ** Sample data *)

Module Sample.

Definition rank (t d : string) (points w l : Z) : RankSnapshot :=
  Ranked (mkRanked t d points w l).

Definition stats0 : YearStats :=
  mkStats 2026 (Some 420) 0 [] (Some ∅) (Some "M0") (Some 1000) 0 None.

Definition alice : Player :=
  mkPlayer "p1" "Alice" "euw1" ("Alice", "EUW") (Some "puuid-a")
    (Some (rank "GOLD" "IV" 10 10 10)) None (Some (10, 10))
    {[ 2026 := stats0 ]} None None (Some []) false None None.

Definition bob : Player :=
  mkPlayer "p2" "Bob" "euw1" ("Bob", "EUW") (Some "puuid-b")
    (Some (rank "SILVER" "I" 40 5 5)) None (Some (5, 5))
    ∅ None None (Some []) false None None.

(** A match of [dur] seconds that [who] played on champion [champ]. *)
Definition game (who : string) (champ dur : Z) : Match :=
  mkMatch (Some dur) [mkParticipant (Some who) (Some champ) true 1 2 3]
    (Some 5000) (Some 420).

(** Ids [M<n-1>], ..., [M1], [M0], newest first. *)
Definition timeline (n : nat) : list string :=
  List.map (fun i => "M" +:+ pretty (Z.of_nat i)) (rev (seq 0 n)).

(** A provider on which alice has played [n] matches on champion 266,
    each half an hour long, and stands at GOLD III with 11 wins. *)
Definition provider (n : nat) : Remote :=
  mkRemote 2000
    (fun _ _ => Throw (Error "Riot API 404 Not Found: "))
    (fun _ who =>
       if bool_decide (who = Some "puuid-a")
       then Normal (Some [mkLeagueEntry "RANKED_SOLO_5x5" "GOLD" "III" 0 11 10])
       else Normal (Some []))
    (fun _ _ q => Normal (Some (riotListing (timeline n) q)))
    (fun _ _ => Normal (game "puuid-a" 266 1800))
    (Normal [mkChampion "266" "Aatrox" "Aatrox.png"]).

(** The same provider with the league endpoint down. *)
Definition leagueDown : Remote :=
  mkRemote 2000 (account_by_riot_id (provider 1))
    (fun _ _ => Throw (Error "Riot API 500 Internal Server Error: "))
    (match_ids (provider 1)) (match_detail (provider 1))
    (ddragon_champions (provider 1)).

(** A provider whose matches all lasted [dur] seconds. *)
Definition providerOfDuration (dur : Z) : Remote :=
  mkRemote 2000 (account_by_riot_id (provider 2)) (league_entries (provider 2))
    (match_ids (provider 2))
    (fun _ _ => Normal (game "puuid-a" 266 dur))
    (ddragon_champions (provider 2)).

(** Alice with a promotion from SILVER I to GOLD IV still pending. *)
Definition promoted : Player :=
  set_pendingBan
    (Some (mkPendingBan 500 (Some (rank "SILVER" "I" 90 9 9))
             (rank "GOLD" "IV" 0 10 10)))
    alice.

Definition roster : State := mkState [alice; bob] [] None.

Definition server (budget : Z) : Server :=
  mkServer roster (mkHeap budget ∅).

End Sample.

(** ** Vocabulary of the further properties *)

(** What a piece of the pipeline may do to the heap: it spends budget, it
    keeps every cached record, and it caches at most one new record per
    unit of budget spent. *)
Definition heapStep (h h' : Heap) : Prop :=
  0 <= MATCH_DETAIL_BUDGET h' <= MATCH_DETAIL_BUDGET h /\
  matchDetailCache h ⊆ matchDetailCache h' /\
  Z.of_nat (size (matchDetailCache h')) + MATCH_DETAIL_BUDGET h' <=
    Z.of_nat (size (matchDetailCache h)) + MATCH_DETAIL_BUDGET h.

(** The rows of a champion list as key and count. *)
Definition rowPairs (rows : list ChampionRow) : list (Z * Z) :=
  List.map (fun row => (championId row, count row)) rows.

(** The order of [byChampion]: more games first, and among champions with
    the same number of games the smaller id first. *)
Definition rowBefore (a b : ChampionRow) : Prop :=
  count b < count a \/ (count a = count b /\ championId a < championId b).

(** ** Property keys

    The counts of an aggregate are a JS object keyed by the decimal
    rendering of champion ids.  [Object.entries] lists the keys that are
    array indices (the integers from 0 to 2^32 - 2) first and in ascending
    numeric order; any other key comes after them, in insertion order.
    [entries] is that order for an object all of whose keys are array
    indices, and only for such an object. *)
Definition indexKey (k : Z) : bool := (0 <=? k) && (k <? 4294967295).

Definition indexKeys (obj : gmap Z Z) : bool :=
  forallb (fun kv => indexKey kv.1) (map_to_list obj).

(** What a refresh leaves alone on a player: who it is and what was banned. *)
Definition sameIdentity (p p' : Player) : Prop :=
  pid p' = pid p /\ displayName p' = displayName p /\ platform p' = platform p /\
  riotId p' = riotId p /\ bans p' = bans p.

(** What a completed [try] block has written on a player. *)
Definition refreshedAt (nowIso : Z) (p : Player) : Prop :=
  lastUpdatedAt p = Some nowIso /\
  exists r, currentRank p = Some r /\ soloWL p = Some (winsLosses r).

(** ** Full listing of a year: [fetchAllMatchIdsForYear]

    The [while (true)] loop, one iteration per unit of fuel; [None] when the
    fuel is used up before the loop has left.  The second component is the
    list of listing requests issued, in order. *)
Fixpoint pageLoop (fuel : nat) (R : Remote) (region : string) (puuid : option string)
    (start end_ : Z) (queueId : option Z) (all : list string) (startIdx : Z)
    (sent : list Query)
  : option (Completion (list string) * list Query) :=
  match fuel with
  | O => None
  | S fuel =>
      let qs := mkQuery (Some start) (Some end_) startIdx 100 queueId in
      let sent := sent ++ [qs] in
      match match_ids R region puuid qs with
      | Throw e => Some (Throw e, sent)
      | Normal None | Normal (Some []) => Some (Normal all, sent)
      | Normal (Some ((_ :: _) as ids)) =>
          let all := all ++ ids in
          let startIdx := startIdx + Z.of_nat (length ids) in
          if Z.of_nat (length ids) <? 100 then Some (Normal all, sent)
          else pageLoop fuel R region puuid start end_ queueId all startIdx sent
      end
  end.

Definition fetchAllMatchIdsForYear (fuel : nat) (R : Remote) (puuid : option string)
    (platform : string) (year : Z) (queueId : option Z)
  : option (Completion (list string) * list Query) :=
  let region := regionalForPlatform platform in
  let '(start, end_) := yearRangeEpochSeconds year in
  pageLoop fuel R region puuid start end_ queueId [] 0 [].

(** The number of listing requests a year of [n] matches takes. *)
Definition pagesFor (n : nat) : nat := S (n / 100).

(** A provider whose listing endpoint serves, for each player, that
    player's matches of the year, newest first. *)
Definition serves (R : Remote) (history : option string -> list string) : Prop :=
  forall region pu q, match_ids R region pu q = Normal (Some (riotListing (history pu) q)).

(** ** The bootstrap script ([bootstrap.js])

    The script that fills [data.json] before the server first runs.  Its
    [riotFetch] repeats a request for as long as the answer is 429: the
    oracle gives the answer that ends the repetition, and a run in which it
    never ends has no outcome here.  The properties of the script are
    therefore about the runs that end.  Reading [data.json] at the start
    and writing it at the end are taken not to fail.  [triggerSoloTotal],
    which nothing reads, and the [winrate] of a snapshot are not part of
    the records. *)

Module Bootstrap.

Definition YEAR : Z := 2026.
Definition QUEUE_ID : Z := 420.

Definition ensurePuuid (R : Remote) (player : Player) : Completion unit * Player :=
  if JsString.truthy (puuid player) then (Normal tt, player)
  else
    let '(gameName, tagLine) := riotId player in
    match account_by_riot_id R gameName tagLine with
    | Throw e => (Throw e, player)
    | Normal acc => (Normal tt, set_puuid (Some acc) player)
    end.

(** The unranked snapshot is [{ unranked: true, wins: 0, losses: 0 }]: the
    totals [winsLosses] reads from [Unranked]. *)
Definition fetchSoloQRank (R : Remote) (player : Player) : Completion RankSnapshot :=
  let platform := JsString.toLowerCase
                    (if String.eqb (platform player) "" then "euw1"
                     else platform player) in
  match league_entries R platform (puuid player) with
  | Throw e => Throw e
  | Normal entries =>
      match List.find (fun e => String.eqb (queueType e) "RANKED_SOLO_5x5")
                      (default [] entries) with
      | None => Normal Unranked
      | Some solo =>
          Normal (Ranked (mkRanked (entry_tier solo) (entry_rank solo)
                            (leaguePoints solo) (entry_wins solo)
                            (entry_losses solo)))
      end
  end.

(** Returns [{ region, ids }]. *)
Definition fetchAllMatchIdsForYear (fuel : nat) (R : Remote) (puuid : option string)
    (platform : string) (year : Z) (queueId : option Z)
  : option (Completion (string * list string)) :=
  let region := regionalForPlatform platform in
  let '(start, end_) := yearRangeEpochSeconds year in
  match pageLoop fuel R region puuid start end_ queueId [] 0 [] with
  | None => None
  | Some (Throw e, _) => Some (Throw e)
  | Some (Normal all, _) => Some (Normal (region, all))
  end.

(** [String(Number(me.championId))] *)
Definition idString (champId : option Z) : string :=
  match champId with
  | Some z => pretty z
  | None => "NaN"
  end.

Definition summarize (R : Remote) (byKey : gmap string Champion)
    (matchId : string) (m : Match) (me : Participant) : GameSummary :=
  let champId := me_championId me in
  let champ := byKey !! idString champId in
  mkGame matchId
    (numberOr (gameEndTimestamp m) (dateNow R))
    (me_win me) champId
    (nameOr champ (idString champId)) (iconOr champ)
    (me_kills me) (me_deaths me) (me_assists me)
    (numberOr (gameDuration m) 0)
    (numberOr (info_queueId m) 0).

(** [for (const matchId of ids) { ... }]: every match of the listing is
    fetched, without cache or budget.  The script reads the champion as
    [Number(me.championId)], which is the number itself when the record
    holds one; that is the provider's schema ([numericChampions]) and the
    case the loop is written for.  [None], a field that holds no number, is
    taken as a value that [Number] turns into [NaN]; a field that holds
    [null] or a numeric string, which [Number] turns into a number, is not
    a value of [Participant]. *)
Fixpoint matchLoop (R : Remote) (byKey : gmap string Champion) (region : string)
    (puuid : option string) (ids : list string)
    (counts : gmap Z Z) (last5 : list GameSummary)
  : Completion (gmap Z Z * list GameSummary) :=
  match ids with
  | [] => Normal (counts, last5)
  | matchId :: rest =>
      match match_detail R region matchId with
      | Throw e => Throw e
      | Normal m =>
          if isRemake m then matchLoop R byKey region puuid rest counts last5
          else
            match findMe puuid m with
            | None => matchLoop R byKey region puuid rest counts last5
            | Some me =>
                let counts :=
                  match me_championId me with
                  | Some champId =>
                      <[champId := default 0 (counts !! champId) + 1]> counts
                  | None => counts
                  end in
                let last5 :=
                  if Z.of_nat (length last5) <? 5
                  then last5 ++ [summarize R byKey matchId m me]
                  else last5 in
                matchLoop R byKey region puuid rest counts last5
            end
      end
  end.

(** [Object.values(counts).reduce((s, x) => s + x, 0)] *)
Definition sumValues (counts : gmap Z Z) : Z :=
  foldl (fun s x => s + x) 0 (List.map snd (entries counts)).

(** [ids[0] || null] *)
Definition firstId (ids : list string) : option string :=
  match ids with
  | id0 :: _ => if String.eqb id0 "" then None else Some id0
  | [] => None
  end.

(** The body of the loop of [main] for one player. *)
Definition bootstrapPlayer (fuel : nat) (R : Remote) (byKey : gmap string Champion)
    (p : Player) : option (Completion Player) :=
  match ensurePuuid R p with
  | (Throw e, _) => Some (Throw e)
  | (Normal _, p) =>
      match fetchSoloQRank R p with
      | Throw e => Some (Throw e)
      | Normal rank =>
          let p := set_lastRank (currentRank p) p in
          let p := set_currentRank (Some rank) p in
          let p := set_soloWL (Some (winsLosses rank)) p in
          match fetchAllMatchIdsForYear fuel R (puuid p) (platform p) YEAR
                  (Some QUEUE_ID) with
          | None => None
          | Some (Throw e) => Some (Throw e)
          | Some (Normal (region, ids)) =>
              let latest := firstId ids in
              match matchLoop R byKey region (puuid p) ids ∅ [] with
              | Throw e => Some (Throw e)
              | Normal (counts, last5) =>
                  let list := rebuildByChampion byKey counts in
                  let stats :=
                    mkStats YEAR (Some QUEUE_ID) (sumValues counts) list (Some counts)
                      latest (Some (dateNow R)) (Z.of_nat (length ids)) None in
                  let p := set_champGamesByYear
                             (<[YEAR := stats]> (champGamesByYear p)) p in
                  let p := set_last5 (Some (dateNow R, last5)) p in
                  Some (Normal (set_lastError None p))
              end
          end
      end
  end.

Fixpoint playersLoop (fuel : nat) (R : Remote) (byKey : gmap string Champion)
    (todo : list Player) : option (Completion (list Player)) :=
  match todo with
  | [] => Some (Normal [])
  | p :: rest =>
      match bootstrapPlayer fuel R byKey p with
      | None => None
      | Some (Throw e) => Some (Throw e)
      | Some (Normal p') =>
          match playersLoop fuel R byKey rest with
          | None => None
          | Some (Throw e) => Some (Throw e)
          | Some (Normal ps) => Some (Normal (p' :: ps))
          end
      end
  end.

(** [main()]: how it ends and the contents of [data.json] afterwards; the
    file is written once, after the last player. *)
Definition main (fuel : nat) (R : Remote) (onDisk : State)
  : option (Completion unit * State) :=
  match ddragon_champions R with
  | Throw e => Some (Throw e, onDisk)
  | Normal champions =>
      match playersLoop fuel R (championsByKey champions) (players onDisk) with
      | None => None
      | Some (Throw e) => Some (Throw e, onDisk)
      | Some (Normal ps) =>
          Some (Normal tt, mkState ps (banHistory onDisk) (Some (dateNow R)))
      end
  end.

End Bootstrap.

(** The provider's schema of a match record: every participant carries a
    champion id that is a number, from 0 to 2^32 - 2 (an array index when
    used as a property key). *)
Definition numericChampions (R : Remote) : Prop :=
  forall region matchId m me,
    match_detail R region matchId = Normal m ->
    me ∈ participants m ->
    exists champId, me_championId me = Some champId /\ indexKey champId = true.

(** The records of the matches [ids], as the provider serves them. *)
Definition recordsOf (R : Remote) (region : string) (ids : list string)
    (ms : list Match) : Prop :=
  Forall2 (fun id m => match_detail R region id = Normal m) ids ms.

(** What the bootstrap leaves on a player whose year holds [ids]. *)
Definition bootstrapped (R : Remote) (ids : list string) (p : Player) : Prop :=
  lastError p = None /\
  exists st ms games,
    champGamesByYear p !! Bootstrap.YEAR = Some st /\
    consistent st /\
    StronglySorted rowBefore (byChampion st) /\
    recordsOf R (regionalForPlatform (platform p)) ids ms /\
    totalGames st = Z.of_nat (length (List.filter (countable (puuid p)) ms)) /\
    matchCount st = Z.of_nat (length ids) /\
    latestMatchId st = Bootstrap.firstId ids /\
    last5 p = Some (dateNow R, games) /\
    (length games <= 5)%nat /\
    sublist (List.map matchId games) ids /\
    Forall (fun g => keptDuration (durationSec g)) games.

(** A player before and after the bootstrap. *)
Definition bootstrapStep (R : Remote) (history : option string -> list string)
    (p p' : Player) : Prop :=
  sameIdentity p p' /\ pendingBan p' = pendingBan p /\
  bootstrapped R (history (puuid p')) p'.

(** ** The older server: its refresh cycle

    [fetchSoloQRank] of the older server asks the platform [euw1] for every
    player, and its snapshot is [{ tier, division, lp }]: the record carries
    0 for the wins and losses, which the older server never reads. *)

Module LegacyServer.

Definition fetchSoloQRank (R : Remote) (player : Player) : Completion RankSnapshot :=
  match league_entries R "euw1" (puuid player) with
  | Throw e => Throw e
  | Normal entries =>
      match List.find (fun e => String.eqb (queueType e) "RANKED_SOLO_5x5")
                      (default [] entries) with
      | None => Normal Unranked
      | Some solo =>
          Normal (Ranked (mkRanked (entry_tier solo) (entry_rank solo)
                            (leaguePoints solo) 0 0))
      end
  end.

(** The body of the [try] block for one player. *)
Definition refreshTry (R : Remote) (nowIso : Z) (p : Player) : Completion unit * Player :=
  match ensurePuuidAndSummonerId R p with
  | (Throw e, p) => (Throw e, p)
  | (Normal _, p) =>
      match fetchSoloQRank R p with
      | Throw e => (Throw e, p)
      | Normal newRank =>
          let prevRank := orElse (currentRank p) (lastRank p) in
          let p := set_lastRank (orElse (currentRank p) (lastRank p)) p in
          let p := set_currentRank (Some newRank) p in
          let p := set_lastUpdatedAt (Some nowIso) p in
          let p :=
            if Legacy.isPromotion prevRank (Some newRank)
            then
              match pendingBan p with
              | None => set_pendingBan (Some (mkPendingBan nowIso prevRank newRank)) p
              | Some _ => p
              end
            else p in
          (Normal tt, p)
      end
  end.

(** [for (const p of state.players) { try { ... } catch (err) { ... } }] *)
Fixpoint refreshLoop (R : Remote) (nowIso : Z) (todo : list Player) : list Player :=
  match todo with
  | [] => []
  | p :: rest =>
      let '(c, p') := refreshTry R nowIso p in
      let p'' :=
        match c with
        | Normal _ => p'
        | Throw err => Legacy.refreshCatch nowIso err p'
        end in
      p'' :: refreshLoop R nowIso rest
  end.

(** [refreshAll()]: the state it saves and returns. *)
Definition refreshAll (R : Remote) (onDisk : State) : State :=
  let nowIso := dateNow R in
  mkState (refreshLoop R nowIso (players onDisk)) (banHistory onDisk) (Some nowIso).

End LegacyServer.

(** A ranked snapshot as the provider sends it: a tier of the ladder, a
    division of the ladder unless the tier is an apex tier, and league
    points that are not negative. *)
Definition wellFormed (r : RankedData) : Prop :=
  indexOf (JsString.toUpperCase (tier r)) tierNames <> -1 /\
  (8 <= tierIndex r \/ indexOf (JsString.toUpperCase (division r)) Legacy.divOrder <> -1) /\
  0 <= lp r.

(** ** Below the oracle: [riotFetch] and its retries

    The provider as the sequence of what [fetch] gives: [net k] is the
    outcome of the [k]-th request, an answer or the error [fetch] throws.
    The numbers of the wait are JS numbers, binary64 floats:
    [retryAfter] is [Number(res.headers.get("retry-after") || 0)], which is
    0 when the header is absent or empty and [NaN] when it is not numeric;
    [random k] is [Math.random()] at the [k]-th request.  [text] is
    [await res.text().catch(() => "")] and [json] the outcome of
    [res.json()].  The run records the requests issued and the arguments of
    the calls of [sleep]. *)

Record HttpResponse (J : Type) : Type := mkResponse {
  status : Z;
  statusText : string;
  retryAfter : float;
  text : string;
  json : Completion J
}.

Arguments mkResponse {J}.
Arguments status {J}.
Arguments statusText {J}.
Arguments retryAfter {J}.
Arguments text {J}.
Arguments json {J}.

Inductive NetEvent : Type :=
  | Requested (k : nat)
  | Slept (ms : float).

(** [res.ok] *)
Definition ok {J} (res : HttpResponse J) : bool :=
  (200 <=? status res) && (status res <=? 299).

(** [retryAfterSec > 0 ? retryAfterSec * 1000 : 500 + Math.random() * 500] *)
Definition waitMs {J} (res : HttpResponse J) (random : float) : float :=
  let retryAfterSec := retryAfter res in
  if (0 <? retryAfterSec)%float then (retryAfterSec * 1000)%float
  else (500 + random * 500)%float.

Fixpoint riotFetch {J} (net : nat -> Completion (HttpResponse J)) (random : nat -> float)
    (k : nat) (retries : nat) : Completion J * list NetEvent :=
  match net k with
  | Throw e => (Throw e, [Requested k])
  | Normal res =>
      if status res =? 429
      then
        match retries with
        | O =>
            (Throw (Error ("Riot API 429 Rate limit exceeded: " +:+ text res)),
             [Requested k])
        | S retries' =>
            let '(c, events) := riotFetch net random (S k) retries' in
            (c, Requested k :: Slept (waitMs res (random k)) :: events)
        end
      else if negb (ok res)
      then
        (Throw (Error ("Riot API " +:+ pretty (status res) +:+ " " +:+ statusText res
                       +:+ ": " +:+ text res)),
         [Requested k])
      else (json res, [Requested k])
  end.

(** The requests of a run, and its sleeps. *)
Definition requestsOf (events : list NetEvent) : list nat :=
  omap (fun e => match e with Requested k => Some k | Slept _ => None end) events.

Definition sleepsOf (events : list NetEvent) : list float :=
  omap (fun e => match e with Slept ms => Some ms | Requested _ => None end) events.

(** The [i]-th request was answered 429 and [ms] is the wait computed from
    that answer. *)
Definition retried {J} (net : nat -> Completion (HttpResponse J)) (random : nat -> float)
    (i : nat) (ms : float) : Prop :=
  exists res, net i = Normal res /\ status res = 429 /\ ms = waitMs res (random i).

(** How a run ends on the outcome of its last request. *)
Definition settled {J} (last : Completion (HttpResponse J)) (c : Completion J) : Prop :=
  match last with
  | Throw e => c = Throw e
  | Normal res =>
      (status res = 429 ->
       c = Throw (Error ("Riot API 429 Rate limit exceeded: " +:+ text res))) /\
      (status res <> 429 -> ok res = false ->
       c = Throw (Error ("Riot API " +:+ pretty (status res) +:+ " " +:+
                         statusText res +:+ ": " +:+ text res))) /\
      (status res <> 429 -> ok res = true -> c = json res)
  end.

(** ** The page ([app.js]) *)

Module Frontend.

(** [s.replaceAll(c, rep)] for a pattern of one character. *)
Fixpoint replaceAll (c : ascii) (rep : string) (s : string) : string :=
  match s with
  | EmptyString => EmptyString
  | String x s' =>
      if Ascii.eqb x c then rep +:+ replaceAll c rep s'
      else String x (replaceAll c rep s')
  end.

Definition dquote : ascii := ascii_of_N 34.

Definition esc (s : option string) : string :=
  replaceAll "'" "&#039;"
    (replaceAll dquote "&quot;"
       (replaceAll ">" "&gt;"
          (replaceAll "<" "&lt;"
             (replaceAll "&" "&amp;" (default "" s))))).

(** [String(s || "").trim().toLowerCase()] *)
Definition norm (s : string) : string :=
  JsString.toLowerCase (JsString.trim s).

(** [rankValue(rank)] of the page: the score the player list is sorted by. *)
Definition rankValue (rank : option RankSnapshot) : Z :=
  match rank with
  | None | Some Unranked => -1
  | Some (Ranked r) =>
      let tier := JsString.toUpperCase (tier r) in
      let division := JsString.toUpperCase (division r) in
      let tIdx := indexOf tier tierNames in
      if tIdx =? -1 then -1
      else
        let isApex :=
          negb (indexOf tier ["MASTER"; "GRANDMASTER"; "CHALLENGER"] =? -1) in
        let dIdx := if isApex then 3 else indexOf division Legacy.divOrder in
        let divScore := if dIdx =? -1 then 0 else dIdx in
        tIdx * 100000 + divScore * 1000 + lp r
  end.

(** [p.currentRank ?? p.lastRank ?? { unranked: true }] *)
Definition bestRankForPlayer (p : Player) : RankSnapshot :=
  default Unranked (orElse (currentRank p) (lastRank p)).

Definition score (p : Player) : Z := rankValue (Some (bestRankForPlayer p)).

(** [[...state.players].sort((a, b) => bv - av)] and
    [sortedPlayers[0]?.id ?? null] *)
Definition sortedPlayers (ps : list Player) : list Player :=
  stable_sort (fun a b => score b <=? score a) ps.

Definition leaderId (ps : list Player) : option string :=
  pid <$> head (sortedPlayers ps).

(** A tile of the champion grid of the ban dialog: [isBanned], which
    disables the tile and leaves it without a click handler. *)
Definition isBanned (player : Player) (name id : string) : bool :=
  let bannedSet := List.map (fun b => norm (ban_champion b)) (default [] (bans player)) in
  existsb (String.eqb (norm name)) bannedSet || existsb (String.eqb (norm id)) bannedSet.

End Frontend.

(** [POST /api/refresh]: the answer to the outcome of [refreshAll()],
    whatever made it throw; and [GET /api/state], which answers with the
    stored document. *)
Inductive RefreshResponse : Type :=
  | RefreshOk (state : State)
  | RefreshFailed (error : string).

Definition postApiRefresh (outcome : Completion State) : RefreshResponse :=
  match outcome with
  | Normal state => RefreshOk state
  | Throw e => RefreshFailed (errorString e)
  end.

Definition getApiState (srv : Server) : State := disk srv.

(** The loop over the roster of a refresh cycle started on [srv]. *)
Definition rosterLoop (R : Remote) (srv : Server)
  : Completion unit * list Player * State * Heap :=
  refreshLoop R (dateNow R) (banHistory (disk srv)) [] (players (disk srv)) (disk srv)
    (mkHeap MATCH_DETAIL_BUDGET_PER_REFRESH (matchDetailCache (heap srv))).

(** The page against the answers of the server: [out] is the answer to its
    [POST /api/refresh] and [stored] the answer to its [GET /api/state];
    [state] is the page's variable, and the text is what [alert] showed. *)
Module Page.

Definition apiRefresh (out : RefreshResponse) (state : option State)
  : Completion unit * option State :=
  match out with
  | RefreshOk st => (Normal tt, Some st)
  | RefreshFailed error =>
      (Throw (Error (if String.eqb error "" then "Refresh fehlgeschlagen" else error)),
       state)
  end.

(** The initial load: a failed refresh falls back to the stored state. *)
Definition init (out : RefreshResponse) (stored : State) : option State :=
  match apiRefresh out None with
  | (Normal _, state) => state
  | (Throw _, _) => Some stored
  end.

(** The click on the refresh button: the page state and the text of the
    alert if there was one. *)
Definition onRefreshClick (out : RefreshResponse) (state : option State)
  : option State * option string :=
  match apiRefresh out state with
  | (Normal _, state') => (state', None)
  | (Throw e, state') => (state', Some (errorString e))
  end.

End Page.

(** A character that is safe in HTML text and in a quoted attribute. *)
Definition htmlSafe (c : ascii) : bool :=
  negb (Ascii.eqb c "<" || Ascii.eqb c ">" || Ascii.eqb c Frontend.dquote || Ascii.eqb c "'").

Fixpoint allChars (P : ascii -> bool) (s : string) : bool :=
  match s with
  | EmptyString => true
  | String c s' => P c && allChars P s'
  end.

(** The entity of one character. *)
Definition escChar (c : ascii) : string :=
  if Ascii.eqb c "&" then "&amp;"
  else if Ascii.eqb c "<" then "&lt;"
  else if Ascii.eqb c ">" then "&gt;"
  else if Ascii.eqb c Frontend.dquote then "&quot;"
  else if Ascii.eqb c "'" then "&#039;"
  else String c EmptyString.

Fixpoint escapeEach (s : string) : string :=
  match s with
  | EmptyString => EmptyString
  | String c s' => escChar c +:+ escapeEach s'
  end.

(** League points as the ladder has them: not negative, at most 100 below
    the apex tiers, and below 97000 in them. *)
Definition plausible (r : RankedData) : Prop :=
  0 <= lp r < 97000 /\ (tierIndex r < 8 -> lp r <= 100).

(** ** The worker pool of the older server

    [countGamesByChampionFromMatches] starts up to three workers that share
    [idx], [counts] and [total].  A worker runs without interruption from
    one [await] to the next, so a run is the sequence in which the pending
    answers arrive: entry [k] of the schedule delivers the answer of the
    [k mod a]-th of the [a] workers that are waiting.  [Promise.all]
    rejects with the first answer that is an error; what the other workers
    do after that is not observed by the caller. *)

Module Pool.

(** A [Map] with numeric keys: its entries in insertion order. *)
Definition mapGet (k : Z) (m : list (Z * Z)) : option Z :=
  snd <$> List.find (fun kv => kv.1 =? k) m.

Fixpoint mapSet (k v : Z) (m : list (Z * Z)) : list (Z * Z) :=
  match m with
  | [] => [(k, v)]
  | (k', v') :: m' => if k' =? k then (k, v) :: m' else (k', v') :: mapSet k v m'
  end.

Inductive Worker : Type :=
  | Awaiting (myIdx : nat)
  | Returned.

Record State : Type := mkPool {
  idx : nat;
  counts : list (Z * Z);
  total : Z;
  workers : list Worker;
  requested : list string
}.

Definition CONCURRENCY : nat := 3.

(** [while (idx < matchIds.length) { const myIdx = idx++; ... await ...]:
    from the loop test to the [await], or to the end of the worker. *)
Definition enterLoop (matchIds : list string) (s : State) : Worker * State :=
  match matchIds !! idx s with
  | Some matchId =>
      (Awaiting (idx s),
       mkPool (S (idx s)) (counts s) (total s) (workers s) (requested s ++ [matchId]))
  | None => (Returned, s)
  end.

(** [Array.from({ length: n }, worker)]: the workers are started one after
    the other. *)
Fixpoint start (matchIds : list string) (n : nat) (s : State) : State :=
  match n with
  | O => s
  | S n' =>
      let '(w, s1) := enterLoop matchIds s in
      start matchIds n'
        (mkPool (idx s1) (counts s1) (total s1) (workers s1 ++ [w]) (requested s1))
  end.

(** The rest of the loop body once the record [m] has arrived. *)
Definition countRecord (puuid : option string) (m : Match) (s : State) : State :=
  match findMe puuid m ≫= me_championId with
  | Some champId =>
      mkPool (idx s)
        (mapSet champId (default 0 (mapGet champId (counts s)) + 1) (counts s))
        (total s + 1) (workers s) (requested s)
  | None => s
  end.

(** The workers that wait for an answer, with the index each asked for. *)
Fixpoint awaiting (w : nat) (ws : list Worker) : list (nat * nat) :=
  match ws with
  | [] => []
  | Awaiting i :: ws' => (w, i) :: awaiting (S w) ws'
  | Returned :: ws' => awaiting (S w) ws'
  end.

Fixpoint run (R : Remote) (region : string) (puuid : option string)
    (matchIds : list string) (sched : list nat) (s : State)
  : option (Completion (list (Z * Z) * Z)) * State :=
  match awaiting 0 (workers s) with
  | [] => (Some (Normal (counts s, total s)), s)
  | first :: others =>
      match sched with
      | [] => (None, s)
      | k :: sched' =>
          let '(w, i) := nth (k mod length (first :: others)) (first :: others) first in
          match match_detail R region (default "" (matchIds !! i)) with
          | Throw e => (Some (Throw e), s)
          | Normal m =>
              let '(wk, s1) := enterLoop matchIds (countRecord puuid m s) in
              run R region puuid matchIds sched'
                (mkPool (idx s1) (counts s1) (total s1) (<[w := wk]> (workers s1))
                        (requested s1))
          end
      end
  end.

Definition countGamesByChampionFromMatches (R : Remote) (puuid : option string)
    (platform : string) (matchIds : list string) (sched : list nat)
  : option (Completion (list (Z * Z) * Z)) * State :=
  let region := regionalForPlatform platform in
  let n := Nat.min CONCURRENCY (length matchIds) in
  run R region puuid matchIds sched (start matchIds n (mkPool 0 [] 0 [] [])).

End Pool.

(** The champion a record counts for in the older server: the one the
    tracked player played, remake or not. *)
Definition champOf (puuid : option string) (m : Match) : option Z :=
  findMe puuid m ≫= me_championId.

(** How often champion [c] was played in the records [ms]. *)
Definition gamesOn (puuid : option string) (ms : list Match) (c : Z) : nat :=
  length (List.filter (fun m => bool_decide (champOf puuid m = Some c)) ms).

Definition gamesPlayed (puuid : option string) (ms : list Match) : nat :=
  length (List.filter (fun m => bool_decide (is_Some (champOf puuid m))) ms).

(** What [counts.get(c)] is for a champion played [n] times. *)
Definition entryFor (n : nat) : option Z :=
  if decide (n = 0%nat) then None else Some (Z.of_nat n).
(** The records delivered so far: those of the indices [done]. *)
Definition recordsAt (ms : list Match) (done : list nat) : list Match :=
  omap (fun i => ms !! i) done.

(** What holds between two deliveries. *)
Record poolInv (pu : option string) (matchIds : list string) (ms : list Match)
    (done : list nat) (s : Pool.State) : Prop := mkInv {
  inv_idx : (Pool.idx s <= length matchIds)%nat;
  inv_claimed : done ++ (Pool.awaiting 0 (Pool.workers s)).*2 ≡ₚ seq 0 (Pool.idx s);
  inv_busy : Pool.idx s = length matchIds \/
             (Forall (fun w => w <> Pool.Returned) (Pool.workers s) /\ Pool.workers s <> []);
  inv_counts : forall c,
    Pool.mapGet c (Pool.counts s) = entryFor (gamesOn pu (recordsAt ms done) c);
  inv_total : Pool.total s = Z.of_nat (gamesPlayed pu (recordsAt ms done));
  inv_requested : Pool.requested s = take (Pool.idx s) matchIds;
  inv_sum : foldr (fun kv acc => kv.2 + acc) 0 (Pool.counts s) = Pool.total s
}.

(** ** The yearly aggregate of the older server *)

Module LegacyYear.

Definition CHAMP_GAMES_TTL_MS : Z := 30 * 60 * 1000.

(** [isFresh(iso, ttlMs)] *)
Definition isFresh (R : Remote) (iso : option Z) (ttlMs : Z) : bool :=
  match iso with
  | Some t => dateNow R - t <? ttlMs
  | None => false
  end.

Definition mapCountsToChampionList (ddChampions : list Champion)
    (countsMap : list (Z * Z)) : list ChampionRow :=
  let byKey := championsByKey ddChampions in
  sortByCountDesc
    (List.map (fun '(championId, n) =>
                 let c := byKey !! pretty championId in
                 mkRow championId n (nameOr c (pretty championId)) (iconOr c))
              countsMap).

(** The stored aggregate is reused while it is fresh and of the same
    queue.  The last component tells that [saveState] ran. *)
Definition computeChampionGamesForYear (fuel : nat) (sched : list nat) (R : Remote)
    (player : Player) (year : Z) (queueId : option Z)
  : option (Completion YearStats * Player * bool) :=
  match ensurePuuidAndSummonerId R player with
  | (Throw e, player) => Some (Throw e, player, false)
  | (Normal _, player) =>
      let existing := champGamesByYear player !! year in
      let reusable :=
        match existing with
        | Some ex =>
            if bool_decide (is_Some (computedAt ex)) &&
               isFresh R (computedAt ex) CHAMP_GAMES_TTL_MS &&
               bool_decide (stats_queueId ex = queueId)
            then Some ex else None
        | None => None
        end in
      match reusable with
      | Some ex => Some (Normal ex, player, false)
      | None =>
          match fetchAllMatchIdsForYear fuel R (puuid player) (platform player)
                  year queueId with
          | None => None
          | Some (Throw e, _) => Some (Throw e, player, false)
          | Some (Normal matchIds, _) =>
              match (Pool.countGamesByChampionFromMatches R (puuid player)
                       (platform player) matchIds sched).1 with
              | None => None
              | Some (Throw e) => Some (Throw e, player, false)
              | Some (Normal (counts, total)) =>
                  match ddragon_champions R with
                  | Throw e => Some (Throw e, player, false)
                  | Normal champions =>
                      let byChampion := mapCountsToChampionList champions counts in
                      let stats :=
                        mkStats year queueId total byChampion None None
                          (Some (dateNow R)) (Z.of_nat (length matchIds)) None in
                      Some (Normal stats,
                            set_champGamesByYear
                              (<[year := stats]> (champGamesByYear player)) player,
                            true)
                  end
              end
          end
      end
  end.

End LegacyYear.

(** A stored aggregate that [computeChampionGamesForYear] does not reuse:
    none, one older than the time to live, or one of another queue. *)
Definition stale (R : Remote) (p : Player) (year : Z) (queueId : option Z) : Prop :=
  forall ex, champGamesByYear p !! year = Some ex ->
    LegacyYear.isFresh R (computedAt ex) LegacyYear.CHAMP_GAMES_TTL_MS = false \/
    stats_queueId ex <> queueId.

(** The remakes the tracked player took part in. *)
Definition remakesPlayed (puuid : option string) (ms : list Match) : nat :=
  length (List.filter (fun m => isRemake m && bool_decide (is_Some (champOf puuid m))) ms).

(** * Properties *)

(** ** Strings *)

Section trim_facts.
Import JsString.

Lemma trimStart_headKept s : headKept (trimStart s).
Proof.
  induction s as [|c s IH]; cbn; [exact I|].
  destruct (is_space c) eqn:Hc; [exact IH | exact Hc].
Qed.

Lemma trimEnd_idem s : trimEnd (trimEnd s) = trimEnd s.
Proof.
  induction s as [|c s IH]; cbn; [reflexivity|].
  destruct (trimEnd s) as [|c' t] eqn:Ht.
  - destruct (is_space c) eqn:Hc; cbn; [reflexivity | now rewrite Hc].
  - cbn [trimEnd] in *. now rewrite IH.
Qed.

Lemma trimStart_trimEnd s : headKept s -> trimStart (trimEnd s) = trimEnd s.
Proof.
  destruct s as [|c s]; cbn; [reflexivity|]. intros Hc.
  destruct (trimEnd s); rewrite ?Hc; cbn; now rewrite Hc.
Qed.

Lemma trim_idem s : trim (trim s) = trim s.
Proof.
  unfold trim. rewrite trimStart_trimEnd by apply trimStart_headKept.
  apply trimEnd_idem.
Qed.
End trim_facts.

Lemma norm_trim s : norm (JsString.trim s) = norm s.
Proof. unfold norm. now rewrite trim_idem. Qed.

(** ** Ban recording *)

Lemma findPlayerIndex_lookup playerId ps i :
  findPlayerIndex playerId ps = Some i ->
  exists p, ps !! i = Some p /\ pid p = playerId.
Proof.
  revert i. induction ps as [|x ps IH]; intros i; cbn; [discriminate|].
  destruct (String.eqb_spec (pid x) playerId) as [He|He].
  - intros [= <-]. eauto.
  - destruct (findPlayerIndex playerId ps) as [j|]; [|discriminate].
    intros [= <-]. destruct (IH j eq_refl) as (p & Hp & Hid). eauto.
Qed.

(** C6, as the code has it.  The ban-recording action on
    [(playerId, champion, note)]: it is
    rejected when the player has no pending promotion and when the champion
    is in the player's ban list up to trimming, collapsing of white space
    and case; a rejected action leaves the stored state as it was; an
    accepted action appends one ban record to the player's list, puts one
    history entry holding a copy of the pending promotion in front of the
    history, and empties the player's [pendingBan]. *)
Theorem ban_recording_guarded (time : Z) (body : BanRequest) (st : State)
    (res : Completion Response) (st' : State) :
  postApiBan time body st = (res, st') ->
  (forall i p,
      findPlayerIndex (req_playerId body) (players st) = Some i ->
      players st !! i = Some p ->
      pendingBan p = None \/
      (exists bs b, bans p = Some bs /\ b ∈ bs /\
                    norm (ban_champion b) = norm (req_champion body)) ->
      isOk res = false) /\
  (isOk res = false -> st' = st) /\
  (isOk res = true ->
   exists i p pending bs,
     let champ := JsString.trim (req_champion body) in
     let p' := set_pendingBan None
                 (set_bans (Some (bs ++ [mkBan time champ (req_note body)])) p) in
     findPlayerIndex (req_playerId body) (players st) = Some i /\
     players st !! i = Some p /\
     pendingBan p = Some pending /\
     bans p = Some bs /\
     res = Normal (Ok200 st') /\
     players st' = <[i := p']> (players st) /\
     players st' !! i = Some p' /\
     pendingBan p' = None /\
     bans p' = Some (bs ++ [mkBan time champ (req_note body)]) /\
     banHistory st' =
       mkEntry time (pid p) (displayName p) champ (req_note body)
         (Some (mkPromotion (from pending) (to pending) (detectedAt pending)))
       :: banHistory st /\
     globalLastUpdatedAt st' = globalLastUpdatedAt st).
Proof.
  unfold postApiBan. intros H.
  destruct (String.eqb (req_playerId body) "" ||
            String.eqb (JsString.trim (req_champion body)) "") eqn:Hreq.
  { injection H as <- <-. repeat split; try discriminate. }
  destruct (findPlayerIndex (req_playerId body) (players st)) as [i|] eqn:Hi.
  2:{ injection H as <- <-. repeat split; try discriminate. }
  destruct (players st !! i) as [p|] eqn:Hp.
  2:{ injection H as <- <-. repeat split; try discriminate. }
  destruct (pendingBan p) as [pending|] eqn:Hpend.
  2:{ injection H as <- <-. repeat split; try discriminate. }
  destruct (bans p) as [bs|] eqn:Hbans.
  2:{ injection H as <- <-. repeat split; try discriminate. }
  destruct (existsb _ bs) eqn:Hdup.
  { injection H as <- <-. repeat split; try discriminate. }
  injection H as <- <-. split; [|split].
  - intros i0 p0 [= <-] Hp0 [Hnone | (bs0 & b & Hbs0 & Hin & Hnorm)].
    + rewrite Hp in Hp0. injection Hp0 as <-. congruence.
    + exfalso. rewrite Hp in Hp0. injection Hp0 as <-.
      rewrite Hbans in Hbs0. injection Hbs0 as <-.
      apply not_true_iff_false in Hdup. apply Hdup.
      apply existsb_exists. exists b. split.
      * now apply list_elem_of_In.
      * rewrite norm_trim. now apply String.eqb_eq.
  - discriminate.
  - intros _. exists i, p, pending, bs. cbn.
    repeat split; try assumption; try reflexivity.
    apply list_lookup_insert_eq. now apply lookup_lt_Some in Hp.
Qed.

Lemma ban_recording_guarded_witness :
  let recorded := mkBan 100 "Lee Sin" "" in
  let older := mkEntry 100 "p1" "Alice" "Lee Sin" "" None in
  let p := set_bans (Some [recorded]) Sample.promoted in
  let st := mkState [p; Sample.bob] [older] None in
  let again := postApiBan 3000 (mkBanRequest "p1" "  LEE   sin " "again") st in
  let body := mkBanRequest "p1" " Yasuo " "after GOLD" in
  (isOk again.1 = false /\ again.2 = st) /\
  exists st',
    postApiBan 3000 body st = (Normal (Ok200 st'), st') /\
    (bans <$> players st' !! 0%nat) =
      Some (Some [recorded; mkBan 3000 "Yasuo" "after GOLD"]) /\
    (pendingBan <$> players st' !! 0%nat) = Some None /\
    banHistory st' =
      [mkEntry 3000 "p1" "Alice" "Yasuo" "after GOLD"
         (Some (mkPromotion (Some (Sample.rank "SILVER" "I" 90 9 9))
                  (Sample.rank "GOLD" "IV" 0 10 10) 500));
       older].
Proof.
  intros recorded older p st again body. split.
  - destruct again as [res st1] eqn:Hrun.
    destruct (ban_recording_guarded 3000 _ st res st1 Hrun) as (Hno & Hsame & _).
    assert (Hres : isOk res = false).
    { apply (Hno 0%nat p); [reflexivity | reflexivity |].
      right. exists [recorded], recorded.
      split; [reflexivity|]. split; [apply list_elem_of_here|].
      vm_compute. reflexivity. }
    split; [exact Hres | exact (Hsame Hres)].
  - destruct (postApiBan 3000 body st) as [res st'] eqn:Hrun.
    destruct (ban_recording_guarded 3000 body st res st' Hrun) as (_ & _ & Hok).
    assert (Hres : isOk res = true).
    { replace res with (postApiBan 3000 body st).1 by now rewrite Hrun.
      vm_compute. reflexivity. }
    destruct (Hok Hres) as (i & q & pending & bs & Hi & Hq & Hpend & Hbs & -> & Hrest).
    exists st'. split; [reflexivity|].
    replace st' with (postApiBan 3000 body st).2 by now rewrite Hrun.
    vm_compute. repeat split; reflexivity.
Defined.

(** C6, as stated, fails on the place of the history entry: the handler
    puts the new entry in front of [banHistory] ([unshift]), it does not
    append it.  With one older entry in the history, an accepted ban of
    another champion leaves the older entry last. *)
Lemma ban_history_entry_goes_first :
  let older := mkEntry 100 "p1" "Alice" "Lee Sin" "" None in
  let entry :=
    mkEntry 3000 "p1" "Alice" "Yasuo" "after GOLD"
      (Some (mkPromotion (Some (Sample.rank "SILVER" "I" 90 9 9))
               (Sample.rank "GOLD" "IV" 0 10 10) 500)) in
  let st := mkState [Sample.promoted; Sample.bob] [older] None in
  let run := postApiBan 3000 (mkBanRequest "p1" "Yasuo" "after GOLD") st in
  isOk run.1 = true /\
  banHistory run.2 = [entry; older] /\
  banHistory run.2 <> (banHistory st ++ [entry])%list.
Proof.
  vm_compute. repeat split; try reflexivity. discriminate.
Qed.

(** ** Promotion ordering *)

Lemma tierOrder_MASTER : tierOrder !! "MASTER" = Some 8.
Proof. reflexivity. Qed.

Lemma rankValue_ranked (o n : RankedData) :
  rankValue (Some (Ranked o)) (Some (Ranked n)) = true <->
  tierIndex o < tierIndex n \/
  (tierIndex o = tierIndex n /\ tierIndex n < 8 /\ divIndex o < divIndex n).
Proof.
  unfold rankValue. rewrite tierOrder_MASTER.
  change (default 0 (Some 8)) with 8.
  destruct (Z.eqb_spec (tierIndex n) (tierIndex o)) as [Ht|Ht]; cbn [negb].
  - destruct (Z.leb_spec 8 (tierIndex n)) as [Ha|Ha].
    + cbn. split; [discriminate | lia].
    + destruct (Z.eqb_spec (divIndex n) (divIndex o)) as [Hd|Hd]; cbn [negb].
      * split; [discriminate | lia].
      * rewrite Z.ltb_lt. lia.
  - rewrite Z.ltb_lt. lia.
Qed.

Lemma isPromotion_ranked prev new :
  isPromotion prev new = true ->
  exists o n, prev = Some (Ranked o) /\ new = Some (Ranked n).
Proof.
  unfold isPromotion, rankValue.
  destruct prev as [[|o]|]; try discriminate.
  destruct new as [[|n]|]; try discriminate. eauto.
Qed.

(** The older server also takes the first ranked snapshot of a player for a
    promotion, and its handler records the error of a player on the player. *)
Lemma indexOf_lower_bound x arr : -1 <= indexOf x arr.
Proof.
  induction arr as [|y arr IH]; cbn; [lia|].
  destruct (String.eqb y x); [lia|].
  destruct (Z.eqb_spec (indexOf x arr) (-1)); lia.
Qed.

Lemma legacy_score_same_rung (o n : RankedData) :
  tier o = tier n -> division o = division n ->
  indexOf (JsString.toUpperCase (tier n)) tierNames <> -1 ->
  (Legacy.isPromotion (Some (Ranked o)) (Some (Ranked n)) = true <->
   Z.min (lp o) 99 < Z.min (lp n) 99).
Proof.
  intros Ht Hd Hk. unfold Legacy.isPromotion, Legacy.rankValue.
  rewrite Ht, Hd.
  destruct (Z.eqb_spec (indexOf (JsString.toUpperCase (tier n)) tierNames) (-1)) as [|_];
    [contradiction|].
  set (c := _ * 1000 + _ * 10). clearbody c.
  rewrite negb_true_iff, <- not_true_iff_false, Qle_bool_iff.
  unfold Qle, Qplus, inject_Z. cbn [Qnum Qden]. lia.
Qed.

Lemma legacy_promotes_from_unranked r :
  indexOf (JsString.toUpperCase (tier r)) tierNames <> -1 ->
  0 <= lp r ->
  Legacy.isPromotion (Some Unranked) (Some (Ranked r)) = true.
Proof.
  intros Hk Hlp. unfold Legacy.isPromotion, Legacy.rankValue.
  destruct (Z.eqb_spec (indexOf (JsString.toUpperCase (tier r)) tierNames) (-1))
    as [|_]; [contradiction|].
  pose proof (indexOf_lower_bound (JsString.toUpperCase (tier r)) tierNames) as Ht.
  pose proof (indexOf_lower_bound (JsString.toUpperCase (division r)) Legacy.divOrder)
    as Hd.
  set (tIdx := indexOf _ tierNames) in *.
  set (dIdx := indexOf _ Legacy.divOrder) in *.
  set (divScore := if (if negb _ then 3 else dIdx) =? -1 then 0
                   else (if negb _ then 3 else dIdx)).
  assert (0 <= divScore).
  { unfold divScore. destruct (negb _); [cbn; lia|].
    destruct (Z.eqb_spec dIdx (-1)); lia. }
  clearbody divScore.
  rewrite negb_true_iff, <- not_true_iff_false, Qle_bool_iff.
  unfold Qle, Qplus, inject_Z. cbn [Qnum Qden]. lia.
Qed.




(** ** Sums of counts *)

Lemma sum_snd_perm (l l' : list (Z * Z)) :
  l ≡ₚ l' ->
  foldr (fun kv acc => kv.2 + acc) 0 l = foldr (fun kv acc => kv.2 + acc) 0 l'.
Proof. induction 1; cbn; lia. Qed.

Lemma sumRows_perm (l l' : list ChampionRow) :
  l ≡ₚ l' -> sumRows l = sumRows l'.
Proof. unfold sumRows. induction 1; cbn; lia. Qed.

Lemma sumCounts_empty : sumCounts ∅ = 0.
Proof. unfold sumCounts. now rewrite map_to_list_empty. Qed.

Lemma sumCounts_insert_fresh (m : gmap Z Z) k v :
  m !! k = None -> sumCounts (<[k := v]> m) = v + sumCounts m.
Proof.
  intros Hk. unfold sumCounts.
  now rewrite (sum_snd_perm _ _ (map_to_list_insert m k v Hk)).
Qed.

Lemma sumCounts_insert (m : gmap Z Z) k v :
  sumCounts (<[k := v]> m) = v + sumCounts m - default 0 (m !! k).
Proof.
  destruct (m !! k) as [w|] eqn:Hk; cbn.
  - rewrite <- (insert_delete_eq m).
    rewrite <- (insert_delete_id m k w Hk) at 2.
    rewrite !sumCounts_insert_fresh by apply lookup_delete_eq. lia.
  - rewrite sumCounts_insert_fresh by assumption. lia.
Qed.

Lemma sumCounts_bump (m : gmap Z Z) k :
  sumCounts (<[k := default 0 (m !! k) + 1]> m) = sumCounts m + 1.
Proof. rewrite sumCounts_insert. lia. Qed.

Lemma insert_sorted_perm {A} (le : A -> A -> bool) x l :
  insert_sorted le x l ≡ₚ x :: l.
Proof.
  induction l as [|y l IH]; cbn; [reflexivity|].
  destruct (le x y); [reflexivity|]. rewrite IH. apply Permutation_swap.
Qed.

Lemma stable_sort_perm {A} (le : A -> A -> bool) l : stable_sort le l ≡ₚ l.
Proof.
  induction l as [|x l IH]; cbn; [reflexivity|].
  rewrite insert_sorted_perm. now rewrite IH.
Qed.

Lemma sumRows_rebuild byKey (m : gmap Z Z) :
  sumRows (rebuildByChampion byKey m) = sumCounts m.
Proof.
  unfold rebuildByChampion, sortByCountDesc, entries, sumCounts.
  rewrite (sumRows_perm _ _ (stable_sort_perm _ _)).
  rewrite <- (sum_snd_perm _ _ (stable_sort_perm (fun x y => x.1 <=? y.1) (map_to_list m))).
  induction (stable_sort _ (map_to_list m)) as [|[k v] l IH]; cbn; [reflexivity|].
  unfold sumRows in IH. now rewrite IH.
Qed.

(** ** The walk and the fetch budget *)

Lemma countMatch_countable pu m t :
  countable pu m = true ->
  exists champId,
    countMatch pu m t =
    mkTally (<[champId := default 0 (counts t !! champId) + 1]> (counts t))
            (total t + 1) (added t + 1).
Proof.
  unfold countable, countMatch. destruct (isRemake m); [discriminate|].
  destruct (findMe pu m) as [me|]; [|discriminate].
  destruct (me_championId me) as [c|]; cbn; [eauto | discriminate].
Qed.

Lemma countMatch_skipped pu m t :
  countable pu m = false -> countMatch pu m t = t.
Proof.
  unfold countable, countMatch. destruct (isRemake m); [reflexivity|].
  destruct (findMe pu m) as [me|]; [|reflexivity].
  destruct (me_championId me) as [c|]; cbn; [discriminate | reflexivity].
Qed.

Lemma deltaWalk_tally R region pu ids t h :
  (deltaWalk R region pu ids t h).1.2 = tallyOver pu (fetched R region ids h) t.
Proof.
  revert t h. induction ids as [|x ids IH]; intros t h; cbn; [reflexivity|].
  destruct (fetchMatchDetail R region x h) as [[m|e] h']; cbn; [apply IH | reflexivity].
Qed.

Lemma tallyOver_account pu ms t :
  let n := Z.of_nat (length (List.filter (countable pu) ms)) in
  total (tallyOver pu ms t) = total t + n /\
  added (tallyOver pu ms t) = added t + n /\
  sumCounts (counts (tallyOver pu ms t)) = sumCounts (counts t) + n.
Proof.
  revert t. induction ms as [|m ms IH]; intros t; cbn; [lia|].
  destruct (countable pu m) eqn:Hc.
  - destruct (countMatch_countable pu m t Hc) as [c Hm].
    specialize (IH (countMatch pu m t)). cbn in IH.
    rewrite Hm in IH at 2 4 6. cbn in IH.
    rewrite sumCounts_bump in IH. cbn [length]. unfold tallyOver in IH. lia.
  - rewrite (countMatch_skipped pu m t Hc). apply IH.
Qed.

Lemma fetched_length R region ids h :
  (length (fetched R region ids h) <= length ids)%nat.
Proof.
  revert h. induction ids as [|x ids IH]; intros h; cbn; [lia|].
  destruct (fetchMatchDetail R region x h) as [[m|e] h']; cbn; [|lia].
  specialize (IH h'). lia.
Qed.

Lemma cacheKey_inj region : Inj (=) (=) (cacheKey region).
Proof.
  intros x y H. unfold cacheKey in H.
  apply (String.app_inj region) in H. now apply (String.app_inj ":") in H.
Qed.

(** With [b] fetches left and more than [b] distinct ids to fetch, none of
    them cached and all of them served, the walk obtains the first [b]
    records and then stops on the budget error. *)
Lemma deltaWalk_budget R region pu ids :
  forall t h,
    NoDup ids ->
    (forall x, x ∈ ids -> matchDetailCache h !! cacheKey region x = None) ->
    (forall x, x ∈ ids -> is_normal (match_detail R region x) = true) ->
    0 <= MATCH_DETAIL_BUDGET h < Z.of_nat (length ids) ->
    let w := deltaWalk R region pu ids t h in
    w.1.1 = Throw (Error "MATCH_DETAIL_BUDGET_EXCEEDED") /\
    MATCH_DETAIL_BUDGET w.2 = 0 /\
    List.map Normal (fetched R region ids h) =
      List.map (match_detail R region) (take (Z.to_nat (MATCH_DETAIL_BUDGET h)) ids).
Proof.
  induction ids as [|x ids IH]; intros t h Hnd Hcache Hserved Hb; [cbn in Hb; lia|].
  cbn [deltaWalk fetched]. unfold fetchMatchDetail. fold (cacheKey region x).
  rewrite (Hcache x) by now left.
  destruct (Z.leb_spec (MATCH_DETAIL_BUDGET h) 0) as [Hz|Hpos].
  - assert (MATCH_DETAIL_BUDGET h = 0) as Hz0 by lia. rewrite Hz0. now cbn.
  - specialize (Hserved x) as Hx. destruct (match_detail R region x) as [m|e] eqn:Hm;
      [|now discriminate Hx; left].
    cbn [MATCH_DETAIL_BUDGET matchDetailCache].
    set (h1 := mkHeap (MATCH_DETAIL_BUDGET h - 1)
                  (<[cacheKey region x := m]> (matchDetailCache h))).
    apply NoDup_cons in Hnd as [Hx' Hnd].
    destruct (IH (countMatch pu m t) h1 Hnd) as (I1 & I2 & I3).
    + intros y Hy. unfold h1. cbn. rewrite lookup_insert_ne.
      * apply Hcache. now right.
      * intros E. apply cacheKey_inj in E. now subst.
    + intros y Hy. apply Hserved. now right.
    + unfold h1. cbn [MATCH_DETAIL_BUDGET length] in *. lia.
    + cbv zeta. cbn [fst snd]. split; [exact I1|]. split; [exact I2|].
      replace (Z.to_nat (MATCH_DETAIL_BUDGET h))
        with (S (Z.to_nat (MATCH_DETAIL_BUDGET h1))) by (unfold h1; cbn; lia).
      cbn [take List.map]. now rewrite Hm, I3.
Qed.

(** ** Remakes *)

Lemma isRemake_spec m :
  isRemake m = true <->
  exists dur, gameDuration m = Some dur /\ 0 < dur < REMAKE_MAX_DURATION_SEC.
Proof.
  unfold isRemake. destruct (gameDuration m) as [dur|].
  - rewrite andb_true_iff, !Z.ltb_lt. split.
    + intros [? ?]. exists dur. split; [reflexivity | lia].
    + intros (d & [= <-] & ?). lia.
  - split; [discriminate | intros (d & [=] & _)].
Qed.

Lemma countMatch_remake pu m t : isRemake m = true -> countMatch pu m t = t.
Proof. unfold countMatch. now intros ->. Qed.

Lemma countable_not_remake pu m : countable pu m = true -> isRemake m = false.
Proof. unfold countable. now destruct (isRemake m). Qed.

Lemma summarize_duration R byKey matchId m me :
  isRemake m = false ->
  keptDuration (durationSec (summarize R byKey matchId m me)).
Proof.
  unfold keptDuration, summarize, isRemake, numberOr. cbn [durationSec].
  destruct (gameDuration m) as [dur|]; [|intros _; unfold REMAKE_MAX_DURATION_SEC; lia].
  destruct (Z.eqb_spec dur 0); [intros _; unfold REMAKE_MAX_DURATION_SEC; lia|].
  rewrite andb_false_iff, !Z.ltb_ge. lia.
Qed.

Lemma summaryLoop_durations R region pu byKey n ids :
  forall out h games h',
    Forall (fun g => keptDuration (durationSec g)) out ->
    summaryLoop R region pu byKey n ids out h = (Normal games, h') ->
    Forall (fun g => keptDuration (durationSec g)) games.
Proof.
  induction ids as [|x ids IH]; intros out h games h' Hout H; cbn [summaryLoop] in H.
  - now injection H as <- <-.
  - destruct (n <=? Z.of_nat (length out)); [now injection H as <- <-|].
    destruct (fetchMatchDetail R region x h) as [[m|e] h1]; [|discriminate].
    destruct (isRemake m) eqn:Hr; [now apply (IH out h1 games h')|].
    destruct (findMe pu m) as [me|]; [|now apply (IH out h1 games h')].
    eapply IH; [|exact H].
    apply Forall_app. split; [assumption|].
    constructor; [now apply summarize_duration | constructor].
Qed.




(** ** The aggregator, path by path *)

Lemma set_puuid_same p : set_puuid (puuid p) p = p.
Proof. now destruct p. Qed.

Lemma ensurePuuid_frame R p c p' :
  ensurePuuidAndSummonerId R p = (c, p') -> exists pu, p' = set_puuid pu p.
Proof.
  unfold ensurePuuidAndSummonerId. intros H.
  repeat case_match; simplify_eq; eauto.
  all: try (exists (puuid p'); now rewrite set_puuid_same).
Qed.

Lemma ensurePuuid_stats R p c p' :
  ensurePuuidAndSummonerId R p = (c, p') ->
  champGamesByYear p' = champGamesByYear p.
Proof. intros H. apply ensurePuuid_frame in H as [pu ->]. reflexivity. Qed.

Lemma aggregator_frame R p year queueId h c p' h' saved :
  updateChampionOverviewIncremental R p year queueId h = (c, p', h', saved) ->
  exists pu m, p' = set_champGamesByYear m (set_puuid pu p).
Proof.
  unfold updateChampionOverviewIncremental. intros H.
  destruct (ensurePuuidAndSummonerId R p) as [c1 p1] eqn:He.
  apply ensurePuuid_frame in He as [pu ->].
  repeat case_match; simplify_eq; eauto.
Qed.

Lemma countsOf_set_queueId q s : countsOf (set_queueId q s) = countsOf s.
Proof. now destruct s as [? ? ? ? [m|] ? ? ? ?]. Qed.

Lemma ensureCountsMap_counts s :
  countsByChampionId (ensureCountsMap s) = Some (countsOf s).
Proof. now destruct s as [? ? ? ? [m|] ? ? ? ?]. Qed.

Lemma ensureCountsMap_fields s :
  totalGames (ensureCountsMap s) = totalGames s /\
  byChampion (ensureCountsMap s) = byChampion s /\
  latestMatchId (ensureCountsMap s) = latestMatchId s /\
  matchCount (ensureCountsMap s) = matchCount s /\
  computedAt (ensureCountsMap s) = computedAt s.
Proof. now destruct s as [? ? ? ? [m|] ? ? ? ?]. Qed.

Lemma ensureCountsMap_idem s :
  ensureCountsMap (ensureCountsMap s) = ensureCountsMap s.
Proof. now destruct s as [? ? ? ? [m|] ? ? ? ?]. Qed.

Lemma countsOf_present s m : countsByChampionId s = Some m -> countsOf s = m.
Proof. intros H. unfold countsOf, ensureCountsMap. rewrite H. now rewrite H. Qed.

Lemma countsOf_mk y q t b m l c mc li :
  countsOf (mkStats y q t b (Some m) l c mc li) = m.
Proof. reflexivity. Qed.

Lemma statsOnEntry_lookup p year queueId s :
  champGamesByYear p !! year = Some s ->
  statsOnEntry p year queueId = ensureCountsMap (set_queueId queueId s).
Proof. unfold statsOnEntry. now intros ->. Qed.

Lemma statsOnEntry_counts p year queueId :
  countsByChampionId (statsOnEntry p year queueId) =
  Some (countsOf (statsOnEntry p year queueId)).
Proof.
  unfold statsOnEntry. rewrite ensureCountsMap_counts. f_equal.
  unfold countsOf. now rewrite ensureCountsMap_idem.
Qed.

(** The paths of the run that end before the walk. *)
Lemma aggregator_seed R p p1 year queueId h id0 ids :
  ensurePuuidAndSummonerId R p = (Normal tt, p1) ->
  match_ids R (regionalForPlatform (platform p1)) (puuid p1)
            (listingQuery year queueId) = Normal (Some (id0 :: ids)) ->
  JsString.truthy (latestMatchId (statsOnEntry p1 year queueId)) = false ->
  updateChampionOverviewIncremental R p year queueId h =
  (Normal tt,
   storeStats year
     (set_computedAt (Some (dateNow R))
        (set_latestMatchId (Some id0) (statsOnEntry p1 year queueId))) p1,
   h, true).
Proof.
  intros He Hids Hm. unfold updateChampionOverviewIncremental.
  rewrite He, Hids. fold (freshStats year queueId).
  change (ensureCountsMap _) with (statsOnEntry p1 year queueId).
  now rewrite Hm.
Qed.

Lemma aggregator_no_delta R p p1 year queueId h id0 ids :
  ensurePuuidAndSummonerId R p = (Normal tt, p1) ->
  match_ids R (regionalForPlatform (platform p1)) (puuid p1)
            (listingQuery year queueId) = Normal (Some (id0 :: ids)) ->
  JsString.truthy (latestMatchId (statsOnEntry p1 year queueId)) = true ->
  idsUntil (latestMatchId (statsOnEntry p1 year queueId)) (id0 :: ids) = [] ->
  updateChampionOverviewIncremental R p year queueId h =
  (Normal tt,
   storeStats year
     (set_computedAt (Some (dateNow R))
        (set_latestMatchId (Some id0) (statsOnEntry p1 year queueId))) p1,
   h, true).
Proof.
  intros He Hids Hm Hnew. unfold updateChampionOverviewIncremental.
  rewrite He, Hids. fold (freshStats year queueId).
  change (ensureCountsMap _) with (statsOnEntry p1 year queueId).
  now rewrite Hm, Hnew.
Qed.

Lemma aggregator_walk R p p1 year queueId h id0 ids champions :
  ensurePuuidAndSummonerId R p = (Normal tt, p1) ->
  match_ids R (regionalForPlatform (platform p1)) (puuid p1)
            (listingQuery year queueId) = Normal (Some (id0 :: ids)) ->
  JsString.truthy (latestMatchId (statsOnEntry p1 year queueId)) = true ->
  idsUntil (latestMatchId (statsOnEntry p1 year queueId)) (id0 :: ids) <> [] ->
  ddragon_champions R = Normal champions ->
  let s0 := statsOnEntry p1 year queueId in
  let newIds := idsUntil (latestMatchId s0) (id0 :: ids) in
  let w := deltaWalk R (regionalForPlatform (platform p1)) (puuid p1) newIds
             (mkTally (countsOf s0) (totalGames s0) 0) h in
  updateChampionOverviewIncremental R p year queueId h =
  (w.1.1,
   storeStats year
     (statsAfterWalk R (championsByKey champions) newIds w.1.1 w.1.2
        (set_latestMatchId (Some id0) s0)) p1,
   w.2, is_normal w.1.1).
Proof.
  intros He Hids Hm Hnew Hdd s0 newIds w. subst w newIds s0.
  unfold updateChampionOverviewIncremental.
  rewrite He, Hids. fold (freshStats year queueId).
  change (ensureCountsMap _) with (statsOnEntry p1 year queueId).
  set (s0 := statsOnEntry p1 year queueId) in *.
  rewrite Hm. cbn [negb].
  destruct (idsUntil (latestMatchId s0) (id0 :: ids)) as [|n1 nrest] eqn:Hn;
    [contradiction|].
  rewrite Hdd. cbn [countsByChampionId set_latestMatchId totalGames].
  assert (Hc : default ∅ (countsByChampionId s0) = countsOf s0).
  { unfold countsOf, s0, statsOnEntry. now rewrite ensureCountsMap_idem. }
  rewrite Hc.
  destruct (deltaWalk _ _ _ _ _ _) as [[c t] h']. cbn.
  destruct c as [[]|e]; reflexivity.
Qed.

Lemma statsAfterWalk_fields R byKey newIds c t s :
  let s' := statsAfterWalk R byKey newIds c t s in
  totalGames s' = total t /\
  countsOf s' = counts t /\
  latestMatchId s' = latestMatchId s /\
  (is_normal c = true ->
   byChampion s' = rebuildByChampion byKey (counts t) /\
   computedAt s' = Some (dateNow R) /\
   lastIncrement s' = Some (Z.of_nat (length newIds), added t) /\
   matchCount s' = matchCount s + Z.of_nat (length newIds)) /\
  (is_normal c = false ->
   byChampion s' = byChampion s /\ computedAt s' = computedAt s).
Proof.
  destruct c as [[]|e]; cbn; repeat split; try discriminate; reflexivity.
Qed.

(** A run that reaches the walk, in terms of the records it obtains. *)
Lemma aggregator_walk_account R p p1 year queueId h id0 ids champions :
  ensurePuuidAndSummonerId R p = (Normal tt, p1) ->
  match_ids R (regionalForPlatform (platform p1)) (puuid p1)
            (listingQuery year queueId) = Normal (Some (id0 :: ids)) ->
  JsString.truthy (latestMatchId (statsOnEntry p1 year queueId)) = true ->
  idsUntil (latestMatchId (statsOnEntry p1 year queueId)) (id0 :: ids) <> [] ->
  ddragon_champions R = Normal champions ->
  let s0 := statsOnEntry p1 year queueId in
  let newIds := idsUntil (latestMatchId s0) (id0 :: ids) in
  let ms := fetched R (regionalForPlatform (platform p1)) newIds h in
  let n := Z.of_nat (length (List.filter (countable (puuid p1)) ms)) in
  let w := deltaWalk R (regionalForPlatform (platform p1)) (puuid p1) newIds
             (mkTally (countsOf s0) (totalGames s0) 0) h in
  exists c s' h',
    updateChampionOverviewIncremental R p year queueId h =
      (c, storeStats year s' p1, h', is_normal c) /\
    (c = w.1.1 /\ h' = w.2) /\
    totalGames s' = totalGames s0 + n /\
    sumCounts (countsOf s') = sumCounts (countsOf s0) + n /\
    latestMatchId s' = Some id0 /\
    (is_normal c = true ->
     byChampion s' = rebuildByChampion (championsByKey champions) (countsOf s') /\
     computedAt s' = Some (dateNow R) /\
     lastIncrement s' = Some (Z.of_nat (length newIds), n) /\
     matchCount s' = matchCount s0 + Z.of_nat (length newIds)) /\
    (is_normal c = false ->
     byChampion s' = byChampion s0 /\ computedAt s' = computedAt s0).
Proof.
  intros He Hids Hm Hnew Hdd s0 newIds ms n w.
  pose proof (aggregator_walk R p p1 year queueId h id0 ids champions
                He Hids Hm Hnew Hdd) as Hrun.
  cbv zeta in Hrun. fold s0 in Hrun. fold newIds in Hrun.
  set (t0 := mkTally (countsOf s0) (totalGames s0) 0) in *.
  fold w in Hrun.
  pose proof (deltaWalk_tally R (regionalForPlatform (platform p1)) (puuid p1)
                newIds t0 h) as Ht.
  fold w in Ht. fold ms in Ht.
  destruct (tallyOver_account (puuid p1) ms t0) as (Htot & Hadd & Hsum).
  fold n in Htot, Hadd, Hsum. rewrite <- Ht in Htot, Hadd, Hsum.
  eexists w.1.1, _, w.2. split; [exact Hrun|]. split; [now split|].
  destruct (statsAfterWalk_fields R (championsByKey champions) newIds w.1.1 w.1.2
              (set_latestMatchId (Some id0) s0)) as (F1 & F2 & F3 & F4 & F5).
  rewrite F1, F2, F3.
  change (total t0) with (totalGames s0) in Htot.
  change (added t0) with 0 in Hadd.
  change (counts t0) with (countsOf s0) in Hsum.
  split; [lia|]. split; [lia|]. split; [reflexivity|]. split; [|exact F5].
  intros Hn. destruct (F4 Hn) as (G1 & G2 & G3 & G4).
  rewrite G1, G2, G3, G4, Hadd. repeat split; reflexivity.
Qed.

(** A run cut off by the budget: it throws the budget error, the cursor is
    the head of the listing, total and counts have grown by the countable
    records among the first [b] of the delta, and the champion list is the
    one the run found. *)
Lemma aggregator_budget_cutoff R p p1 year queueId h id0 ids champions :
  ensurePuuidAndSummonerId R p = (Normal tt, p1) ->
  match_ids R (regionalForPlatform (platform p1)) (puuid p1)
            (listingQuery year queueId) = Normal (Some (id0 :: ids)) ->
  JsString.truthy (latestMatchId (statsOnEntry p1 year queueId)) = true ->
  ddragon_champions R = Normal champions ->
  let region := regionalForPlatform (platform p1) in
  let s0 := statsOnEntry p1 year queueId in
  let newIds := idsUntil (latestMatchId s0) (id0 :: ids) in
  NoDup newIds ->
  (forall x, x ∈ newIds -> matchDetailCache h !! cacheKey region x = None) ->
  (forall x, x ∈ newIds -> is_normal (match_detail R region x) = true) ->
  0 <= MATCH_DETAIL_BUDGET h < Z.of_nat (length newIds) ->
  let ms := fetched R region newIds h in
  let n := Z.of_nat (length (List.filter (countable (puuid p1)) ms)) in
  exists s' h',
    updateChampionOverviewIncremental R p year queueId h =
      (Throw (Error "MATCH_DETAIL_BUDGET_EXCEEDED"), storeStats year s' p1, h', false) /\
    MATCH_DETAIL_BUDGET h' = 0 /\
    List.map Normal ms =
      List.map (match_detail R region) (take (Z.to_nat (MATCH_DETAIL_BUDGET h)) newIds) /\
    latestMatchId s' = Some id0 /\
    totalGames s' = totalGames s0 + n /\
    sumCounts (countsOf s') = sumCounts (countsOf s0) + n /\
    byChampion s' = byChampion s0 /\
    computedAt s' = computedAt s0.
Proof.
  intros He Hids Hm Hdd region s0 newIds Hnd Hcache Hserved Hb ms n.
  assert (Hnew : newIds <> []).
  { intros E. rewrite E in Hb. cbn in Hb. lia. }
  destruct (aggregator_walk_account R p p1 year queueId h id0 ids champions
              He Hids Hm Hnew Hdd)
    as (c & s' & h' & Hrun & [Hc Hh] & Htot & Hsum & Hlatest & _ & Hcut).
  destruct (deltaWalk_budget R region (puuid p1) newIds
              (mkTally (countsOf s0) (totalGames s0) 0) h Hnd Hcache Hserved Hb)
    as (W1 & W2 & W3).
  fold region s0 newIds in Hc, Hh. rewrite W1 in Hc. subst c h'.
  eexists s', _. split; [exact Hrun|]. split; [exact W2|]. split; [exact W3|].
  split; [exact Hlatest|]. split; [exact Htot|]. split; [exact Hsum|].
  now apply Hcut.
Qed.

(** ** Count consistency *)

Lemma consistent_fresh year queueId : consistent (freshStats year queueId).
Proof. split; reflexivity. Qed.

Lemma consistent_statsOnEntry p year queueId :
  (forall s, champGamesByYear p !! year = Some s -> consistent s) ->
  consistent (statsOnEntry p year queueId).
Proof.
  intros H. unfold statsOnEntry.
  destruct (champGamesByYear p !! year) as [s|]; cbn [default].
  - specialize (H s eq_refl). revert H. unfold consistent.
    now destruct s as [? ? ? ? [m|] ? ? ? ?].
  - split; reflexivity.
Qed.

Lemma consistent_stamp s latest stamp :
  consistent s ->
  consistent (set_computedAt stamp (set_latestMatchId latest s)) /\
  consistent (set_latestMatchId latest s).
Proof. unfold consistent. now destruct s as [? ? ? ? [m|] ? ? ? ?]. Qed.

(** After a run, whatever its outcome, the total is the sum of the
    per-champion counts; after a run that completes, the champion list sums
    to it as well. *)
Lemma aggregator_consistency R p year queueId h c p' h' saved :
  updateChampionOverviewIncremental R p year queueId h = (c, p', h', saved) ->
  (forall s, champGamesByYear p !! year = Some s -> consistent s) ->
  forall s', champGamesByYear p' !! year = Some s' ->
    totalGames s' = sumCounts (countsOf s') /\
    (is_normal c = true -> consistent s').
Proof.
  unfold updateChampionOverviewIncremental. intros Hrun Hcons s' Hs'.
  destruct (ensurePuuidAndSummonerId R p) as [c1 p1] eqn:He.
  pose proof (ensurePuuid_stats _ _ _ _ He) as Hmap.
  destruct c1 as [[]|e].
  2:{ injection Hrun as <- <- <- <-. rewrite Hmap in Hs'.
      split; [apply (Hcons s' Hs') | discriminate]. }
  fold (freshStats year queueId) in Hrun.
  change (ensureCountsMap _) with (statsOnEntry p1 year queueId) in Hrun.
  assert (H0 : consistent (statsOnEntry p1 year queueId)).
  { apply consistent_statsOnEntry. now rewrite Hmap. }
  pose proof (statsOnEntry_counts p1 year queueId) as Hc0.
  set (s0 := statsOnEntry p1 year queueId) in *. clearbody s0.
  assert (Hleaf : forall x, consistent x ->
            <[year := x]> (champGamesByYear p1) !! year = Some s' ->
            totalGames s' = sumCounts (countsOf s') /\ (is_normal c = true -> consistent s')).
  { intros x Hx Hl. rewrite lookup_insert_eq in Hl. injection Hl as <-.
    split; [apply Hx | intros _; exact Hx]. }
  destruct (match_ids R _ _ _) as [[[|id0 ids]|]|e];
    try (injection Hrun as <- <- <- <-; now apply (Hleaf s0)).
  destruct (negb _).
  { injection Hrun as <- <- <- <-.
    apply (Hleaf _ (proj1 (consistent_stamp s0 _ _ H0)) Hs'). }
  destruct (idsUntil _ _) as [|n1 nrest] eqn:Hnew.
  { injection Hrun as <- <- <- <-.
    apply (Hleaf _ (proj1 (consistent_stamp s0 _ _ H0)) Hs'). }
  destruct (ddragon_champions R) as [champions|e].
  2:{ injection Hrun as <- <- <- <-.
      apply (Hleaf _ (proj2 (consistent_stamp s0 (Some id0) None H0)) Hs'). }
  cbn [countsByChampionId totalGames set_latestMatchId] in Hrun.
  rewrite Hc0 in Hrun. cbn [default from_option id] in Hrun.
  match type of Hrun with
  | context [deltaWalk ?R ?r ?pu ?ids ?t ?h] =>
      pose proof (deltaWalk_tally R r pu ids t h) as Ht;
      destruct (tallyOver_account pu (fetched R r ids h) t) as (Htot & _ & Hsum);
      destruct (deltaWalk R r pu ids t h) as [[c2 t2] h2]
  end.
  cbn [fst snd] in Ht. rewrite <- Ht in Htot, Hsum. cbn [total counts] in Htot, Hsum.
  destruct H0 as [H01 H02].
  destruct c2 as [[]|e]; injection Hrun as <- <- <- <-;
    cbn [champGamesByYear set_champGamesByYear] in Hs';
    rewrite lookup_insert_eq in Hs'; injection Hs' as <-.
  - split; [|intros _; split]; cbn -[countsOf rebuildByChampion sumCounts];
      rewrite ?countsOf_mk, ?sumRows_rebuild; lia.
  - split; [|discriminate]. cbn. lia.
Qed.

(** C2.  Alice's aggregate is consistent, five new matches are listed and
    two fetches are left: the run stops on the budget error with a total of
    2 and counts that sum to 2, while the champion list, which is rebuilt
    only after the walk, still sums to 0. *)
Theorem budget_cutoff_leaves_champion_list_stale :
  let run := updateChampionOverviewIncremental (Sample.provider 6) Sample.alice
               2026 (Some 420) (mkHeap 2 ∅) in
  consistent Sample.stats0 /\
  run.1.1.1 = Throw (Error "MATCH_DETAIL_BUDGET_EXCEEDED") /\
  exists s',
    champGamesByYear run.1.1.2 !! 2026 = Some s' /\
    totalGames s' = 2 /\
    sumCounts (countsOf s') = 2 /\
    sumRows (byChampion s') = 0 /\
    ~ consistent s'.
Proof.
  split; [split; reflexivity|]. split; [vm_compute; reflexivity|].
  eexists. split; [vm_compute; reflexivity|].
  split; [reflexivity|]. split; [reflexivity|]. split; [reflexivity|].
  intros [_ H]. vm_compute in H. discriminate.
Qed.

(** ** Replay *)

Lemma truthy_cases (s : string) :
  JsString.truthy (Some s) = false /\ s = "" \/
  JsString.truthy (Some s) = true /\ s <> "".
Proof. destruct s; [left | right]; split; try reflexivity; discriminate. Qed.

Lemma idsUntil_head marker rest : idsUntil (Some marker) (marker :: rest) = [].
Proof. cbn. now rewrite bool_decide_eq_true_2. Qed.

(** A run whose listing starts at the cursor. *)
Lemma aggregator_replay R p p1 year queueId h s hd rest :
  ensurePuuidAndSummonerId R p = (Normal tt, p1) ->
  champGamesByYear p !! year = Some s ->
  latestMatchId s = Some hd ->
  match_ids R (regionalForPlatform (platform p1)) (puuid p1)
            (listingQuery year queueId) = Normal (Some (hd :: rest)) ->
  updateChampionOverviewIncremental R p year queueId h =
  (Normal tt,
   storeStats year
     (set_computedAt (Some (dateNow R))
        (set_latestMatchId (Some hd) (ensureCountsMap (set_queueId queueId s)))) p1,
   h, true).
Proof.
  intros He Hs Hm Hids.
  assert (Hs1 : statsOnEntry p1 year queueId = ensureCountsMap (set_queueId queueId s)).
  { apply statsOnEntry_lookup. now rewrite (ensurePuuid_stats _ _ _ _ He). }
  assert (Hm1 : latestMatchId (statsOnEntry p1 year queueId) = Some hd).
  { rewrite Hs1. now destruct s as [? ? ? ? [m|] ? ? ? ?]. }
  rewrite <- Hs1.
  destruct (truthy_cases hd) as [[Ht _]|[Ht _]].
  - apply aggregator_seed with (ids := rest); [assumption | assumption | now rewrite Hm1].
  - apply aggregator_no_delta with (ids := rest); [assumption | assumption | now rewrite Hm1 |].
    rewrite Hm1. apply idsUntil_head.
Qed.

(** C7.  Two runs of the aggregator in succession on the same year
    aggregate, the second seeing a listing whose head is the cursor the
    first one left: the second run completes, total and per-champion counts
    and the champion list are those the first run left, the cursor stays,
    and [computedAt] is the time of the second run. *)
Theorem no_double_count_on_replay
    (R1 R2 : Remote) (p : Player) (year : Z) (queueId : option Z) (h : Heap)
    (c1 : Completion unit) (p1 : Player) (h1 : Heap) (saved1 : bool)
    (p1' : Player) (s1 : YearStats) (hd : string) (rest : list string) :
  updateChampionOverviewIncremental R1 p year queueId h = (c1, p1, h1, saved1) ->
  champGamesByYear p1 !! year = Some s1 ->
  latestMatchId s1 = Some hd ->
  ensurePuuidAndSummonerId R2 p1 = (Normal tt, p1') ->
  match_ids R2 (regionalForPlatform (platform p1')) (puuid p1')
            (listingQuery year queueId) = Normal (Some (hd :: rest)) ->
  exists p2 s2,
    updateChampionOverviewIncremental R2 p1 year queueId h1 = (Normal tt, p2, h1, true) /\
    champGamesByYear p2 !! year = Some s2 /\
    totalGames s2 = totalGames s1 /\
    countsOf s2 = countsOf s1 /\
    byChampion s2 = byChampion s1 /\
    latestMatchId s2 = Some hd /\
    computedAt s2 = Some (dateNow R2).
Proof.
  intros _ Hs Hm He Hids.
  eexists _, _. split; [now apply (aggregator_replay R2 p1 p1' year queueId h1 s1 hd rest)|].
  split; [apply lookup_insert_eq|].
  now destruct s1 as [? ? ? ? [m|] ? ? ? ?].
Qed.

Lemma no_double_count_on_replay_witness :
  let run1 := updateChampionOverviewIncremental (Sample.provider 3) Sample.alice
                2026 (Some 420) (mkHeap 20 ∅) in
  exists s1,
    champGamesByYear run1.1.1.2 !! 2026 = Some s1 /\
    totalGames s1 = 2 /\
    exists p2 s2,
      updateChampionOverviewIncremental (Sample.provider 3) run1.1.1.2 2026 (Some 420)
        run1.1.2 = (Normal tt, p2, run1.1.2, true) /\
      champGamesByYear p2 !! 2026 = Some s2 /\
      totalGames s2 = totalGames s1 /\
      countsOf s2 = countsOf s1 /\
      byChampion s2 = byChampion s1 /\
      latestMatchId s2 = Some "M2" /\
      computedAt s2 = Some (dateNow (Sample.provider 3)).
Proof.
  intros run1.
  assert (Hs : exists s1, champGamesByYear run1.1.1.2 !! 2026 = Some s1 /\
                          latestMatchId s1 = Some "M2" /\ totalGames s1 = 2).
  { vm_compute. eexists. split; [reflexivity|]. split; reflexivity. }
  destruct Hs as (s1 & Hs1 & Hm & Ht).
  exists s1. split; [exact Hs1|]. split; [exact Ht|].
  apply (no_double_count_on_replay (Sample.provider 3) (Sample.provider 3)
           Sample.alice 2026 (Some 420) (mkHeap 20 ∅)
           run1.1.1.1 run1.1.1.2 run1.1.2 run1.2 run1.1.1.2 s1 "M2" ["M1"; "M0"]).
  - vm_compute. reflexivity.
  - exact Hs1.
  - exact Hm.
  - vm_compute. reflexivity.
  - vm_compute. reflexivity.
Defined.

(** ** The listing is one page *)

Lemma riotListing_page timeline year queueId :
  riotListing timeline (listingQuery year queueId) = take 100 timeline.
Proof. reflexivity. Qed.

Lemma idsUntil_absent marker ids :
  marker ∉ ids -> idsUntil (Some marker) ids = ids.
Proof.
  induction ids as [|x ids IH]; cbn; [reflexivity|]. intros Hn.
  rewrite bool_decide_eq_false_2.
  - f_equal. apply IH. intros Hin. apply Hn. now right.
  - intros [= ->]. apply Hn. now left.
Qed.

Lemma fetchMatchDetail_servedFrom R timeline region matchId h :
  fetchMatchDetail (servedFrom R timeline) region matchId h =
  fetchMatchDetail R region matchId h.
Proof. reflexivity. Qed.

Lemma deltaWalk_servedFrom R timeline region pu ids t h :
  deltaWalk (servedFrom R timeline) region pu ids t h = deltaWalk R region pu ids t h.
Proof.
  revert t h. induction ids as [|x ids IH]; intros t h; cbn [deltaWalk]; [reflexivity|].
  rewrite fetchMatchDetail_servedFrom.
  destruct (fetchMatchDetail R region x h) as [[m|e] h']; [apply IH | reflexivity].
Qed.

Lemma fetched_servedFrom R timeline region ids h :
  fetched (servedFrom R timeline) region ids h = fetched R region ids h.
Proof.
  revert h. induction ids as [|x ids IH]; intros h; cbn [fetched]; [reflexivity|].
  rewrite fetchMatchDetail_servedFrom.
  destruct (fetchMatchDetail R region x h) as [[m|e] h']; [now rewrite IH | reflexivity].
Qed.

(** The run reads the timeline through its first hundred ids only. *)
Lemma aggregator_reads_page R timeline p year queueId h :
  updateChampionOverviewIncremental (servedFrom R timeline) p year queueId h =
  updateChampionOverviewIncremental (servedFrom R (take 100 timeline)) p year queueId h.
Proof.
  unfold updateChampionOverviewIncremental.
  change (ensurePuuidAndSummonerId (servedFrom R (take 100 timeline)) p)
    with (ensurePuuidAndSummonerId (servedFrom R timeline) p).
  destruct (ensurePuuidAndSummonerId (servedFrom R timeline) p) as [[[]|e] p1];
    [|reflexivity].
  cbn [match_ids servedFrom]. rewrite !riotListing_page.
  rewrite take_take, Nat.min_id.
  destruct (take 100 timeline) as [|id0 ids]; [reflexivity|].
  destruct (negb _); [reflexivity|].
  destruct (idsUntil _ _) as [|n1 nrest]; [reflexivity|].
  cbn [ddragon_champions servedFrom].
  destruct (ddragon_champions R) as [champions|e]; [|reflexivity].
  rewrite !deltaWalk_servedFrom. reflexivity.
Qed.

(** C9.  The aggregator asks the listing endpoint for one page, offset 0
    and 100 ids; over a provider that serves a player's matches newest
    first it therefore sees the newest hundred at most.  When the cursor is
    not on that page, the whole page is the delta: the records fetched are
    records of the page, the run counts those that are countable, and what
    lies beyond the hundredth id does not reach the run at all. *)
Theorem listing_is_a_single_page
    (R : Remote) (timeline : list string) (p : Player) (year : Z)
    (queueId : option Z) (h : Heap) :
  let q := listingQuery year queueId in
  let page := take 100 timeline in
  let R' := servedFrom R timeline in
  (q_start q = 0 /\ q_count q = 100) /\
  match_ids R' (regionalForPlatform (platform p)) (puuid p) q = Normal (Some page) /\
  (length page <= 100)%nat /\
  (forall marker, marker ∉ page -> idsUntil (Some marker) page = page) /\
  (forall timeline',
      take 100 timeline' = page ->
      updateChampionOverviewIncremental (servedFrom R timeline') p year queueId h =
      updateChampionOverviewIncremental R' p year queueId h) /\
  (forall p1 marker champions,
      ensurePuuidAndSummonerId R' p = (Normal tt, p1) ->
      latestMatchId (statsOnEntry p1 year queueId) = Some marker ->
      marker <> "" ->
      marker ∉ page ->
      page <> [] ->
      ddragon_champions R = Normal champions ->
      let s0 := statsOnEntry p1 year queueId in
      let ms := fetched R (regionalForPlatform (platform p1)) page h in
      let n := Z.of_nat (length (List.filter (countable (puuid p1)) ms)) in
      exists c s' h',
        updateChampionOverviewIncremental R' p year queueId h =
          (c, storeStats year s' p1, h', is_normal c) /\
        totalGames s' = totalGames s0 + n /\
        sumCounts (countsOf s') = sumCounts (countsOf s0) + n /\
        latestMatchId s' = head page /\
        0 <= n <= Z.of_nat (length page) /\
        (is_normal c = true ->
         lastIncrement s' = Some (Z.of_nat (length page), n) /\
         matchCount s' = matchCount s0 + Z.of_nat (length page))).
Proof.
  intros q page R'.
  split; [split; reflexivity|]. split; [reflexivity|].
  split; [unfold page; rewrite length_take; lia|].
  split; [intros marker; apply idsUntil_absent|].
  split.
  { intros timeline' Hsame. unfold R'.
    rewrite (aggregator_reads_page R timeline'), (aggregator_reads_page R timeline).
    fold page. now rewrite Hsame. }
  intros p1 marker champions He Hm Hne Hout Hpage Hdd s0 ms n.
  destruct page as [|id0 ids] eqn:Hp; [contradiction|].
  assert (Hids : match_ids R' (regionalForPlatform (platform p1)) (puuid p1)
                   (listingQuery year queueId) = Normal (Some (id0 :: ids))).
  { cbn [match_ids servedFrom R']. rewrite riotListing_page. fold page. now rewrite Hp. }
  assert (Hnew : idsUntil (latestMatchId (statsOnEntry p1 year queueId)) (id0 :: ids)
                 = id0 :: ids).
  { rewrite Hm. now apply idsUntil_absent. }
  destruct (aggregator_walk_account R' p p1 year queueId h id0 ids champions)
    as (c & s' & h' & Hrun & _ & Htot & Hsum & Hlatest & Hdone & _).
  - exact He.
  - exact Hids.
  - rewrite Hm. destruct marker; [contradiction | reflexivity].
  - rewrite Hnew. discriminate.
  - exact Hdd.
  - rewrite Hnew in *. unfold R' in Htot, Hsum, Hdone.
    rewrite fetched_servedFrom in Htot, Hsum, Hdone.
    fold ms in Htot, Hsum, Hdone. fold n in Htot, Hsum, Hdone. fold s0 in Htot, Hsum, Hdone.
    exists c, s', h'. split; [exact Hrun|]. split; [exact Htot|].
    split; [exact Hsum|]. split; [exact Hlatest|]. split.
    + split; [lia|]. unfold n.
      pose proof (filter_length (countable (puuid p1)) ms).
      pose proof (fetched_length R (regionalForPlatform (platform p1)) (id0 :: ids) h).
      fold ms in H0. lia.
    + intros Hn. destruct (Hdone Hn) as (_ & _ & G3 & G4). now split.
Qed.

Lemma listing_is_a_single_page_witness :
  updateChampionOverviewIncremental (servedFrom (Sample.provider 0) (Sample.timeline 130))
    Sample.alice 2026 (Some 420) (mkHeap 20 ∅) =
  updateChampionOverviewIncremental
    (servedFrom (Sample.provider 0) (take 100 (Sample.timeline 130)
                                     ++ ["older"; "oldest"]))
    Sample.alice 2026 (Some 420) (mkHeap 20 ∅).
Proof.
  symmetry.
  apply (listing_is_a_single_page (Sample.provider 0) (Sample.timeline 130)
           Sample.alice 2026 (Some 420) (mkHeap 20 ∅)).
  vm_compute. reflexivity.
Defined.

(** ** The roster loop *)

Lemma pendingStep_refl p : pendingStep p p.
Proof. now left. Qed.

(** The last statement of the [try] block. *)
Lemma pendingStep_decision nowIso prevRank newRank p q :
  pendingBan q = pendingBan p ->
  currentRank q = Some newRank ->
  prevRank = default Unranked (orElse (currentRank p) (lastRank p)) ->
  pendingStep p
    (if isPromotion (Some prevRank) (Some newRank)
     then match pendingBan q with
          | None => set_pendingBan (Some (mkPendingBan nowIso (Some prevRank) newRank)) q
          | Some _ => q
          end
     else q).
Proof.
  intros Hq Hcur Hprev.
  destruct (isPromotion (Some prevRank) (Some newRank)) eqn:Hpromo; [|now left].
  destruct (pendingBan q) as [pb|] eqn:Hpb; [left; congruence|].
  right. split; [congruence|].
  destruct (isPromotion_ranked _ _ Hpromo) as (o & n & Ho & Hn).
  injection Ho as Ho. injection Hn as ->.
  exists o, n, nowIso. rewrite <- Ho.
  split; [reflexivity|]. split; [|split; [exact Hcur | exact Hpromo]].
  rewrite Ho. rewrite Hprev in Ho.
  destruct (orElse (currentRank p) (lastRank p)) as [r|]; cbn in Ho;
    [congruence | discriminate].
Qed.

Ltac decide_pending :=
  match goal with
  | |- pendingStep ?p (if _ then _ else ?q) =>
      exact (pendingStep_decision _
               (default Unranked (orElse (currentRank p) (lastRank p)))
               _ p q eq_refl eq_refl eq_refl)
  end.

Lemma refreshPlayer_pending R nowIso p h c p' h' written :
  refreshPlayer R nowIso p h = (c, p', h', written) ->
  pendingStep p p' /\
  (forall pw, written = Some pw -> pendingBan pw = pendingBan p).
Proof.
  unfold refreshPlayer. intros H.
  destruct (ensurePuuidAndSummonerId R p) as [c1 p1] eqn:He.
  apply ensurePuuid_frame in He as [pu ->].
  destruct c1 as [[]|e]; [|simplify_eq; split; [now left | discriminate]].
  destruct (fetchSoloQRank R _) as [newRank|e];
    [|simplify_eq; split; [now left | discriminate]].
  cbv zeta in H.
  destruct (negb _) eqn:Hchanged.
  - destruct (updateChampionOverviewIncremental _ _ _ _ _) as [[[c2 p2] h2] saved] eqn:Hagg.
    apply aggregator_frame in Hagg as (pu2 & m2 & ->).
    assert (Hw : forall q pw, pendingBan q = pendingBan p ->
                   (if saved then Some q else None) = Some pw ->
                   pendingBan pw = pendingBan p).
    { intros q pw Hq. destruct saved; intros; simplify_eq. assumption. }
    destruct c2 as [[]|e].
    + destruct (fetchLastNGamesSummary _ _ _ _ _) as [[games|e] h3].
      * injection H as <- <- <- <-. split.
        -- decide_pending.
        -- intros pw. now apply Hw.
      * injection H as <- <- <- <-. split; [now left|]. intros pw. now apply Hw.
    + injection H as <- <- <- <-. split; [now left|]. intros pw. now apply Hw.
  - injection H as <- <- <- <-. split; [|discriminate].
    decide_pending.
Qed.

(** No refresh ever records an error or a catch-up flag on a player. *)
Lemma refreshPlayer_records_nothing R nowIso p h c p' h' written :
  refreshPlayer R nowIso p h = (c, p', h', written) ->
  (lastError p' = lastError p /\ needsCatchup p' = needsCatchup p) /\
  (forall pw, written = Some pw ->
     lastError pw = lastError p /\ needsCatchup pw = needsCatchup p).
Proof.
  unfold refreshPlayer. intros H.
  destruct (ensurePuuidAndSummonerId R p) as [c1 p1] eqn:He.
  apply ensurePuuid_frame in He as [pu ->].
  destruct c1 as [[]|e]; [|simplify_eq; split; [now split | discriminate]].
  destruct (fetchSoloQRank R _) as [newRank|e];
    [|simplify_eq; split; [now split | discriminate]].
  cbv zeta in H.
  destruct (negb _).
  - destruct (updateChampionOverviewIncremental _ _ _ _ _) as [[[c2 p2] h2] saved] eqn:Hagg.
    apply aggregator_frame in Hagg as (pu2 & m2 & ->).
    destruct c2 as [[]|e].
    + destruct (fetchLastNGamesSummary _ _ _ _ _) as [[games|e] h3];
        injection H as <- <- <- <-.
      * split; [repeat case_match; now split|].
        intros pw. destruct saved; intros; simplify_eq. now split.
      * split; [now split|]. intros pw. destruct saved; intros; simplify_eq. now split.
    + injection H as <- <- <- <-.
      split; [now split|]. intros pw. destruct saved; intros; simplify_eq. now split.
  - injection H as <- <- <- <-. split; [repeat case_match; now split | discriminate].
Qed.

Lemma refreshCatch_throws err p :
  refreshCatch err p = Throw (ReferenceError "e is not defined").
Proof. reflexivity. Qed.

Lemma legacy_catch_records nowIso err p :
  lastError (Legacy.refreshCatch nowIso err p) = Some (errorString err).
Proof. reflexivity. Qed.

(** A relation between a player before and after the refresh that holds
    across the [try] block holds, player by player, across the loop, for
    the array in memory and for the document on disk. *)
Section loop_relation.
Variable Rel : Player -> Player -> Prop.
Hypothesis Rel_refl : forall p, Rel p p.
Hypothesis Rel_step :
  forall R nowIso p h c p' h' written,
    refreshPlayer R nowIso p h = (c, p', h', written) ->
    Rel p p' /\ (forall pw, written = Some pw -> Rel p pw).

Lemma Forall2_Rel_refl ps : Forall2 Rel ps ps.
Proof. induction ps; constructor; [apply Rel_refl | assumption]. Qed.

Lemma refreshLoop_related R nowIso hist todo :
  forall orig done onDisk h c ps onDisk' h',
    Forall2 Rel orig done ->
    Forall2 Rel (orig ++ todo) (players onDisk) ->
    refreshLoop R nowIso hist done todo onDisk h = (c, ps, onDisk', h') ->
    Forall2 Rel (orig ++ todo) ps /\
    Forall2 Rel (orig ++ todo) (players onDisk').
Proof.
  induction todo as [|p rest IH]; intros orig done onDisk h c ps onDisk' h' Hd Hk H.
  - cbn in H. injection H as <- <- <- <-. rewrite app_nil_r in *. now split.
  - cbn [refreshLoop] in H.
    destruct (refreshPlayer R nowIso p h) as [[[c1 p1] h1] written] eqn:Hp.
    apply Rel_step in Hp as [Hstep Hw].
    assert (Hk' : Forall2 Rel (orig ++ p :: rest)
                    (players match written with
                             | Some pw => mkState (done ++ pw :: rest) hist (Some nowIso)
                             | None => onDisk
                             end)).
    { destruct written as [pw|]; [|assumption]. cbn.
      apply Forall2_app; [assumption|].
      constructor; [now apply Hw | apply Forall2_Rel_refl]. }
    destruct c1 as [[]|err].
    + replace (orig ++ p :: rest) with ((orig ++ [p]) ++ rest) in *
        by now rewrite <- app_assoc.
      eapply IH; [| exact Hk' | exact H].
      apply Forall2_app; [assumption | now constructor].
    + rewrite refreshCatch_throws in H. injection H as <- <- <- <-.
      split; [|assumption].
      apply Forall2_app; [assumption|].
      constructor; [assumption | apply Forall2_Rel_refl].
Qed.

Lemma refreshAll_related R srv c mem srv' :
  refreshAll R srv = (c, mem, srv') ->
  Forall2 Rel (players (disk srv)) (players mem) /\
  Forall2 Rel (players (disk srv)) (players (disk srv')).
Proof.
  unfold refreshAll. intros H.
  destruct (refreshLoop _ _ _ _ _ _ _) as [[[c1 ps] onDisk] h'] eqn:Hl.
  apply (refreshLoop_related R _ _ _ []) in Hl as [Hmem Hdisk].
  - cbn in Hmem, Hdisk.
    destruct c1 as [[]|e]; injection H as <- <- <-; cbn; split; assumption.
  - constructor.
  - cbn. apply Forall2_Rel_refl.
Qed.
End loop_relation.

Lemma refreshAll_pending R srv c mem srv' :
  refreshAll R srv = (c, mem, srv') ->
  Forall2 pendingStep (players (disk srv)) (players mem) /\
  Forall2 pendingStep (players (disk srv)) (players (disk srv')).
Proof.
  apply refreshAll_related; [apply pendingStep_refl|].
  intros. eapply refreshPlayer_pending in H as [H1 H2]. split; [exact H1|].
  intros pw Hpw. left. now apply H2.
Qed.

Lemma refreshAll_records_nothing R srv c mem srv' :
  refreshAll R srv = (c, mem, srv') ->
  Forall2 (fun p p' => lastError p' = lastError p /\ needsCatchup p' = needsCatchup p)
          (players (disk srv)) (players mem).
Proof.
  intros H.
  apply (refreshAll_related
           (fun p p' => lastError p' = lastError p /\ needsCatchup p' = needsCatchup p))
    in H as [Hmem _]; [exact Hmem | now split |].
  intros R0 nowIso p h c0 p' h' written Hp.
  now apply refreshPlayer_records_nothing in Hp.
Qed.

(** Whatever goes wrong for a player, the error that leaves [refreshAll] is
    the one thrown by the handler. *)
Lemma refreshLoop_throw R nowIso hist todo :
  forall done onDisk h e ps onDisk' h',
    refreshLoop R nowIso hist done todo onDisk h = (Throw e, ps, onDisk', h') ->
    e = ReferenceError "e is not defined".
Proof.
  induction todo as [|p rest IH]; intros done onDisk h e ps onDisk' h' H;
    cbn [refreshLoop] in H; [discriminate|].
  destruct (refreshPlayer R nowIso p h) as [[[c1 p1] h1] written].
  destruct c1 as [[]|err]; [now apply IH in H|].
  rewrite refreshCatch_throws in H. now injection H as <- _ _ _.
Qed.

(** The first player whose [try] block throws ends the loop: the players
    after it are left as they were. *)
Lemma refreshLoop_first_error R nowIso hist done p rest onDisk h err p' h' written :
  refreshPlayer R nowIso p h = (Throw err, p', h', written) ->
  exists onDisk',
    refreshLoop R nowIso hist done (p :: rest) onDisk h =
    (Throw (ReferenceError "e is not defined"), done ++ p' :: rest, onDisk', h').
Proof. intros H. cbn [refreshLoop]. rewrite H, refreshCatch_throws. eauto. Qed.

(** ** Pending promotions across a refresh *)

(** C5.  A pending promotion that exists before a refresh cycle is the
    pending promotion after it, field for field, in memory and on disk,
    whatever the provider answers and whether or not the cycle completes: a
    detection made while one is pending is dropped, and no refresh clears
    one. *)
Theorem pending_promotion_survives_refresh
    (R : Remote) (srv : Server) (c : Completion State) (mem : State) (srv' : Server)
    (i : nat) (p : Player) (pb : PendingBan) :
  refreshAll R srv = (c, mem, srv') ->
  players (disk srv) !! i = Some p ->
  pendingBan p = Some pb ->
  (exists p', players mem !! i = Some p' /\ pendingBan p' = Some pb) /\
  (exists p', players (disk srv') !! i = Some p' /\ pendingBan p' = Some pb).
Proof.
  intros H Hi Hpb. apply refreshAll_pending in H as [Hmem Hdisk].
  split.
  - destruct (Forall2_lookup_l _ _ _ _ _ Hmem Hi) as (p' & Hp' & [Hsame|[Hnone _]]).
    + exists p'. split; [assumption | congruence].
    + congruence.
  - destruct (Forall2_lookup_l _ _ _ _ _ Hdisk Hi) as (p' & Hp' & [Hsame|[Hnone _]]).
    + exists p'. split; [assumption | congruence].
    + congruence.
Qed.

Lemma pending_promotion_survives_refresh_witness :
  let r := refreshAll (Sample.provider 4) (mkServer (mkState [Sample.promoted] [] None) (mkHeap 0 ∅)) in
  is_normal r.1.1 = true /\
  (exists p', players r.1.2 !! 0%nat = Some p' /\ pendingBan p' = pendingBan Sample.promoted) /\
  (exists p', players (disk r.2) !! 0%nat = Some p' /\ pendingBan p' = pendingBan Sample.promoted).
Proof.
  intros r. split; [vm_compute; reflexivity|].
  apply (pending_promotion_survives_refresh (Sample.provider 4)
           (mkServer (mkState [Sample.promoted] [] None) (mkHeap 0 ∅))
           r.1.1 r.1.2 r.2 0%nat Sample.promoted).
  - vm_compute. reflexivity.
  - reflexivity.
  - reflexivity.
Defined.

(** C10.  No promotion is reported when either snapshot is unranked or
    missing, and a refresh cycle changes the pending promotion of a player
    only by creating one between two ranked snapshots: the snapshot the
    player held before the cycle and the one just fetched. *)
Theorem unranked_is_never_promoted
    (R : Remote) (srv : Server) (c : Completion State) (mem : State) (srv' : Server)
    (i : nat) (p p' : Player) :
  (forall prev new,
      prev = None \/ prev = Some Unranked \/ new = None \/ new = Some Unranked ->
      isPromotion prev new = false) /\
  (refreshAll R srv = (c, mem, srv') ->
   players (disk srv) !! i = Some p ->
   players mem !! i = Some p' ->
   pendingBan p' <> pendingBan p ->
   exists o n t,
     pendingBan p = None /\
     pendingBan p' = Some (mkPendingBan t (Some (Ranked o)) (Ranked n)) /\
     orElse (currentRank p) (lastRank p) = Some (Ranked o) /\
     currentRank p' = Some (Ranked n) /\
     isPromotion (Some (Ranked o)) (Some (Ranked n)) = true).
Proof.
  split.
  - intros prev new H. destruct (isPromotion prev new) eqn:E; [|reflexivity].
    apply isPromotion_ranked in E as (o & n & -> & ->).
    destruct H as [H|[H|[H|H]]]; discriminate.
  - intros H Hi Hi' Hne. apply refreshAll_pending in H as [Hmem _].
    destruct (Forall2_lookup_l _ _ _ _ _ Hmem Hi) as (q & Hq & Hstep).
    rewrite Hi' in Hq. injection Hq as <-.
    destruct Hstep as [Hsame | (Hnone & o & n & t & H1 & H2 & H3 & H4)];
      [contradiction|].
    exists o, n, t. repeat split; assumption.
Qed.

Lemma unranked_is_never_promoted_witness :
  let r := refreshAll (Sample.provider 4) (Sample.server 0) in
  exists p' o n t,
    players r.1.2 !! 0%nat = Some p' /\
    pendingBan Sample.alice = None /\
    pendingBan p' = Some (mkPendingBan t (Some (Ranked o)) (Ranked n)) /\
    orElse (currentRank Sample.alice) (lastRank Sample.alice) = Some (Ranked o) /\
    currentRank p' = Some (Ranked n) /\
    isPromotion (Some (Ranked o)) (Some (Ranked n)) = true.
Proof.
  intros r.
  assert (Hp : exists p', players r.1.2 !! 0%nat = Some p' /\
                          pendingBan p' <> pendingBan Sample.alice).
  { vm_compute. eexists. split; [reflexivity | discriminate]. }
  destruct Hp as (p' & Hp' & Hne). exists p'.
  destruct (proj2 (unranked_is_never_promoted (Sample.provider 4) (Sample.server 0)
                     r.1.1 r.1.2 r.2 0%nat Sample.alice p'))
    as (o & n & t & H); [vm_compute; reflexivity | reflexivity | exact Hp' | exact Hne |].
  exists o, n, t. split; [exact Hp' | exact H].
Defined.

(** ** Errors of one player in the loop *)

(** C1.  The league endpoint fails for the first player of a roster of two:
    the error is caught, the handler itself throws a [ReferenceError], and
    that error leaves the loop and [refreshAll]; nothing is recorded on the
    first player, the second player is never visited, and nothing is saved. *)
Theorem refresh_error_leaves_the_loop :
  let r := refreshAll Sample.leagueDown (Sample.server 0) in
  (refreshPlayer Sample.leagueDown 2000 Sample.alice (mkHeap 20 ∅)).1.1.1
    = Throw (Error "Riot API 500 Internal Server Error: ") /\
  r.1.1 = Throw (ReferenceError "e is not defined") /\
  List.map lastError (players r.1.2) = [None; None] /\
  List.map needsCatchup (players r.1.2) = [false; false] /\
  List.map lastUpdatedAt (players r.1.2) = [None; None] /\
  disk r.2 = Sample.roster.
Proof. vm_compute. repeat split; reflexivity. Qed.

(** C3.  With two fetches left and a delta of five uncached ids the
    aggregator counts exactly two matches, leaves the cursor at the head of
    the listing and throws the budget error.  In a refresh cycle, where the
    budget is 20, a delta of 21 ids ends the same way, and the handler that
    would set [needsCatchup] throws instead: the player is not flagged, and
    [refreshAll] fails with a [ReferenceError]. *)
Theorem budget_cutoff_is_not_flagged :
  let run := updateChampionOverviewIncremental (Sample.provider 6) Sample.alice
               2026 (Some 420) (mkHeap 2 ∅) in
  let cycle := refreshAll (Sample.provider 22) (Sample.server 0) in
  (idsUntil (Some "M0") (take 100 (Sample.timeline 6)) = ["M5"; "M4"; "M3"; "M2"; "M1"] /\
   run.1.1.1 = Throw (Error "MATCH_DETAIL_BUDGET_EXCEEDED") /\
   exists s',
     champGamesByYear run.1.1.2 !! 2026 = Some s' /\
     totalGames s' = totalGames Sample.stats0 + 2 /\
     map_to_list (countsOf s') = [(266, 2)] /\
     latestMatchId s' = head (Sample.timeline 6)) /\
  ((refreshPlayer (Sample.provider 22) 2000 Sample.alice (mkHeap 20 ∅)).1.1.1
     = Throw (Error "MATCH_DETAIL_BUDGET_EXCEEDED") /\
   cycle.1.1 = Throw (ReferenceError "e is not defined") /\
   List.map needsCatchup (players cycle.1.2) = [false; false] /\
   List.map lastError (players cycle.1.2) = [None; None] /\
   disk cycle.2 = Sample.roster).
Proof.
  split.
  - split; [vm_compute; reflexivity|]. split; [vm_compute; reflexivity|].
    vm_compute. eexists. split; [reflexivity|]. repeat split; reflexivity.
  - vm_compute. repeat split; reflexivity.
Qed.

(** ** The heap across the pipeline *)

Lemma heapStep_refl h : 0 <= MATCH_DETAIL_BUDGET h -> heapStep h h.
Proof. intros. repeat split; try lia. reflexivity. Qed.

Lemma heapStep_trans h1 h2 h3 : heapStep h1 h2 -> heapStep h2 h3 -> heapStep h1 h3.
Proof.
  intros (A1 & A2 & A3) (B1 & B2 & B3). repeat split; try lia.
  now transitivity (matchDetailCache h2).
Qed.

Lemma heapStep_budget h h' : heapStep h h' -> 0 <= MATCH_DETAIL_BUDGET h'.
Proof. intros (A & _). lia. Qed.

Lemma fetchMatchDetail_heapStep R region matchId h c h' :
  0 <= MATCH_DETAIL_BUDGET h ->
  fetchMatchDetail R region matchId h = (c, h') -> heapStep h h'.
Proof.
  intros Hb. unfold fetchMatchDetail.
  destruct (matchDetailCache h !! _) as [m|] eqn:Hk.
  - intros [= <- <-]. now apply heapStep_refl.
  - destruct (Z.leb_spec (MATCH_DETAIL_BUDGET h) 0).
    + intros [= <- <-]. now apply heapStep_refl.
    + destruct (match_detail R region matchId) as [m|e]; intros [= <- <-]; cbn.
      * repeat split; cbn; try lia.
        -- now apply insert_subseteq.
        -- rewrite map_size_insert_None by assumption. lia.
      * repeat split; cbn; try lia. reflexivity.
Qed.

Lemma deltaWalk_heapStep R region pu ids :
  forall t h c t' h',
    0 <= MATCH_DETAIL_BUDGET h ->
    deltaWalk R region pu ids t h = (c, t', h') -> heapStep h h'.
Proof.
  induction ids as [|x ids IH]; intros t h c t' h' Hb; cbn [deltaWalk].
  - intros [= <- <- <-]. now apply heapStep_refl.
  - destruct (fetchMatchDetail R region x h) as [[m|e] h1] eqn:Hf;
      apply fetchMatchDetail_heapStep in Hf; try assumption.
    + intros Hw. apply IH in Hw; [|now apply heapStep_budget in Hf].
      now apply heapStep_trans with h1.
    + now intros [= <- <- <-].
Qed.

Lemma summaryLoop_heapStep R region pu byKey n ids :
  forall out h c h',
    0 <= MATCH_DETAIL_BUDGET h ->
    summaryLoop R region pu byKey n ids out h = (c, h') -> heapStep h h'.
Proof.
  induction ids as [|x ids IH]; intros out h c h' Hb; cbn [summaryLoop].
  - intros [= <- <-]. now apply heapStep_refl.
  - destruct (n <=? Z.of_nat (length out)); [intros [= <- <-]; now apply heapStep_refl|].
    destruct (fetchMatchDetail R region x h) as [[m|e] h1] eqn:Hf;
      apply fetchMatchDetail_heapStep in Hf; try assumption.
    + assert (0 <= MATCH_DETAIL_BUDGET h1) by now apply heapStep_budget in Hf.
      destruct (isRemake m); [|destruct (findMe pu m)];
        intros Hw; apply IH in Hw; try assumption; now apply heapStep_trans with h1.
    + now intros [= <- <-].
Qed.

Lemma aggregator_heapStep R p year queueId h c p' h' saved :
  0 <= MATCH_DETAIL_BUDGET h ->
  updateChampionOverviewIncremental R p year queueId h = (c, p', h', saved) ->
  heapStep h h'.
Proof.
  intros Hb. unfold updateChampionOverviewIncremental.
  destruct (ensurePuuidAndSummonerId R p) as [[[]|e] p1];
    [|intros [= <- <- <- <-]; now apply heapStep_refl].
  destruct (match_ids R _ _ _) as [[[|id0 ids]|]|e];
    try (intros [= <- <- <- <-]; now apply heapStep_refl).
  destruct (negb _); [intros [= <- <- <- <-]; now apply heapStep_refl|].
  destruct (idsUntil _ _) as [|n1 nrest];
    [intros [= <- <- <- <-]; now apply heapStep_refl|].
  destruct (ddragon_champions R) as [champions|e];
    [|intros [= <- <- <- <-]; now apply heapStep_refl].
  destruct (deltaWalk _ _ _ _ _ _) as [[c2 t2] h2] eqn:Hw.
  apply deltaWalk_heapStep in Hw; [|assumption].
  destruct c2 as [[]|e]; now intros [= <- <- <- <-].
Qed.

Lemma fetchLastNGamesSummary_heapStep R p n queueId h c h' :
  0 <= MATCH_DETAIL_BUDGET h ->
  fetchLastNGamesSummary R p n queueId h = (c, h') -> heapStep h h'.
Proof.
  intros Hb. unfold fetchLastNGamesSummary.
  destruct (match_ids R _ _ _) as [[[|id0 ids]|]|e];
    try (intros [= <- <-]; now apply heapStep_refl).
  destruct (ddragon_champions R) as [champions|e];
    [|intros [= <- <-]; now apply heapStep_refl].
  now apply summaryLoop_heapStep.
Qed.

Lemma refreshPlayer_heapStep R nowIso p h c p' h' written :
  0 <= MATCH_DETAIL_BUDGET h ->
  refreshPlayer R nowIso p h = (c, p', h', written) -> heapStep h h'.
Proof.
  intros Hb. unfold refreshPlayer.
  destruct (ensurePuuidAndSummonerId R p) as [[[]|e] p1];
    [|intros [= _ _ <- _]; now apply heapStep_refl].
  destruct (fetchSoloQRank R p1) as [newRank|e];
    [|intros [= _ _ <- _]; now apply heapStep_refl].
  cbv zeta. destruct (negb _).
  - destruct (updateChampionOverviewIncremental _ _ _ _ _) as [[[c2 p2] h2] saved] eqn:Ha.
    apply aggregator_heapStep in Ha; [|assumption].
    destruct c2 as [[]|e]; [|now intros [= _ _ <- _]].
    destruct (fetchLastNGamesSummary R p2 5 (Some 420) h2) as [[games|e] h3] eqn:Hs;
      apply fetchLastNGamesSummary_heapStep in Hs;
      try (now apply heapStep_budget in Ha);
      try destruct (isPromotion _ _);
      intros [= _ _ <- _]; now apply heapStep_trans with h2.
  - destruct (isPromotion _ _); intros [= _ _ <- _]; now apply heapStep_refl.
Qed.

Lemma refreshLoop_heapStep R nowIso hist todo :
  forall done onDisk h c ps onDisk' h',
    0 <= MATCH_DETAIL_BUDGET h ->
    refreshLoop R nowIso hist done todo onDisk h = (c, ps, onDisk', h') ->
    heapStep h h'.
Proof.
  induction todo as [|p rest IH]; intros done onDisk h c ps onDisk' h' Hb;
    cbn [refreshLoop].
  - intros [= <- <- <- <-]. now apply heapStep_refl.
  - destruct (refreshPlayer R nowIso p h) as [[[c1 p1] h1] written] eqn:Hp.
    apply refreshPlayer_heapStep in Hp; [|assumption].
    destruct c1 as [[]|err].
    + intros Hl. apply IH in Hl; [|now apply heapStep_budget in Hp].
      now apply heapStep_trans with h1.
    + rewrite refreshCatch_throws. now intros [= <- <- <- <-].
Qed.

(** X1.  One refresh cycle, whatever the provider answers and however the
    cycle ends: the budget ends between 0 and 20, every record that was in
    the match-detail cache is still there unchanged, and the cache has grown
    by no more than the budget that was spent, so by 20 records at most. *)
Theorem refresh_cycle_bounds_remote_load
    (R : Remote) (srv : Server) (c : Completion State) (mem : State) (srv' : Server) :
  refreshAll R srv = (c, mem, srv') ->
  0 <= MATCH_DETAIL_BUDGET (heap srv') <= 20 /\
  (forall key m, matchDetailCache (heap srv) !! key = Some m ->
                 matchDetailCache (heap srv') !! key = Some m) /\
  Z.of_nat (size (matchDetailCache (heap srv'))) <=
    Z.of_nat (size (matchDetailCache (heap srv))) + 20 - MATCH_DETAIL_BUDGET (heap srv').
Proof.
  unfold refreshAll. intros H.
  destruct (refreshLoop _ _ _ _ _ _ _) as [[[c1 ps] onDisk] h'] eqn:Hl.
  apply refreshLoop_heapStep in Hl as (A1 & A2 & A3);
    [|cbn; unfold MATCH_DETAIL_BUDGET_PER_REFRESH; lia].
  cbn in A1, A2, A3. unfold MATCH_DETAIL_BUDGET_PER_REFRESH in *.
  assert (heap srv' = h') as -> by (destruct c1; now injection H as <- <- <-).
  split; [lia|]. split; [|lia].
  intros key m Hk. now apply (lookup_weaken _ _ _ _ Hk).
Qed.

Lemma refresh_cycle_bounds_remote_load_witness :
  let r := refreshAll (Sample.provider 22) (Sample.server 0) in
  0 <= MATCH_DETAIL_BUDGET (heap r.2) <= 20 /\
  (forall key m, matchDetailCache (heap (Sample.server 0)) !! key = Some m ->
                 matchDetailCache (heap r.2) !! key = Some m) /\
  Z.of_nat (size (matchDetailCache (heap r.2))) <=
    Z.of_nat (size (matchDetailCache (heap (Sample.server 0)))) + 20
    - MATCH_DETAIL_BUDGET (heap r.2).
Proof.
  intros r.
  apply (refresh_cycle_bounds_remote_load (Sample.provider 22) (Sample.server 0)
           r.1.1 r.1.2 r.2).
  vm_compute. reflexivity.
Defined.

(** X2.  A record fetched once is served from the cache from then on: the
    same call on the heap it left returns the same record, leaves the heap
    as it is and does not consult the provider, so it succeeds even with no
    budget left and with a provider that fails. *)
Theorem fetched_record_is_memoized
    (R R2 : Remote) (region matchId : string) (h h' : Heap) (m : Match) :
  fetchMatchDetail R region matchId h = (Normal m, h') ->
  fetchMatchDetail R2 region matchId h' = (Normal m, h').
Proof.
  unfold fetchMatchDetail.
  destruct (matchDetailCache h !! _) as [m0|] eqn:Hk.
  - intros [= <- <-]. now rewrite Hk.
  - destruct (MATCH_DETAIL_BUDGET h <=? 0); [discriminate|].
    destruct (match_detail R region matchId) as [m1|e]; [|discriminate].
    intros [= <- <-]. cbn. now rewrite lookup_insert_eq.
Qed.

Lemma fetched_record_is_memoized_witness :
  let first := fetchMatchDetail (Sample.provider 1) "europe" "M0" (mkHeap 1 ∅) in
  MATCH_DETAIL_BUDGET first.2 = 0 /\
  fetchMatchDetail Sample.leagueDown "europe" "M0" first.2
  = (Normal (Sample.game "puuid-a" 266 1800), first.2).
Proof.
  intros first. split; [reflexivity|].
  apply (fetched_record_is_memoized (Sample.provider 1) Sample.leagueDown
           "europe" "M0" (mkHeap 1 ∅)).
  vm_compute. reflexivity.
Defined.

(** ** The recent-games summary *)

Lemma summaryLoop_shape R region pu byKey n ids :
  forall out h games h',
    summaryLoop R region pu byKey n ids out h = (Normal games, h') ->
    exists more,
      games = out ++ more /\
      sublist (List.map matchId more) ids /\
      (Z.of_nat (length out) <= Z.max n 0 ->
       Z.of_nat (length games) <= Z.max n 0).
Proof.
  induction ids as [|x ids IH]; intros out h games h'; cbn [summaryLoop].
  - intros [= <- <-]. exists []. rewrite app_nil_r. repeat split; [constructor | auto].
  - destruct (Z.leb_spec n (Z.of_nat (length out))) as [Hn|Hn].
    { intros [= <- <-]. exists []. rewrite app_nil_r.
      repeat split; [apply sublist_nil_l | auto]. }
    destruct (fetchMatchDetail R region x h) as [[m|e] h1]; [|discriminate].
    destruct (isRemake m); [|destruct (findMe pu m) as [me|]]; intros Hl;
      destruct (IH _ _ _ _ Hl) as (more & Hg & Hs & Hlen).
    + exists more. repeat split; [exact Hg | now apply sublist_cons | exact Hlen].
    + exists (summarize R byKey x m me :: more). rewrite <- app_assoc in Hg.
      repeat split; [exact Hg | cbn; now apply sublist_skip |].
      intros _. apply Hlen. rewrite length_app. cbn. lia.
    + exists more. repeat split; [exact Hg | now apply sublist_cons | exact Hlen].
Qed.

(** X3.  The summary of the last [n] games lists at most [n] games (none
    when [n] is not positive), and the games it lists are matches of the
    listing it fetched, in the order of the listing, each at most once per
    position. *)
Theorem summary_is_a_bounded_sublist_of_the_listing
    (R : Remote) (p : Player) (n : Z) (queueId : option Z) (h h' : Heap)
    (ids : list string) (games : list GameSummary) :
  match_ids R (regionalForPlatform (platform p)) (puuid p)
            (mkQuery None None 0 (Z.min (n * 2) 20) queueId) = Normal (Some ids) ->
  fetchLastNGamesSummary R p n queueId h = (Normal games, h') ->
  Z.of_nat (length games) <= Z.max n 0 /\
  sublist (List.map matchId games) ids.
Proof.
  intros Hids. unfold fetchLastNGamesSummary. rewrite Hids.
  destruct ids as [|id0 ids].
  { intros [= <- <-]. split; [cbn; lia | constructor]. }
  destruct (ddragon_champions R) as [champions|e]; [|discriminate].
  intros Hl. apply summaryLoop_shape in Hl as (more & -> & Hs & Hlen).
  split; [apply Hlen; cbn; lia | exact Hs].
Qed.

Lemma summary_is_a_bounded_sublist_of_the_listing_witness :
  let r := fetchLastNGamesSummary (Sample.provider 30) Sample.alice 5 (Some 420)
             (mkHeap 20 ∅) in
  exists games,
    r.1 = Normal games /\
    Z.of_nat (length games) <= Z.max 5 0 /\
    sublist (List.map matchId games) (take 10 (Sample.timeline 30)).
Proof.
  intros r.
  assert (Hr : exists games, r = (Normal games, r.2)).
  { vm_compute. eexists. reflexivity. }
  destruct Hr as (games & Hr). exists games. split; [now rewrite Hr|].
  apply (summary_is_a_bounded_sublist_of_the_listing (Sample.provider 30)
           Sample.alice 5 (Some 420) (mkHeap 20 ∅) r.2).
  - vm_compute. reflexivity.
  - exact Hr.
Defined.

(** ** One player in the cycle *)

(** X4.  A player whose wins and losses add up to the stored total is
    refreshed without touching the match history: the new snapshot becomes
    [currentRank], the snapshot it replaces becomes [lastRank], the totals
    and the time of the update are stored, and the year aggregates, the
    recent games and the heap stay as they were; nothing is saved from
    inside and the listing, match and catalog endpoints are not consulted. *)
Theorem unchanged_totals_skip_the_match_history
    (R : Remote) (nowIso : Z) (p p1 : Player) (h : Heap) (newRank : RankSnapshot) :
  ensurePuuidAndSummonerId R p = (Normal tt, p1) ->
  fetchSoloQRank R p1 = Normal newRank ->
  (winsLosses newRank).1 + (winsLosses newRank).2 =
    match soloWL p with Some (w, l) => w + l | None => 0 end ->
  exists p',
    refreshPlayer R nowIso p h = (Normal tt, p', h, None) /\
    currentRank p' = Some newRank /\
    lastRank p' = orElse (currentRank p) (lastRank p) /\
    soloWL p' = Some (winsLosses newRank) /\
    lastUpdatedAt p' = Some nowIso /\
    champGamesByYear p' = champGamesByYear p /\
    last5 p' = last5 p /\
    puuid p' = puuid p1.
Proof.
  intros He Hr Htot. unfold refreshPlayer. rewrite He, Hr. cbv zeta.
  pose proof (ensurePuuid_frame _ _ _ _ He) as [pu ->].
  cbn [soloWL set_puuid] in *. rewrite Htot, Z.eqb_refl. cbn [negb].
  eexists. split; [reflexivity|].
  destruct (isPromotion _ _); [destruct (pendingBan _)|]; repeat split.
Qed.

Lemma unchanged_totals_skip_the_match_history_witness :
  let p := set_soloWL (Some (11, 10)) Sample.alice in
  let newRank := Sample.rank "GOLD" "III" 0 11 10 in
  fetchSoloQRank (Sample.provider 5) p = Normal newRank /\
  exists p',
    refreshPlayer (Sample.provider 5) 2000 p (mkHeap 20 ∅)
      = (Normal tt, p', mkHeap 20 ∅, None) /\
    currentRank p' = Some newRank /\
    lastRank p' = orElse (currentRank p) (lastRank p) /\
    soloWL p' = Some (winsLosses newRank) /\
    lastUpdatedAt p' = Some 2000 /\
    champGamesByYear p' = champGamesByYear p /\
    last5 p' = last5 p /\
    puuid p' = puuid p.
Proof.
  intros p newRank. split; [reflexivity|].
  apply (unchanged_totals_skip_the_match_history (Sample.provider 5) 2000 p p
           (mkHeap 20 ∅) newRank); reflexivity.
Defined.

(** ** Runs of the aggregator *)

(** X5.  A first run, on an aggregate without a cursor, only seeds the
    cursor with the head of the listing and stamps the time: it fetches no
    match record, leaves the heap, the total, the per-champion counts and
    the champion list as they were, and saves: the matches listed at that
    moment are not counted by this run, and they lie behind the cursor
    from then on. *)
Theorem first_run_only_seeds_the_cursor
    (R : Remote) (p p1 : Player) (year : Z) (queueId : option Z) (h : Heap)
    (id0 : string) (ids : list string) :
  ensurePuuidAndSummonerId R p = (Normal tt, p1) ->
  match_ids R (regionalForPlatform (platform p1)) (puuid p1)
            (listingQuery year queueId) = Normal (Some (id0 :: ids)) ->
  JsString.truthy (latestMatchId (statsOnEntry p year queueId)) = false ->
  exists p' s',
    updateChampionOverviewIncremental R p year queueId h = (Normal tt, p', h, true) /\
    champGamesByYear p' !! year = Some s' /\
    latestMatchId s' = Some id0 /\
    computedAt s' = Some (dateNow R) /\
    totalGames s' = totalGames (statsOnEntry p year queueId) /\
    countsOf s' = countsOf (statsOnEntry p year queueId) /\
    byChampion s' = byChampion (statsOnEntry p year queueId) /\
    matchCount s' = matchCount (statsOnEntry p year queueId).
Proof.
  intros He Hids Hm.
  assert (Hs : statsOnEntry p1 year queueId = statsOnEntry p year queueId).
  { unfold statsOnEntry. now rewrite (ensurePuuid_stats _ _ _ _ He). }
  rewrite <- Hs in *.
  eexists _, _. split; [apply aggregator_seed with (ids := ids); [exact He | exact Hids | exact Hm]|].
  split; [apply lookup_insert_eq|].
  now destruct (statsOnEntry p1 year queueId) as [? ? ? ? [m|] ? ? ? ?].
Qed.

Lemma first_run_only_seeds_the_cursor_witness :
  let p := set_champGamesByYear ∅ Sample.alice in
  exists p' s',
    updateChampionOverviewIncremental (Sample.provider 7) p 2026 (Some 420) (mkHeap 20 ∅)
      = (Normal tt, p', mkHeap 20 ∅, true) /\
    champGamesByYear p' !! 2026 = Some s' /\
    latestMatchId s' = Some "M6" /\
    computedAt s' = Some 2000 /\
    totalGames s' = 0 /\
    countsOf s' = ∅ /\
    byChampion s' = [] /\
    matchCount s' = 0.
Proof.
  intros p.
  apply (first_run_only_seeds_the_cursor (Sample.provider 7) p p 2026 (Some 420)
           (mkHeap 20 ∅) "M6" (List.tl (Sample.timeline 7))); reflexivity.
Defined.

(** X6.  Count consistency as the aggregator keeps it.  When the aggregate a
    run finds is consistent, then after the run, however it ends, the total
    equals the sum of the per-champion counts; and after a run that
    completes, the champion list sums to the same number. *)
Theorem run_keeps_total_equal_to_counts
    (R : Remote) (p : Player) (year : Z) (queueId : option Z) (h : Heap)
    (c : Completion unit) (p' : Player) (h' : Heap) (saved : bool) (s' : YearStats) :
  updateChampionOverviewIncremental R p year queueId h = (c, p', h', saved) ->
  (forall s, champGamesByYear p !! year = Some s -> consistent s) ->
  champGamesByYear p' !! year = Some s' ->
  totalGames s' = sumCounts (countsOf s') /\
  (is_normal c = true -> sumRows (byChampion s') = totalGames s').
Proof.
  intros Hrun Hcons Hs'.
  destruct (aggregator_consistency R p year queueId h c p' h' saved Hrun Hcons s' Hs')
    as [Ht Hn].
  split; [exact Ht|]. intros Hc. destruct (Hn Hc) as [A B]. congruence.
Qed.

Lemma run_keeps_total_equal_to_counts_witness :
  let r := updateChampionOverviewIncremental (Sample.provider 6) Sample.alice
             2026 (Some 420) (mkHeap 20 ∅) in
  exists s',
    champGamesByYear r.1.1.2 !! 2026 = Some s' /\
    totalGames s' = 5 /\
    totalGames s' = sumCounts (countsOf s') /\
    (is_normal r.1.1.1 = true -> sumRows (byChampion s') = totalGames s').
Proof.
  intros r.
  assert (Hs : exists s', champGamesByYear r.1.1.2 !! 2026 = Some s' /\ totalGames s' = 5).
  { vm_compute. eexists. split; reflexivity. }
  destruct Hs as (s' & Hs & Ht). exists s'. split; [exact Hs|]. split; [exact Ht|].
  apply (run_keeps_total_equal_to_counts (Sample.provider 6) Sample.alice 2026
           (Some 420) (mkHeap 20 ∅) r.1.1.1 r.1.1.2 r.1.2 r.2 s').
  - vm_compute. reflexivity.
  - intros s Hl. vm_compute in Hl. injection Hl as <-. split; reflexivity.
  - exact Hs.
Defined.

(** X7.  A run cut off by the budget, in general.  When the delta holds
    more distinct, uncached, served ids than fetches are left, the run
    obtains exactly the first [b] records of the delta, throws the budget
    error with the budget at 0, is not saved, leaves the cursor at the head
    of the listing, and has added to the total and to the counts the
    countable records among those [b]. *)
Theorem run_cut_off_by_the_budget
    (R : Remote) (p p1 : Player) (year : Z) (queueId : option Z) (h : Heap)
    (id0 : string) (ids : list string) (champions : list Champion) :
  ensurePuuidAndSummonerId R p = (Normal tt, p1) ->
  match_ids R (regionalForPlatform (platform p1)) (puuid p1)
            (listingQuery year queueId) = Normal (Some (id0 :: ids)) ->
  JsString.truthy (latestMatchId (statsOnEntry p1 year queueId)) = true ->
  ddragon_champions R = Normal champions ->
  let region := regionalForPlatform (platform p1) in
  let s0 := statsOnEntry p1 year queueId in
  let newIds := idsUntil (latestMatchId s0) (id0 :: ids) in
  NoDup newIds ->
  (forall x, x ∈ newIds -> matchDetailCache h !! cacheKey region x = None) ->
  (forall x, x ∈ newIds -> is_normal (match_detail R region x) = true) ->
  0 <= MATCH_DETAIL_BUDGET h < Z.of_nat (length newIds) ->
  let ms := fetched R region newIds h in
  let n := Z.of_nat (length (List.filter (countable (puuid p1)) ms)) in
  exists s' h',
    updateChampionOverviewIncremental R p year queueId h =
      (Throw (Error "MATCH_DETAIL_BUDGET_EXCEEDED"), storeStats year s' p1, h', false) /\
    MATCH_DETAIL_BUDGET h' = 0 /\
    List.map Normal ms =
      List.map (match_detail R region) (take (Z.to_nat (MATCH_DETAIL_BUDGET h)) newIds) /\
    latestMatchId s' = Some id0 /\
    totalGames s' = totalGames s0 + n /\
    sumCounts (countsOf s') = sumCounts (countsOf s0) + n.
Proof.
  intros He Hids Hm Hdd region s0 newIds Hnd Hcache Hserved Hb ms n.
  destruct (aggregator_budget_cutoff R p p1 year queueId h id0 ids champions
              He Hids Hm Hdd Hnd Hcache Hserved Hb)
    as (s' & h' & H1 & H2 & H3 & H4 & H5 & H6 & _).
  exists s', h'. repeat split; assumption.
Qed.

Lemma run_cut_off_by_the_budget_witness :
  exists s' h',
    updateChampionOverviewIncremental (Sample.provider 9) Sample.alice 2026 (Some 420)
      (mkHeap 3 ∅) =
      (Throw (Error "MATCH_DETAIL_BUDGET_EXCEEDED"), storeStats 2026 s' Sample.alice,
       h', false) /\
    MATCH_DETAIL_BUDGET h' = 0 /\
    latestMatchId s' = Some "M8" /\
    totalGames s' = 3.
Proof.
  destruct (run_cut_off_by_the_budget (Sample.provider 9) Sample.alice Sample.alice
              2026 (Some 420) (mkHeap 3 ∅) "M8" (List.tl (Sample.timeline 9))
              [mkChampion "266" "Aatrox" "Aatrox.png"])
    as (s' & h' & H1 & H2 & H3 & H4 & H5 & _); try reflexivity.
  - match goal with |- NoDup ?l => apply (bool_decide_unpack (NoDup l)) end.
    vm_compute. exact I.
  - vm_compute. split; [discriminate | reflexivity].
  - exists s', h'. split; [exact H1|]. split; [exact H2|]. split; [exact H4|].
    rewrite H5. vm_compute. reflexivity.
Defined.

(** ** The champion list *)

Lemma Forall_insert_sorted {A} (P : A -> Prop) (le : A -> A -> bool) x l :
  Forall P (insert_sorted le x l) <-> Forall P (x :: l).
Proof. now rewrite (insert_sorted_perm le x l). Qed.

Lemma Forall_stable_sort {A} (P : A -> Prop) (le : A -> A -> bool) l :
  Forall P (stable_sort le l) <-> Forall P l.
Proof. now rewrite (stable_sort_perm le l). Qed.

Lemma insert_sorted_by_key {A} (f : A -> Z) x l :
  StronglySorted (fun a b => f a <= f b) l ->
  StronglySorted (fun a b => f a <= f b) (insert_sorted (fun a b => f a <=? f b) x l).
Proof.
  induction 1 as [|y l Hs IH Hy]; cbn; [repeat constructor|].
  destruct (Z.leb_spec (f x) (f y)).
  - constructor; [now constructor|]. constructor; [assumption|].
    eapply Forall_impl; [exact Hy|]. cbn. intros; lia.
  - constructor; [assumption|]. apply Forall_insert_sorted.
    constructor; [lia | assumption].
Qed.

Lemma stable_sort_by_key {A} (f : A -> Z) l :
  StronglySorted (fun a b => f a <= f b) (stable_sort (fun a b => f a <=? f b) l).
Proof.
  induction l as [|x l IH]; cbn; [constructor|]. now apply insert_sorted_by_key.
Qed.

Lemma sorted_strict {A} (f : A -> Z) l :
  StronglySorted (fun a b => f a <= f b) l -> NoDup (List.map f l) ->
  StronglySorted (fun a b => f a < f b) l.
Proof.
  induction 1 as [|x l Hs IH Hx]; cbn; [constructor|].
  intros Hnd. apply NoDup_cons in Hnd as [Hin Hnd].
  constructor; [now apply IH|].
  apply Forall_forall. intros y Hy.
  pose proof (proj1 (Forall_forall _ _) Hx y Hy) as Hle. cbn in Hle.
  destruct (Z.eq_dec (f x) (f y)) as [E|]; [|lia].
  exfalso. apply Hin. rewrite E. apply list_elem_of_In, in_map. now apply list_elem_of_In.
Qed.

(** The keys of [Object.entries] are strictly ascending. *)
Lemma entries_ascending (obj : gmap Z Z) :
  StronglySorted (fun a b => a.1 < b.1) (entries obj).
Proof.
  apply sorted_strict; [apply (stable_sort_by_key fst)|].
  unfold entries.
  rewrite (stable_sort_perm (fun x y => x.1 <=? y.1) (map_to_list obj)).
  apply NoDup_fst_map_to_list.
Qed.

Lemma entries_perm (obj : gmap Z Z) : entries obj ≡ₚ map_to_list obj.
Proof. apply stable_sort_perm. Qed.

Lemma insert_row_sorted x l :
  StronglySorted rowBefore l ->
  Forall (fun y => championId x < championId y) l ->
  StronglySorted rowBefore (insert_sorted (fun a b => count b <=? count a) x l).
Proof.
  induction 1 as [|y l Hs IH Hy]; cbn; [repeat constructor|].
  intros Hx. apply Forall_cons in Hx as [Hxy Hxl].
  destruct (Z.leb_spec (count y) (count x)).
  - constructor; [now constructor|]. constructor.
    + unfold rowBefore. lia.
    + apply Forall_forall. intros z Hz.
      pose proof (proj1 (Forall_forall _ _) Hy z Hz) as Hyz.
      pose proof (proj1 (Forall_forall _ _) Hxl z Hz) as Hxz.
      unfold rowBefore in *. cbn in *. lia.
  - constructor; [now apply IH|]. apply Forall_insert_sorted.
    constructor; [unfold rowBefore; lia | assumption].
Qed.

Lemma sortByCountDesc_sorted rows :
  StronglySorted (fun a b => championId a < championId b) rows ->
  StronglySorted rowBefore (sortByCountDesc rows).
Proof.
  unfold sortByCountDesc.
  induction 1 as [|x l Hs IH Hx]; cbn; [constructor|].
  apply insert_row_sorted; [assumption|]. now apply Forall_stable_sort.
Qed.

Lemma rowPairs_rebuild byKey (obj : gmap Z Z) :
  rowPairs (rebuildByChampion byKey obj) ≡ₚ map_to_list obj.
Proof.
  unfold rowPairs, rebuildByChampion, sortByCountDesc.
  rewrite (stable_sort_perm _ _), <- entries_perm.
  rewrite map_map. induction (entries obj) as [|[k v] l IH]; cbn; [reflexivity|].
  now rewrite IH.
Qed.

Lemma countsFromRows_distinct (rows : list ChampionRow) :
  forall m0 : gmap Z Z,
    NoDup (List.map championId rows) ->
    (forall row, row ∈ rows -> m0 !! championId row = None) ->
    foldl (fun map row => <[championId row := count row]> map) m0 rows =
    list_to_map (rowPairs rows) ∪ m0.
Proof.
  induction rows as [|r rows IH]; intros m0 Hnd Hfresh; cbn.
  - now rewrite (left_id_L ∅ (∪)).
  - apply NoDup_cons in Hnd as [Hin Hnd].
    assert (Hk : (list_to_map (rowPairs rows) : gmap Z Z) !! championId r = None).
    { apply not_elem_of_list_to_map. unfold rowPairs.
      rewrite <- list_fmap_compose. intros Hr. apply Hin.
      now rewrite list_elem_of_In in Hr |- *. }
    rewrite IH; [|assumption|].
    + rewrite <- insert_union_l. now rewrite insert_union_r.
    + intros row Hrow. rewrite lookup_insert_ne; [apply Hfresh; now right|].
      intros E. apply Hin. rewrite E. apply list_elem_of_In, in_map.
      now apply list_elem_of_In.
Qed.

Lemma rebuildByChampion_sorted byKey (obj : gmap Z Z) :
  StronglySorted rowBefore (rebuildByChampion byKey obj).
Proof.
  apply sortByCountDesc_sorted.
  assert (H := entries_ascending obj). revert H.
  induction 1 as [|[k v] l Hs IH Hx]; cbn; constructor; [assumption|].
  apply Forall_forall. intros row Hrow.
  apply list_elem_of_In, in_map_iff in Hrow as ([k' v'] & <- & Hin).
  apply (proj1 (Forall_forall _ _) Hx (k', v')). now apply list_elem_of_In.
Qed.

Lemma countsOf_rebuild byKey (obj : gmap Z Z) (stats : YearStats) :
  countsByChampionId stats = None ->
  byChampion stats = rebuildByChampion byKey obj ->
  countsOf stats = obj.
Proof.
  intros Hnone Hrows. unfold countsOf, ensureCountsMap. rewrite Hnone. cbn.
  rewrite Hrows. pose proof (rowPairs_rebuild byKey obj) as Hp.
  rewrite countsFromRows_distinct.
  - rewrite (right_id_L ∅ (∪)).
    rewrite (list_to_map_proper (rowPairs (rebuildByChampion byKey obj)) (map_to_list obj));
      [apply list_to_map_to_list| |exact Hp].
    rewrite Hp. apply NoDup_fst_map_to_list.
  - replace (List.map championId (rebuildByChampion byKey obj))
      with ((rowPairs (rebuildByChampion byKey obj)).*1).
    + rewrite Hp. apply NoDup_fst_map_to_list.
    + unfold rowPairs. rewrite <- list_fmap_compose. reflexivity.
  - intros. apply lookup_empty.
Qed.

(** X8.  The champion list a completed run writes holds one row per key of
    [countsByChampionId] with that key's count; when every key is an array
    index (a champion id from 0 to 2^32 - 2, the case in which
    [Object.entries] lists the keys in ascending order) the list is ordered
    by falling count and, among equal counts, by rising champion id; and
    reading the counts back from that list, as [ensureCountsMap] does for
    an aggregate that has no [countsByChampionId], gives exactly the counts
    it was built from. *)
Theorem champion_list_is_sorted_and_lossless
    (byKey : gmap string Champion) (obj : gmap Z Z) (stats : YearStats) :
  let rows := rebuildByChampion byKey obj in
  (indexKeys obj = true -> StronglySorted rowBefore rows) /\
  rowPairs rows ≡ₚ map_to_list obj /\
  (countsByChampionId stats = None -> byChampion stats = rows ->
   countsOf stats = obj).
Proof.
  intros rows. split; [|split].
  - intros _. apply rebuildByChampion_sorted.
  - apply rowPairs_rebuild.
  - apply countsOf_rebuild.
Qed.

Lemma champion_list_is_sorted_and_lossless_witness :
  let obj : gmap Z Z := {[ 266 := 2; 103 := 5; 84 := 2 ]} in
  let rows := rebuildByChampion ∅ obj in
  let stats := mkStats 2026 None 9 rows None None None 0 None in
  indexKeys obj = true /\
  List.map (fun row => (championId row, count row)) rows = [(103, 5); (84, 2); (266, 2)] /\
  StronglySorted rowBefore rows /\
  countsOf stats = obj.
Proof.
  intros obj rows stats.
  destruct (champion_list_is_sorted_and_lossless ∅ obj stats) as (Hs & _ & Hc).
  split; [vm_compute; reflexivity|].
  split; [vm_compute; reflexivity|].
  split; [apply Hs; vm_compute; reflexivity | apply Hc; reflexivity].
Defined.

(** ** What a refresh cycle writes *)

Lemma refreshPlayer_identity R nowIso p h c p' h' written :
  refreshPlayer R nowIso p h = (c, p', h', written) ->
  sameIdentity p p' /\ (forall pw, written = Some pw -> sameIdentity p pw).
Proof.
  unfold refreshPlayer, sameIdentity. intros H.
  destruct (ensurePuuidAndSummonerId R p) as [c1 p1] eqn:He.
  apply ensurePuuid_frame in He as [pu ->].
  destruct c1 as [[]|e]; [|simplify_eq; split; [now repeat split | discriminate]].
  destruct (fetchSoloQRank R _) as [newRank|e];
    [|simplify_eq; split; [now repeat split | discriminate]].
  cbv zeta in H.
  destruct (negb _) eqn:Hchanged.
  - destruct (updateChampionOverviewIncremental _ _ _ _ _) as [[[c2 p2] h2] saved] eqn:Hu.
    apply aggregator_frame in Hu as (pu2 & m & Hp2).
    destruct c2 as [[]|e].
    + destruct (fetchLastNGamesSummary R p2 5 (Some 420) h2) as [[games|e] h3].
      * destruct (isPromotion _ _); injection H as <- <- <- <-; subst p2.
        -- split; [repeat case_match; now repeat split|].
           intros pw. destruct saved; intros; simplify_eq. now repeat split.
        -- split; [now repeat split|].
           intros pw. destruct saved; intros; simplify_eq. now repeat split.
      * injection H as <- <- <- <-. subst p2. split; [now repeat split|].
        intros pw. destruct saved; intros; simplify_eq. now repeat split.
    + injection H as <- <- <- <-. subst p2.
      split; [now repeat split|].
      intros pw. destruct saved; intros; simplify_eq. now repeat split.
  - destruct (isPromotion _ _); injection H as <- <- <- <-;
      (split; [repeat case_match; now repeat split | discriminate]).
Qed.

Lemma refreshPlayer_stamp R nowIso p h p' h' written :
  refreshPlayer R nowIso p h = (Normal tt, p', h', written) ->
  refreshedAt nowIso p'.
Proof.
  unfold refreshPlayer, refreshedAt. intros H.
  destruct (ensurePuuidAndSummonerId R p) as [c1 p1] eqn:He.
  apply ensurePuuid_frame in He as [pu ->].
  destruct c1 as [[]|e]; [|discriminate].
  destruct (fetchSoloQRank R _) as [newRank|e]; [|discriminate].
  cbv zeta in H.
  destruct (negb _) eqn:Hchanged.
  - destruct (updateChampionOverviewIncremental _ _ _ _ _) as [[[c2 p2] h2] saved] eqn:Hu.
    apply aggregator_frame in Hu as (pu2 & m & Hp2).
    destruct c2 as [[]|e]; [|discriminate].
    destruct (fetchLastNGamesSummary R p2 5 (Some 420) h2) as [[games|e] h3];
      [|discriminate].
    destruct (isPromotion _ _); injection H as <- <- <-; subst p2;
      repeat case_match; (split; [reflexivity|]); eexists; split; reflexivity.
  - destruct (isPromotion _ _); injection H as <- <- <-;
      repeat case_match; (split; [reflexivity|]); eexists; split; reflexivity.
Qed.

Lemma refreshLoop_stamps R nowIso hist todo :
  forall done onDisk h ps onDisk' h',
    Forall (refreshedAt nowIso) done ->
    refreshLoop R nowIso hist done todo onDisk h = (Normal tt, ps, onDisk', h') ->
    Forall (refreshedAt nowIso) ps.
Proof.
  induction todo as [|p rest IH]; intros done onDisk h ps onDisk' h' Hd H;
    cbn [refreshLoop] in H.
  - now injection H as <- <- <-.
  - destruct (refreshPlayer R nowIso p h) as [[[c1 p1] h1] written] eqn:Hp.
    destruct c1 as [[]|err].
    + eapply IH; [|exact H]. apply Forall_app. split; [assumption|].
      constructor; [|constructor]. now apply refreshPlayer_stamp in Hp.
    + rewrite refreshCatch_throws in H. discriminate.
Qed.

Lemma refreshLoop_history R nowIso hist todo :
  forall done onDisk h c ps onDisk' h',
    banHistory onDisk = hist ->
    refreshLoop R nowIso hist done todo onDisk h = (c, ps, onDisk', h') ->
    banHistory onDisk' = hist.
Proof.
  induction todo as [|p rest IH]; intros done onDisk h c ps onDisk' h' Hh H;
    cbn [refreshLoop] in H.
  - now injection H as <- <- <- <-.
  - destruct (refreshPlayer R nowIso p h) as [[[c1 p1] h1] written] eqn:Hp.
    assert (Hh' : banHistory match written with
                             | Some pw => mkState (done ++ pw :: rest) hist (Some nowIso)
                             | None => onDisk
                             end = hist) by now destruct written.
    destruct c1 as [[]|err]; [now apply IH in H|].
    rewrite refreshCatch_throws in H. now injection H as <- <- <- <-.
Qed.

(** X9.  A refresh cycle that completes returns the document it saved:
    the roster has the length it had, every player carries the time of the
    cycle as [lastUpdatedAt], a current rank and the win and loss totals of
    that rank, and the document carries the same time. *)
Theorem completed_cycle_stamps_every_player
    (R : Remote) (srv : Server) (st mem : State) (srv' : Server) :
  refreshAll R srv = (Normal st, mem, srv') ->
  st = mem /\ disk srv' = mem /\
  globalLastUpdatedAt mem = Some (dateNow R) /\
  length (players mem) = length (players (disk srv)) /\
  Forall (refreshedAt (dateNow R)) (players mem).
Proof.
  unfold refreshAll. intros H.
  destruct (refreshLoop _ _ _ _ _ _ _) as [[[c1 ps] onDisk] h'] eqn:Hl.
  destruct c1 as [[]|e]; [|discriminate]. injection H as <- <- <-.
  cbn. repeat split.
  - assert (Hlen : Forall2 (fun _ _ : Player => True) (players (disk srv)) ps).
    { eapply (refreshLoop_related (fun _ _ => True)) with (orig := []);
        [ | | constructor | | exact Hl]; [easy | easy |].
      cbn. apply Forall2_Rel_refl. easy. }
    symmetry. exact (Forall2_length _ _ _ Hlen).
  - eapply refreshLoop_stamps; [|exact Hl]. constructor.
Qed.

Lemma completed_cycle_stamps_every_player_witness :
  let r := refreshAll (Sample.provider 4) (Sample.server 0) in
  exists st,
    r.1.1 = Normal st /\ disk r.2 = st /\
    globalLastUpdatedAt st = Some (dateNow (Sample.provider 4)) /\
    length (players st) = 2%nat /\
    Forall (refreshedAt (dateNow (Sample.provider 4))) (players st).
Proof.
  intros r.
  assert (Hn : exists st, refreshAll (Sample.provider 4) (Sample.server 0) = (Normal st, r.1.2, r.2))
    by (vm_compute; eexists; reflexivity).
  destruct Hn as [st Heq]. exists st.
  assert (Hst : r.1.1 = Normal st) by (unfold r; now rewrite Heq).
  apply completed_cycle_stamps_every_player in Heq.
  destruct Heq as (H1 & H2 & H3 & H4 & H5).
  rewrite H1. repeat split; assumption.
Defined.

(** X10.  Whatever the provider answers and however the cycle ends, a
    refresh changes neither the ban history nor, on any player, the id, the
    display name, the platform, the Riot id or the recorded bans: in the
    object in memory and in the document on disk. *)
Theorem refresh_never_touches_bans
    (R : Remote) (srv : Server) (c : Completion State) (mem : State) (srv' : Server) :
  refreshAll R srv = (c, mem, srv') ->
  banHistory mem = banHistory (disk srv) /\
  banHistory (disk srv') = banHistory (disk srv) /\
  Forall2 sameIdentity (players (disk srv)) (players mem) /\
  Forall2 sameIdentity (players (disk srv)) (players (disk srv')).
Proof.
  intros H.
  assert (Hid := H).
  apply (refreshAll_related sameIdentity) in Hid;
    [| now repeat split | intros; eapply refreshPlayer_identity; eassumption].
  destruct Hid as [Hmem Hdisk].
  unfold refreshAll in H.
  destruct (refreshLoop _ _ _ _ _ _ _) as [[[c1 ps] onDisk] h'] eqn:Hl.
  apply refreshLoop_history in Hl; [|reflexivity].
  destruct c1 as [[]|e]; injection H as <- <- <-; cbn in *; repeat split; assumption.
Qed.

Lemma refresh_never_touches_bans_witness :
  let r := refreshAll (Sample.provider 22) (Sample.server 0) in
  is_normal r.1.1 = false /\
  banHistory r.1.2 = banHistory (disk (Sample.server 0)) /\
  banHistory (disk r.2) = banHistory (disk (Sample.server 0)) /\
  Forall2 sameIdentity (players (disk (Sample.server 0))) (players r.1.2) /\
  Forall2 sameIdentity (players (disk (Sample.server 0))) (players (disk r.2)).
Proof.
  intros r. split; [vm_compute; reflexivity|].
  apply (refresh_never_touches_bans (Sample.provider 22) (Sample.server 0) r.1.1 r.1.2 r.2).
  vm_compute. reflexivity.
Defined.

(** ** One ban per promotion *)

Lemma findPlayerIndex_insert playerId ps i p p' :
  findPlayerIndex playerId ps = Some i ->
  ps !! i = Some p -> pid p' = pid p ->
  findPlayerIndex playerId (<[i := p']> ps) = Some i.
Proof.
  revert i. induction ps as [|x ps IH]; intros i; cbn; [discriminate|].
  destruct (String.eqb_spec (pid x) playerId) as [He|He].
  - intros [= <-] [= <-] Hp. cbn. rewrite Hp.
    now destruct (String.eqb_spec (pid x) playerId).
  - destruct (findPlayerIndex playerId ps) as [j|] eqn:Hj; [|discriminate].
    intros [= <-] Hl Hp. cbn in Hl.
    change (<[S j := p']> (x :: ps)) with (x :: <[j := p']> ps).
    cbn [findPlayerIndex].
    destruct (String.eqb_spec (pid x) playerId); [contradiction|].
    now rewrite (IH j eq_refl Hl Hp).
Qed.

(** X11.  A promotion grants one ban.  On the document a recorded ban has
    left, every further ban request for that player, whatever champion and
    note it names and whenever it arrives, is answered 409 (400 when its
    champion is blank) and leaves the stored document as it is. *)
Theorem promotion_grants_one_ban
    (time time2 : Z) (body body2 : BanRequest) (s s' : State) :
  postApiBan time body s = (Normal (Ok200 s'), s') ->
  req_playerId body2 = req_playerId body ->
  postApiBan time2 body2 s' =
    (Normal (if String.eqb (JsString.trim (req_champion body2)) ""
             then BadRequest400
             else Conflict409 "Kein Uprank erkannt. Bans sind nur nach einem Uprank erlaubt."),
     s').
Proof.
  unfold postApiBan. intros H Hid. rewrite Hid.
  destruct (String.eqb (req_playerId body) "") eqn:E1; [cbn in H; simplify_eq|].
  destruct (String.eqb (JsString.trim (req_champion body)) "") eqn:E2;
    [cbn in H; simplify_eq|].
  cbn [orb] in *.
  destruct (findPlayerIndex _ (players s)) as [i|] eqn:Hf; [|simplify_eq].
  destruct (players s !! i) as [p|] eqn:Hp; [|simplify_eq].
  destruct (pendingBan p) as [pending|]; [|simplify_eq].
  destruct (bans p) as [bs|]; [|simplify_eq].
  destruct (existsb _ bs); [simplify_eq|].
  injection H as H. clear H0. subst s'. cbn [players].
  destruct (String.eqb (JsString.trim (req_champion body2)) ""); [reflexivity|].
  erewrite findPlayerIndex_insert; [|exact Hf|exact Hp|reflexivity].
  rewrite list_lookup_insert_eq by (now apply lookup_lt_Some in Hp).
  reflexivity.
Qed.

Lemma promotion_grants_one_ban_witness :
  let st := mkState [Sample.promoted; Sample.bob] [] None in
  exists st',
    postApiBan 3000 (mkBanRequest "p1" "Yasuo" "first") st = (Normal (Ok200 st'), st') /\
    postApiBan 3100 (mkBanRequest "p1" "Zed" "second") st' =
      (Normal (Conflict409 "Kein Uprank erkannt. Bans sind nur nach einem Uprank erlaubt."),
       st').
Proof.
  intros st.
  assert (H : exists st', postApiBan 3000 (mkBanRequest "p1" "Yasuo" "first") st =
                          (Normal (Ok200 st'), st'))
    by (vm_compute; eexists; reflexivity).
  destruct H as [st' H]. exists st'. split; [exact H|].
  apply (promotion_grants_one_ban 3000 3100 (mkBanRequest "p1" "Yasuo" "first")
           (mkBanRequest "p1" "Zed" "second") st st' H).
  reflexivity.
Defined.

(** ** The full listing of a year *)

Lemma servedFrom_serves R timeline : serves (servedFrom R timeline) (fun _ => timeline).
Proof. intros region pu q. reflexivity. Qed.

Lemma pageLoop_serves R history region pu start end_ queueId :
  serves R history ->
  forall fuel k all sent,
    (k <= length (history pu))%nat ->
    ((length (history pu) - k) / 100 < fuel)%nat ->
    exists sent',
      pageLoop fuel R region pu start end_ queueId all (Z.of_nat k) sent =
        Some (Normal (all ++ drop k (history pu)), sent ++ sent') /\
      length sent' = S ((length (history pu) - k) / 100) /\
      Forall (fun q => q_count q = 100 /\ q_queue q = queueId /\
                       q_startTime q = Some start /\ q_endTime q = Some end_) sent'.
Proof.
  intros Hserve. set (timeline := history pu).
  induction fuel as [|fuel IH]; intros k all sent Hk Hfuel; [lia|].
  cbn [pageLoop]. rewrite Hserve. fold timeline.
  unfold riotListing. cbn [q_count q_start].
  rewrite Nat2Z.id. change (Z.to_nat 100) with 100%nat.
  destruct (take 100 (drop k timeline)) as [|id ids] eqn:Hpage.
  - assert (Hlen : length (take 100 (drop k timeline)) = 0%nat) by now rewrite Hpage.
    rewrite length_take, length_drop in Hlen.
    assert (Hd : drop k timeline = []).
    { apply nil_length_inv. rewrite length_drop. lia. }
    rewrite Hd, app_nil_r.
    exists [mkQuery (Some start) (Some end_) (Z.of_nat k) 100 queueId].
    split; [reflexivity|]. split.
    + cbn [length]. f_equal. symmetry. apply Nat.div_small. lia.
    + now repeat constructor.
  - rewrite <- Hpage.
    assert (Hlen : length (take 100 (drop k timeline)) = Nat.min 100 (length timeline - k))
      by now rewrite length_take, length_drop.
    destruct (Z.ltb_spec (Z.of_nat (length (take 100 (drop k timeline)))) 100) as [Hlt|Hge].
    + assert (Ht : take 100 (drop k timeline) = drop k timeline).
      { apply take_ge. rewrite length_drop. lia. }
      rewrite Ht.
      exists [mkQuery (Some start) (Some end_) (Z.of_nat k) 100 queueId].
      split; [reflexivity|]. split.
      * cbn [length]. f_equal. symmetry. apply Nat.div_small. lia.
      * now repeat constructor.
    + assert (Hfull : length (take 100 (drop k timeline)) = 100%nat) by lia.
      rewrite Hfull. change (Z.of_nat 100) with 100.
      replace (Z.of_nat k + 100) with (Z.of_nat (k + 100)) by lia.
      assert (Hdiv : ((length timeline - k) / 100 = S ((length timeline - (k + 100)) / 100))%nat).
      { replace (length timeline - k)%nat
          with (1 * 100 + (length timeline - (k + 100)))%nat by lia.
        rewrite Nat.div_add_l by lia. lia. }
      destruct (IH (k + 100)%nat (all ++ take 100 (drop k timeline))
                  (sent ++ [mkQuery (Some start) (Some end_) (Z.of_nat k) 100 queueId]))
        as (sent' & Hrun & Hn & Hall); [lia | lia |].
      exists (mkQuery (Some start) (Some end_) (Z.of_nat k) 100 queueId :: sent').
      split; [|split].
      * rewrite Hrun. rewrite <- !app_assoc. cbn [app].
        replace (drop (k + 100) timeline) with (drop 100 (drop k timeline))
          by (rewrite drop_drop; reflexivity).
        now rewrite take_drop.
      * cbn [length]. rewrite Hn, Hdiv. reflexivity.
      * constructor; [now repeat split | assumption].
Qed.

(** More fuel does not change the outcome of a loop that has left. *)
Lemma pageLoop_fuel R region pu start end_ queueId :
  forall fuel fuel' all startIdx sent r,
    pageLoop fuel R region pu start end_ queueId all startIdx sent = Some r ->
    (fuel <= fuel')%nat ->
    pageLoop fuel' R region pu start end_ queueId all startIdx sent = Some r.
Proof.
  induction fuel as [|fuel IH]; intros fuel' all startIdx sent r H Hle; [discriminate|].
  destruct fuel' as [|fuel']; [lia|]. cbn [pageLoop] in *.
  destruct (match_ids R region pu _) as [[[|id ids]|]|e]; try assumption.
  destruct (Z.of_nat (length (id :: ids)) <? 100); [assumption|].
  apply IH; [assumption | lia].
Qed.

(** X12.  Over a provider that serves each player's matches of the year
    newest first, [fetchAllMatchIdsForYear] returns every match id of the
    player's year, in the provider's order, whatever their number; it does
    so with [n / 100 + 1] listing requests of 100 ids each for a year of [n]
    matches, and the loop leaves within that many iterations. *)
Theorem full_listing_returns_the_whole_year
    (R : Remote) (history : option string -> list string) (pu : option string)
    (platform : string) (year : Z) (queueId : option Z) (fuel : nat) :
  serves R history ->
  (pagesFor (length (history pu)) <= fuel)%nat ->
  exists sent,
    fetchAllMatchIdsForYear fuel R pu platform year queueId =
      Some (Normal (history pu), sent) /\
    length sent = pagesFor (length (history pu)) /\
    Forall (fun q => q_count q = 100 /\ q_queue q = queueId) sent.
Proof.
  unfold fetchAllMatchIdsForYear, pagesFor, yearRangeEpochSeconds. intros Hserve Hfuel.
  destruct (pageLoop_serves R history (regionalForPlatform platform) pu
              (utcYearStart year) (utcYearStart (year + 1))
              queueId Hserve fuel 0 [] []) as (sent & Hrun & Hn & Hall); [lia | |].
  - rewrite Nat.sub_0_r. lia.
  - exists sent. rewrite Nat.sub_0_r in Hn.
    change (Z.of_nat 0) with 0 in Hrun. rewrite !app_nil_l in Hrun.
    split; [exact Hrun|].
    split; [exact Hn|]. eapply Forall_impl; [exact Hall|]. cbn. tauto.
Qed.

Lemma full_listing_returns_the_whole_year_witness :
  exists sent,
    fetchAllMatchIdsForYear 3 (servedFrom (Sample.provider 0) (Sample.timeline 200))
      (Some "puuid-a") "euw1" 2026 (Some 420) =
      Some (Normal (Sample.timeline 200), sent) /\
    length sent = 3%nat /\
    Forall (fun q => q_count q = 100 /\ q_queue q = Some 420) sent.
Proof.
  apply (full_listing_returns_the_whole_year
           (servedFrom (Sample.provider 0) (Sample.timeline 200))
           (fun _ => Sample.timeline 200)
           (Some "puuid-a") "euw1" 2026 (Some 420) 3).
  - intros region pu q. reflexivity.
  - vm_compute. lia.
Defined.

(** ** The bootstrap script *)

Lemma sumValues_sumCounts (m : gmap Z Z) : Bootstrap.sumValues m = sumCounts m.
Proof.
  unfold Bootstrap.sumValues, sumCounts.
  rewrite <- (sum_snd_perm _ _ (entries_perm m)).
  assert (H : forall (l : list (Z * Z)) a,
             foldl (fun s x => s + x) a (List.map snd l) =
             a + foldr (fun kv acc => kv.2 + acc) 0 l).
  { induction l as [|[k v] l IH]; intros a; cbn; [lia|]. rewrite IH. lia. }
  rewrite H. lia.
Qed.

Lemma countMatch_counts pu m t t' :
  counts t = counts t' -> counts (countMatch pu m t) = counts (countMatch pu m t').
Proof.
  intros H. unfold countMatch. repeat case_match; cbn; try assumption. now rewrite H.
Qed.

Lemma bootstrap_summarize_duration R byKey matchId m me :
  isRemake m = false ->
  keptDuration (durationSec (Bootstrap.summarize R byKey matchId m me)).
Proof.
  unfold keptDuration, Bootstrap.summarize, isRemake, numberOr. cbn [durationSec].
  unfold REMAKE_MAX_DURATION_SEC.
  destruct (gameDuration m) as [d|]; [|lia].
  intros H. destruct (Z.eqb_spec d 0); [lia|].
  apply andb_false_iff in H as [H|H]; lia.
Qed.

Lemma matchLoop_spec R byKey region pu ids :
  forall c0 l0 c l t,
    Bootstrap.matchLoop R byKey region pu ids c0 l0 = Normal (c, l) ->
    counts t = c0 ->
    exists ms more,
      recordsOf R region ids ms /\
      c = counts (tallyOver pu ms t) /\
      l = l0 ++ more /\
      (length l <= Nat.max (length l0) 5)%nat /\
      sublist (List.map matchId more) ids /\
      Forall (fun g => keptDuration (durationSec g)) more.
Proof.
  unfold recordsOf.
  induction ids as [|x ids IH]; intros c0 l0 c l t H Ht; cbn in H.
  - injection H as <- <-. exists [], []. rewrite app_nil_r. cbn.
    repeat split; [constructor | now symmetry | lia | constructor | constructor].
  - destruct (match_detail R region x) as [m|e] eqn:Hm; [|discriminate].
    assert (Hskip : forall c1,
               Bootstrap.matchLoop R byKey region pu ids c1 l0 = Normal (c, l) ->
               c1 = counts (countMatch pu m t) ->
               exists ms more,
                 Forall2 (fun id m => match_detail R region id = Normal m) (x :: ids) ms /\
                 c = counts (tallyOver pu ms t) /\ l = l0 ++ more /\
                 (length l <= Nat.max (length l0) 5)%nat /\
                 sublist (List.map matchId more) (x :: ids) /\
                 Forall (fun g => keptDuration (durationSec g)) more).
    { intros c1 H1 Hc1.
      destruct (IH _ _ _ _ (countMatch pu m t) H1 (eq_sym Hc1))
        as (ms & more & Hrec & Hc & Hl & Hlen & Hsub & Hdur).
      exists (m :: ms), more. repeat split; try assumption.
      - now constructor.
      - now apply sublist_cons. }
    destruct (isRemake m) eqn:Hr.
    { apply (Hskip c0 H). unfold countMatch. now rewrite Hr. }
    destruct (findMe pu m) as [me|] eqn:Hme.
    2:{ apply (Hskip c0 H). unfold countMatch. now rewrite Hr, Hme. }
    destruct (Z.ltb_spec (Z.of_nat (length l0)) 5) as [Hlt|Hge].
    + destruct (IH _ _ _ _ (countMatch pu m t) H)
        as (ms & more & Hrec & Hc & Hl & Hlen & Hsub & Hdur).
      { unfold countMatch. rewrite Hr, Hme.
        destruct (me_championId me); cbn; [now rewrite Ht | exact Ht]. }
      exists (m :: ms), (Bootstrap.summarize R byKey x m me :: more).
      repeat split.
      * now constructor.
      * assumption.
      * now rewrite Hl, <- app_assoc.
      * rewrite length_app in Hlen. cbn in Hlen. lia.
      * cbn. now apply sublist_skip.
      * constructor; [now apply bootstrap_summarize_duration | assumption].
    + apply (Hskip _ H). unfold countMatch. rewrite Hr, Hme.
      destruct (me_championId me); cbn; [now rewrite Ht | now symmetry].
Qed.

Lemma bootstrap_listing R history fuel pu platform :
  serves R history ->
  (pagesFor (length (history pu)) <= fuel)%nat ->
  Bootstrap.fetchAllMatchIdsForYear fuel R pu platform
    Bootstrap.YEAR (Some Bootstrap.QUEUE_ID) =
  Some (Normal (regionalForPlatform platform, history pu)).
Proof.
  intros Hserve Hfuel.
  unfold Bootstrap.fetchAllMatchIdsForYear, yearRangeEpochSeconds.
  destruct (pageLoop_serves R history (regionalForPlatform platform) pu
              (utcYearStart Bootstrap.YEAR) (utcYearStart (Bootstrap.YEAR + 1))
              (Some Bootstrap.QUEUE_ID) Hserve fuel 0 [] []) as (sent & Hrun & _);
    [lia | rewrite Nat.sub_0_r; unfold pagesFor in Hfuel; lia |].
  change (Z.of_nat 0) with 0 in Hrun. rewrite !app_nil_l in Hrun.
  now rewrite Hrun.
Qed.

Lemma bootstrap_listing_returned R history fuel pu platform r :
  serves R history ->
  Bootstrap.fetchAllMatchIdsForYear fuel R pu platform
    Bootstrap.YEAR (Some Bootstrap.QUEUE_ID) = Some r ->
  r = Normal (regionalForPlatform platform, history pu).
Proof.
  intros Hserve H.
  pose proof (bootstrap_listing R history (Nat.max fuel (pagesFor (length (history pu))))
                pu platform Hserve (Nat.le_max_r _ _)) as Hfull.
  unfold Bootstrap.fetchAllMatchIdsForYear, yearRangeEpochSeconds in *.
  destruct (pageLoop fuel _ _ _ _ _ _ _ _ _) as [run|] eqn:Hrun; [|discriminate].
  rewrite (pageLoop_fuel _ _ _ _ _ _ _ _ _ _ _ _ Hrun (Nat.le_max_l _ _)) in Hfull.
  destruct run as [[all|e] sent]; congruence.
Qed.

Lemma bootstrapPlayer_returned R history fuel byKey p p' :
  serves R history ->
  Bootstrap.bootstrapPlayer fuel R byKey p = Some (Normal p') ->
  bootstrapStep R history p p'.
Proof.
  intros Hserve. unfold Bootstrap.bootstrapPlayer, bootstrapStep.
  destruct (Bootstrap.ensurePuuid R p) as [c1 p1] eqn:He.
  assert (Hp1 : exists pu, p1 = set_puuid pu p).
  { unfold Bootstrap.ensurePuuid in He. repeat case_match; simplify_eq; eauto.
    all: try (exists (puuid p1); now rewrite set_puuid_same).
    all: try (exists (puuid p); now rewrite set_puuid_same). }
  destruct Hp1 as [pu ->].
  destruct c1 as [[]|e]; [|discriminate].
  destruct (Bootstrap.fetchSoloQRank _ _) as [rank|e]; [|discriminate].
  cbv zeta.
  destruct (Bootstrap.fetchAllMatchIdsForYear _ _ _ _ _ _) as [listing|] eqn:Hlist;
    [|discriminate].
  apply (bootstrap_listing_returned R history) in Hlist; [|exact Hserve]. subst listing.
  destruct (Bootstrap.matchLoop _ _ _ _ _ _ _) as [[c l]|e] eqn:Hloop; [|discriminate].
  intros [= <-].
  apply (matchLoop_spec _ _ _ _ _ _ _ _ _ (mkTally ∅ 0 0)) in Hloop; [|reflexivity].
  destruct Hloop as (ms & more & Hrec & Hc & Hl & Hlen & Hsub & Hdur).
  cbn in Hl. subst l.
  cbn [puuid platform set_soloWL set_currentRank set_lastRank set_puuid] in Hc, Hrec, Hsub.
  pose proof (tallyOver_account pu ms (mkTally ∅ 0 0)) as (_ & _ & Hsum).
  cbn in Hsum. rewrite sumCounts_empty in Hsum. rewrite <- Hc in Hsum.
  split; [now repeat split|]. split; [reflexivity|].
  split; [reflexivity|].
  cbn [puuid platform set_lastError set_last5 set_champGamesByYear set_soloWL
         set_currentRank set_lastRank set_puuid].
  eexists _, ms, more. split; [cbn; apply lookup_insert_eq|].
  split; [|split; [|split; [|split; [|split; [|split; [|split; [|split; [|split]]]]]]]].
  - unfold consistent. cbn [totalGames byChampion]. rewrite countsOf_mk.
    rewrite sumValues_sumCounts, sumRows_rebuild. now split.
  - cbn [byChampion]. apply rebuildByChampion_sorted.
  - exact Hrec.
  - cbn [totalGames]. rewrite sumValues_sumCounts. lia.
  - reflexivity.
  - reflexivity.
  - reflexivity.
  - cbn in Hlen. lia.
  - exact Hsub.
  - exact Hdur.
Qed.

Lemma bootstrapPlayer_spec R history fuel byKey p :
  serves R history ->
  (forall pu, pagesFor (length (history pu)) <= fuel)%nat ->
  exists c,
    Bootstrap.bootstrapPlayer fuel R byKey p = Some c /\
    forall p', c = Normal p' -> bootstrapStep R history p p'.
Proof.
  intros Hserve Hfuel.
  assert (Hsome : exists c, Bootstrap.bootstrapPlayer fuel R byKey p = Some c).
  { unfold Bootstrap.bootstrapPlayer.
    destruct (Bootstrap.ensurePuuid R p) as [[[]|e] p1]; [|eauto].
    destruct (Bootstrap.fetchSoloQRank _ _) as [rank|e]; [|eauto].
    cbv zeta. rewrite (bootstrap_listing R history) by auto.
    destruct (Bootstrap.matchLoop _ _ _ _ _ _ _) as [[c l]|e]; eauto. }
  destruct Hsome as [c Hc]. exists c. split; [exact Hc|].
  intros p' ->. now apply (bootstrapPlayer_returned R history fuel byKey).
Qed.

Lemma playersLoop_returned R history fuel byKey ps :
  serves R history ->
  forall ps',
    Bootstrap.playersLoop fuel R byKey ps = Some (Normal ps') ->
    Forall2 (bootstrapStep R history) ps ps'.
Proof.
  intros Hserve. induction ps as [|p ps IH]; intros ps'; cbn.
  - intros [= <-]. constructor.
  - destruct (Bootstrap.bootstrapPlayer fuel R byKey p) as [[p'|e]|] eqn:Hp;
      [|discriminate|discriminate].
    destruct (Bootstrap.playersLoop fuel R byKey ps) as [[qs|e]|];
      [|discriminate|discriminate].
    intros [= <-]. constructor; [|now apply IH].
    now apply (bootstrapPlayer_returned R history fuel byKey).
Qed.

Lemma playersLoop_spec R history fuel byKey ps :
  serves R history ->
  (forall pu, pagesFor (length (history pu)) <= fuel)%nat ->
  exists c,
    Bootstrap.playersLoop fuel R byKey ps = Some c /\
    forall ps', c = Normal ps' -> Forall2 (bootstrapStep R history) ps ps'.
Proof.
  intros Hserve Hfuel. induction ps as [|p ps IH]; cbn.
  - eexists. split; [reflexivity|]. intros ps' [= <-]. constructor.
  - destruct (bootstrapPlayer_spec R history fuel byKey p Hserve Hfuel) as (c & -> & Hc).
    destruct c as [p'|e]; [|eexists; split; [reflexivity | discriminate]].
    destruct IH as (cs & -> & Hcs).
    destruct cs as [ps'|e]; [|eexists; split; [reflexivity | discriminate]].
    eexists. split; [reflexivity|]. intros ps'' [= <-].
    constructor; [now apply Hc | now apply Hcs].
Qed.

(** X13.  Over a provider that serves each player's year and whose records
    carry numeric champion ids, a run of the bootstrap script that ends has
    written [data.json] all at once or not at all.  When it ends without
    error, every player keeps identity, bans and pending promotion, has no
    recorded error, and carries an aggregate of the year that is
    count-consistent, whose total is the number of countable records among
    all matches of the year (remakes and matches without the player left
    out), whose champion list is ordered, whose cursor is the newest match,
    and at most five recent games, none of them a remake, in the order of
    the listing.  When it ends with an error of the provider, the file is
    as it was. *)
Theorem bootstrap_fills_every_player
    (R : Remote) (history : option string -> list string) (fuel : nat)
    (s : State) (c : Completion unit) (s' : State) :
  serves R history ->
  numericChampions R ->
  Bootstrap.main fuel R s = Some (c, s') ->
  match c with
  | Throw _ => s' = s
  | Normal _ =>
      banHistory s' = banHistory s /\
      globalLastUpdatedAt s' = Some (dateNow R) /\
      Forall2 (bootstrapStep R history) (players s) (players s')
  end.
Proof.
  intros Hserve _. unfold Bootstrap.main.
  destruct (ddragon_champions R) as [champions|e]; [|now intros [= <- <-]].
  destruct (Bootstrap.playersLoop fuel R _ (players s)) as [[ps|e]|] eqn:Hloop;
    [|now intros [= <- <-]|discriminate].
  intros [= <- <-]. cbn. repeat split.
  now apply (playersLoop_returned R history fuel (championsByKey champions)).
Qed.

Lemma bootstrap_fills_every_player_witness :
  let R := Sample.provider 7 in
  exists s',
    Bootstrap.main 1 R Sample.roster = Some (Normal tt, s') /\
    banHistory s' = [] /\
    globalLastUpdatedAt s' = Some 2000 /\
    Forall2 (bootstrapStep R (fun _ => Sample.timeline 7)) (players Sample.roster) (players s').
Proof.
  intros R.
  assert (Hc : exists s1, Bootstrap.main 1 R Sample.roster = Some (Normal tt, s1))
    by (vm_compute; eexists; reflexivity).
  destruct Hc as [s1 Hs1]. exists s1. split; [exact Hs1|].
  apply (bootstrap_fills_every_player R (fun _ => Sample.timeline 7) 1 Sample.roster
           (Normal tt) s1).
  - intros region pu q. reflexivity.
  - intros region matchId m me [= <-] Hme.
    apply list_elem_of_singleton in Hme as ->. exists 266. split; reflexivity.
  - exact Hs1.
Defined.

Lemma stamped_counts s q latest stamp :
  let s' := set_computedAt stamp (set_latestMatchId latest (ensureCountsMap (set_queueId q s))) in
  totalGames s' = totalGames s /\ countsOf s' = countsOf s /\ byChampion s' = byChampion s.
Proof. now destruct s as [? ? ? ? [m|] ? ? ? ?]. Qed.

Lemma entered_counts s q :
  let s' := ensureCountsMap (set_queueId q s) in
  totalGames s' = totalGames s /\ countsOf s' = countsOf s /\ byChampion s' = byChampion s.
Proof. now destruct s as [? ? ? ? [m|] ? ? ? ?]. Qed.

(** A run of the aggregator on an aggregate whose cursor is the newest
    match of the listing, or that has no cursor because the listing is
    empty or starts with an empty id. *)
Lemma aggregator_at_head R p year queueId h s ids :
  JsString.truthy (puuid p) = true ->
  champGamesByYear p !! year = Some s ->
  latestMatchId s = Bootstrap.firstId ids ->
  match_ids R (regionalForPlatform (platform p)) (puuid p)
            (listingQuery year queueId) = Normal (Some ids) ->
  exists s' saved,
    updateChampionOverviewIncremental R p year queueId h =
      (Normal tt, storeStats year s' p, h, saved) /\
    totalGames s' = totalGames s /\ countsOf s' = countsOf s /\
    byChampion s' = byChampion s.
Proof.
  intros Hpu Hs Hm Hids.
  assert (He : ensurePuuidAndSummonerId R p = (Normal tt, p)).
  { unfold ensurePuuidAndSummonerId. now rewrite Hpu. }
  destruct ids as [|id0 rest].
  - exists (ensureCountsMap (set_queueId queueId s)), false.
    split; [|apply entered_counts].
    unfold updateChampionOverviewIncremental. rewrite He, Hids, Hs. reflexivity.
  - assert (Hs1 : statsOnEntry p year queueId = ensureCountsMap (set_queueId queueId s))
      by now apply statsOnEntry_lookup.
    exists (set_computedAt (Some (dateNow R))
              (set_latestMatchId (Some id0) (ensureCountsMap (set_queueId queueId s)))), true.
    split; [|apply stamped_counts].
    cbn in Hm. destruct (String.eqb_spec id0 "") as [->|Hne].
    + rewrite <- Hs1. apply aggregator_seed with (ids := rest); [exact He | exact Hids |].
      rewrite Hs1. destruct (ensureCountsMap_fields (set_queueId queueId s)) as (_ & _ & -> & _).
      destruct s; cbn in *. now rewrite Hm.
    + apply aggregator_replay with (rest := rest); assumption.
Qed.

(** X14.  The first refresh after a bootstrap counts nothing twice.  On a
    player as the bootstrap script left it, and while the provider serves
    the year the bootstrap saw, a run of the incremental aggregator
    completes without fetching a single match record and leaves the total,
    the per-champion counts and the champion list as the bootstrap computed
    them. *)
Theorem refresh_after_bootstrap_counts_nothing_twice
    (R R2 : Remote) (history : option string -> list string) (fuel : nat)
    (s s' : State) (i : nat) (p' : Player) (h : Heap) :
  serves R history -> serves R2 history ->
  (forall pu, pagesFor (length (history pu)) <= fuel)%nat ->
  Bootstrap.main fuel R s = Some (Normal tt, s') ->
  players s' !! i = Some p' ->
  JsString.truthy (puuid p') = true ->
  exists st st' saved,
    champGamesByYear p' !! 2026 = Some st /\
    updateChampionOverviewIncremental R2 p' 2026 (Some 420) h =
      (Normal tt, storeStats 2026 st' p', h, saved) /\
    totalGames st' = totalGames st /\ countsOf st' = countsOf st /\
    byChampion st' = byChampion st.
Proof.
  intros Hserve Hserve2 Hfuel Hmain Hi Hpu.
  unfold Bootstrap.main in Hmain.
  destruct (ddragon_champions R) as [champions|e]; [|discriminate].
  destruct (playersLoop_spec R history fuel (championsByKey champions) (players s)
              Hserve Hfuel) as (c & Hc & Hps).
  rewrite Hc in Hmain. destruct c as [ps|e]; [|discriminate].
  injection Hmain as <-. cbn in Hi.
  specialize (Hps ps eq_refl).
  destruct (Forall2_lookup_r _ _ _ _ _ Hps Hi) as (p & _ & _ & _ & _ & Hb).
  destruct Hb as (st & ms & games & Hst & _ & _ & _ & _ & _ & Hcur & _).
  destruct (aggregator_at_head R2 p' 2026 (Some 420) h st
              (riotListing (history (puuid p')) (listingQuery 2026 (Some 420))))
    as (st' & saved & Hrun & Htot); [exact Hpu | exact Hst | | apply Hserve2 |].
  - rewrite Hcur. unfold riotListing. cbn.
    now destruct (history (puuid p')).
  - exists st, st', saved. split; [exact Hst|]. split; [exact Hrun | exact Htot].
Qed.

Lemma refresh_after_bootstrap_counts_nothing_twice_witness :
  let R := Sample.provider 7 in
  exists s' p' st st' saved,
    Bootstrap.main 1 R Sample.roster = Some (Normal tt, s') /\
    players s' !! 0%nat = Some p' /\
    champGamesByYear p' !! 2026 = Some st /\
    totalGames st = 7 /\
    updateChampionOverviewIncremental R p' 2026 (Some 420) (mkHeap 0 ∅) =
      (Normal tt, storeStats 2026 st' p', mkHeap 0 ∅, saved) /\
    totalGames st' = totalGames st /\ countsOf st' = countsOf st /\
    byChampion st' = byChampion st.
Proof.
  intros R.
  assert (Hc : exists s1 p1, Bootstrap.main 1 R Sample.roster = Some (Normal tt, s1) /\
                             players s1 !! 0%nat = Some p1 /\
                             JsString.truthy (puuid p1) = true /\
                             (totalGames <$> champGamesByYear p1 !! 2026) = Some 7)
    by (vm_compute; eexists _, _; repeat split; reflexivity).
  destruct Hc as (s1 & p1 & Hmain & Hp1 & Hpu & Htot).
  destruct (refresh_after_bootstrap_counts_nothing_twice R R (fun _ => Sample.timeline 7) 1
              Sample.roster s1 0%nat p1 (mkHeap 0 ∅))
    as (st & st' & saved & Hst & Hrun & H); try assumption.
  - intros region pu q. reflexivity.
  - intros region pu q. reflexivity.
  - intros _. vm_compute. lia.
  - exists s1, p1, st, st', saved. rewrite Hst in Htot. injection Htot as Htot.
    repeat split; try assumption; apply H.
Defined.

(** ** The two promotion rules *)

Lemma indexOf_absent x arr : x ∉ arr -> indexOf x arr = -1.
Proof.
  induction arr as [|y arr IH]; intros H; cbn; [reflexivity|].
  apply not_elem_of_cons in H as [Hne Hin].
  destruct (String.eqb_spec y x); [congruence|]. now rewrite IH.
Qed.

Lemma indexOf_upper_bound x arr : indexOf x arr <= Z.of_nat (length arr) - 1.
Proof.
  induction arr as [|y arr IH]; cbn [indexOf length]; [lia|].
  destruct (String.eqb y x); [lia|].
  destruct (Z.eqb_spec (indexOf x arr) (-1)); lia.
Qed.

Lemma tierIndex_indexOf r :
  tierIndex r = indexOf (JsString.toUpperCase (tier r)) tierNames + 1 /\
  (indexOf (JsString.toUpperCase (tier r)) ["MASTER"; "GRANDMASTER"; "CHALLENGER"] =? -1) =
  (tierIndex r <? 8).
Proof.
  unfold tierIndex. set (s := JsString.toUpperCase (tier r)). clearbody s.
  destruct (decide (s ∈ tierNames)) as [Hin|Hout].
  - unfold tierNames in Hin.
    repeat (apply elem_of_cons in Hin as [->|Hin]);
      first [vm_compute; split; reflexivity | vm_compute; reflexivity
            | now apply elem_of_nil in Hin].
  - rewrite (indexOf_absent _ _ Hout).
    assert (Hno : tierOrder !! s = None).
    { apply not_elem_of_list_to_map_1. exact Hout. }
    rewrite Hno. split; [reflexivity|].
    rewrite indexOf_absent; [reflexivity|].
    intros H. apply Hout. unfold tierNames.
    repeat (apply elem_of_cons in H as [->|H]); [| | |now apply elem_of_nil in H].
    all: repeat (first [apply list_elem_of_here | apply list_elem_of_further]).
Qed.

Lemma divIndex_indexOf r :
  divIndex r = indexOf (JsString.toUpperCase (division r)) Legacy.divOrder + 1.
Proof.
  unfold divIndex. set (s := JsString.toUpperCase (division r)). clearbody s.
  destruct (decide (s ∈ Legacy.divOrder)) as [Hin|Hout].
  - unfold Legacy.divOrder in Hin.
    repeat (apply elem_of_cons in Hin as [->|Hin]);
      first [vm_compute; split; reflexivity | vm_compute; reflexivity
            | now apply elem_of_nil in Hin].
  - rewrite (indexOf_absent _ _ Hout).
    assert (Hno : divOrder !! s = None).
    { apply not_elem_of_list_to_map_1. exact Hout. }
    now rewrite Hno.
Qed.

(** X15.  The two promotion rules of the repository, compared.  Between two
    well-formed ranked snapshots the older server reports a promotion
    exactly when the current server does, or when tier and division are
    the same (for an apex tier: the tier is the same) and the league
    points, capped at 99, went up.  So every promotion of the current rule
    is one of the older rule, and the older rule adds the league-point
    gains within a division. *)
Theorem older_rule_is_current_rule_plus_league_points (o n : RankedData) :
  wellFormed o -> wellFormed n ->
  (Legacy.isPromotion (Some (Ranked o)) (Some (Ranked n)) = true <->
   isPromotion (Some (Ranked o)) (Some (Ranked n)) = true \/
   (tierIndex o = tierIndex n /\
    (8 <= tierIndex n \/ divIndex o = divIndex n) /\
    Z.min (lp o) 99 < Z.min (lp n) 99)).
Proof.
  intros (Hto & Hdo & Hlo) (Htn & Hdn & Hln).
  unfold isPromotion. rewrite rankValue_ranked.
  unfold Legacy.isPromotion, Legacy.rankValue.
  destruct (tierIndex_indexOf o) as [Eto Eao].
  destruct (tierIndex_indexOf n) as [Etn Ean].
  pose proof (divIndex_indexOf o) as Edo.
  pose proof (divIndex_indexOf n) as Edn.
  rewrite Eao, Ean.
  pose proof (indexOf_lower_bound (JsString.toUpperCase (division o)) Legacy.divOrder).
  pose proof (indexOf_lower_bound (JsString.toUpperCase (division n)) Legacy.divOrder).
  pose proof (indexOf_lower_bound (JsString.toUpperCase (tier o)) tierNames).
  pose proof (indexOf_lower_bound (JsString.toUpperCase (tier n)) tierNames).
  assert (Hub : forall x, indexOf x Legacy.divOrder <= 3).
  { intros x. apply (indexOf_upper_bound x Legacy.divOrder). }
  pose proof (Hub (JsString.toUpperCase (division o))).
  pose proof (Hub (JsString.toUpperCase (division n))).
  set (to := indexOf (JsString.toUpperCase (tier o)) tierNames) in *.
  set (tn := indexOf (JsString.toUpperCase (tier n)) tierNames) in *.
  set (do := indexOf (JsString.toUpperCase (division o)) Legacy.divOrder) in *.
  set (dn := indexOf (JsString.toUpperCase (division n)) Legacy.divOrder) in *.
  destruct (Z.eqb_spec to (-1)) as [|_]; [contradiction|].
  destruct (Z.eqb_spec tn (-1)) as [|_]; [contradiction|].
  rewrite negb_true_iff, <- not_true_iff_false, Qle_bool_iff.
  unfold Qle, Qplus, inject_Z. cbn [Qnum Qden].
  rewrite Eto, Etn, Edo, Edn in *.
  destruct (Z.ltb_spec (to + 1) 8), (Z.ltb_spec (tn + 1) 8); cbn [negb];
    repeat match goal with
           | |- context [if ?x =? -1 then _ else _] => destruct (Z.eqb_spec x (-1))
           end; lia.
Qed.

Lemma older_rule_is_current_rule_plus_league_points_witness :
  let o := mkRanked "GOLD" "IV" 10 10 10 in
  let n := mkRanked "gold" "III" 0 11 10 in
  Legacy.isPromotion (Some (Ranked o)) (Some (Ranked n)) = true <->
  isPromotion (Some (Ranked o)) (Some (Ranked n)) = true \/
  (tierIndex o = tierIndex n /\
   (8 <= tierIndex n \/ divIndex o = divIndex n) /\
   Z.min (lp o) 99 < Z.min (lp n) 99).
Proof.
  intros o n.
  apply (older_rule_is_current_rule_plus_league_points o n).
  - repeat split; [vm_compute; discriminate | right; vm_compute; discriminate
                  | vm_compute; discriminate].
  - repeat split; [vm_compute; discriminate | right; vm_compute; discriminate
                  | vm_compute; discriminate].
Defined.

(** ** The refresh cycle of the older server *)

Lemma legacy_refreshLoop_lookup R nowIso ps i p :
  ps !! i = Some p ->
  LegacyServer.refreshLoop R nowIso ps !! i =
  Some (let '(c, p') := LegacyServer.refreshTry R nowIso p in
        match c with
        | Normal _ => p'
        | Throw err => Legacy.refreshCatch nowIso err p'
        end).
Proof.
  revert i. induction ps as [|x ps IH]; intros i Hi; [discriminate|].
  cbn [LegacyServer.refreshLoop].
  destruct (LegacyServer.refreshTry R nowIso x) as [c x'] eqn:Hx.
  destruct i as [|i]; cbn in Hi |- *.
  - injection Hi as <-. now rewrite Hx.
  - now apply IH.
Qed.

Lemma legacy_refreshLoop_length R nowIso ps :
  length (LegacyServer.refreshLoop R nowIso ps) = length ps.
Proof.
  induction ps as [|x ps IH]; cbn [LegacyServer.refreshLoop]; [reflexivity|].
  destruct (LegacyServer.refreshTry R nowIso x). cbn. now rewrite IH.
Qed.

(** X16.  In the older server a failure for one player never ends the
    cycle.  Every player of the roster is visited and stamped with the time
    of the cycle and keeps identity and bans; a player whose requests fail
    has the error text recorded and keeps both ranks and the pending
    promotion; a player whose requests succeed has the ranks shifted, keeps
    an earlier error text, and keeps a pending promotion that was there. *)
Theorem older_cycle_visits_every_player
    (R : Remote) (s : State) (i : nat) (p : Player) :
  players s !! i = Some p ->
  length (players (LegacyServer.refreshAll R s)) = length (players s) /\
  exists p',
    players (LegacyServer.refreshAll R s) !! i = Some p' /\
    lastUpdatedAt p' = Some (dateNow R) /\
    sameIdentity p p' /\
    (is_Some (pendingBan p) -> pendingBan p' = pendingBan p) /\
    match (LegacyServer.refreshTry R (dateNow R) p).1 with
    | Throw err =>
        lastError p' = Some (errorString err) /\
        currentRank p' = currentRank p /\ lastRank p' = lastRank p /\
        pendingBan p' = pendingBan p
    | Normal _ =>
        lastError p' = lastError p /\
        is_Some (currentRank p') /\
        lastRank p' = orElse (currentRank p) (lastRank p)
    end.
Proof.
  intros Hi. unfold LegacyServer.refreshAll. cbn [players].
  split; [apply legacy_refreshLoop_length|].
  rewrite (legacy_refreshLoop_lookup _ _ _ _ _ Hi).
  eexists. split; [reflexivity|].
  unfold LegacyServer.refreshTry.
  destruct (ensurePuuidAndSummonerId R p) as [c1 p1] eqn:He.
  apply ensurePuuid_frame in He as [pu ->].
  destruct c1 as [[]|e]; [|cbn; now repeat split].
  destruct (LegacyServer.fetchSoloQRank R _) as [newRank|e]; [|cbn; now repeat split].
  cbv zeta. cbn [fst].
  destruct (Legacy.isPromotion _ _); [|cbn; repeat split; eauto].
  cbn [pendingBan set_lastUpdatedAt set_currentRank set_lastRank set_puuid].
  destruct (pendingBan p) as [pb|] eqn:Hpb; cbn; repeat split; eauto.
  intros [x Hx]. discriminate.
Qed.

Lemma older_cycle_visits_every_player_witness :
  let s' := LegacyServer.refreshAll Sample.leagueDown Sample.roster in
  length (players s') = 2%nat /\
  exists p',
    players s' !! 1%nat = Some p' /\
    lastUpdatedAt p' = Some 2000 /\
    lastError p' = Some "Riot API 500 Internal Server Error: ".
Proof.
  intros s'.
  destruct (older_cycle_visits_every_player Sample.leagueDown Sample.roster 1%nat Sample.bob)
    as (Hlen & p' & Hp' & Hstamp & _ & _ & Herr); [reflexivity|].
  split; [exact Hlen|]. exists p'. split; [exact Hp'|]. split; [exact Hstamp|].
  exact (proj1 Herr).
Defined.

(** ** The retries of [riotFetch] *)

Lemma riotFetch_stop {J} (net : nat -> Completion (HttpResponse J)) random k retries c events :
  (forall res, net k = Normal res -> status res = 429 -> retries = 0%nat) ->
  riotFetch net random k retries = (c, events) ->
  events = [Requested k] /\ settled (net k) c.
Proof.
  intros Hcase H. unfold settled.
  destruct retries as [|r]; cbn [riotFetch] in H.
  - destruct (net k) as [res|e]; [|now injection H as <- <-].
    destruct (Z.eqb_spec (status res) 429) as [E|E].
    + injection H as <- <-. split; [reflexivity|]. now split.
    + destruct (ok res) eqn:Hok; cbn in H; injection H as <- <-;
        (split; [reflexivity|]);
        (split; [intros; contradiction|]);
        split; intros; first [reflexivity | congruence].
  - destruct (net k) as [res|e] eqn:Hk; [|now injection H as <- <-].
    destruct (Z.eqb_spec (status res) 429) as [E|E].
    + now specialize (Hcase res eq_refl E).
    + destruct (ok res) eqn:Hok; cbn in H; injection H as <- <-;
        (split; [reflexivity|]);
        (split; [intros; contradiction|]);
        split; intros; first [reflexivity | congruence].
Qed.

Lemma riotFetch_spec {J} (net : nat -> Completion (HttpResponse J)) random :
  forall retries k c events,
    riotFetch net random k retries = (c, events) ->
    exists n,
      (n <= retries)%nat /\
      requestsOf events = seq k (S n) /\
      Forall2 (retried net random) (seq k n) (sleepsOf events) /\
      settled (net (k + n)%nat) c /\
      (forall res, net (k + n)%nat = Normal res -> status res = 429 -> n = retries).
Proof.
  induction retries as [|r IH]; intros k c events H.
  - apply riotFetch_stop in H as (-> & Hc); [|reflexivity].
    exists 0%nat. rewrite Nat.add_0_r. cbn.
    repeat split; first [lia | constructor | assumption | reflexivity].
  - destruct (net k) as [res|e] eqn:Hk.
    2:{ apply riotFetch_stop in H as (-> & Hc); [|intros res; rewrite Hk; discriminate].
        exists 0%nat. rewrite Nat.add_0_r. cbn.
        repeat split; first [lia | constructor | assumption | idtac].
        intros res. rewrite Hk. discriminate. }
    destruct (Z.eq_dec (status res) 429) as [E|E].
    + cbn [riotFetch] in H. rewrite Hk, E in H. cbn in H.
      destruct (riotFetch net random (S k) r) as [c1 events1] eqn:Hrec.
      injection H as <- <-.
      destruct (IH _ _ _ Hrec) as (n & Hn & Hreq & Hsl & Hres & Hlast).
      exists (S n).
      replace (k + S n)%nat with (S k + n)%nat by lia.
      change (requestsOf (Requested k :: Slept (waitMs res (random k)) :: events1))
        with (k :: requestsOf events1).
      change (sleepsOf (Requested k :: Slept (waitMs res (random k)) :: events1))
        with (waitMs res (random k) :: sleepsOf events1).
      split; [lia|]. split; [rewrite Hreq; reflexivity|].
      split.
      { cbn [seq]. constructor; [|exact Hsl]. now exists res. }
      split; [exact Hres|]. intros res' H1 H2. f_equal. now apply (Hlast res').
    + apply riotFetch_stop in H as (-> & Hc).
      2:{ intros res'. rewrite Hk. intros [= <-]. contradiction. }
      exists 0%nat. rewrite Nat.add_0_r. cbn.
      repeat split; first [lia | constructor | assumption | idtac].
      intros res'. rewrite Hk. intros [= <-]. contradiction.
Qed.



(** ** Escaping on the page *)

Lemma string_app_assoc (a b c : string) : (a +:+ b) +:+ c = a +:+ (b +:+ c).
Proof.
  induction a as [|x a IH]; [reflexivity|].
  change (String x ((a +:+ b) +:+ c) = String x (a +:+ (b +:+ c))). now rewrite IH.
Qed.

Lemma replaceAll_app c rep a b :
  Frontend.replaceAll c rep (a +:+ b) =
  Frontend.replaceAll c rep a +:+ Frontend.replaceAll c rep b.
Proof.
  induction a as [|x a IH]; [reflexivity|].
  change (String x a +:+ b) with (String x (a +:+ b)).
  cbn [Frontend.replaceAll]. rewrite IH.
  destruct (Ascii.eqb x c); [|reflexivity].
  now rewrite string_app_assoc.
Qed.

Lemma replaceAll_hit c rep s :
  Frontend.replaceAll c rep (String c s) = rep +:+ Frontend.replaceAll c rep s.
Proof. cbn [Frontend.replaceAll]. now rewrite Ascii.eqb_refl. Qed.

Lemma replaceAll_miss c rep x s :
  x <> c ->
  Frontend.replaceAll c rep (String x s) = String x (Frontend.replaceAll c rep s).
Proof.
  intros H. cbn [Frontend.replaceAll]. now destruct (Ascii.eqb_spec x c).
Qed.

Lemma escapeEach_passes s :
  Frontend.esc (Some s) = escapeEach s.
Proof.
  unfold Frontend.esc. cbn [default]. unfold id.
  induction s as [|x s IH]; [reflexivity|].
  cbn [escapeEach]. rewrite <- IH. unfold escChar.
  destruct (Ascii.eqb_spec x "&") as [->|H1].
  { rewrite replaceAll_hit, !replaceAll_app. reflexivity. }
  rewrite (replaceAll_miss "&") by assumption.
  destruct (Ascii.eqb_spec x "<") as [->|H2].
  { rewrite replaceAll_hit, !replaceAll_app. reflexivity. }
  rewrite (replaceAll_miss "<") by assumption.
  destruct (Ascii.eqb_spec x ">") as [->|H3].
  { rewrite replaceAll_hit, !replaceAll_app. reflexivity. }
  rewrite (replaceAll_miss ">") by assumption.
  destruct (Ascii.eqb_spec x Frontend.dquote) as [->|H4].
  { rewrite replaceAll_hit, !replaceAll_app. reflexivity. }
  rewrite (replaceAll_miss Frontend.dquote) by assumption.
  destruct (Ascii.eqb_spec x "'") as [->|H5].
  { rewrite replaceAll_hit. reflexivity. }
  rewrite (replaceAll_miss "'") by assumption. reflexivity.
Qed.

Lemma allChars_app P a b : allChars P (a +:+ b) = allChars P a && allChars P b.
Proof.
  induction a as [|x a IH]; [reflexivity|].
  change (String x a +:+ b) with (String x (a +:+ b)). cbn [allChars].
  now rewrite IH, andb_assoc.
Qed.

Lemma escChar_safe c : allChars htmlSafe (escChar c) = true.
Proof.
  unfold escChar.
  destruct (Ascii.eqb_spec c "&"); [reflexivity|].
  destruct (Ascii.eqb_spec c "<"); [reflexivity|].
  destruct (Ascii.eqb_spec c ">"); [reflexivity|].
  destruct (Ascii.eqb_spec c Frontend.dquote); [reflexivity|].
  destruct (Ascii.eqb_spec c "'"); [reflexivity|].
  cbn. unfold htmlSafe.
  repeat match goal with
         | |- context [Ascii.eqb c ?d] => destruct (Ascii.eqb_spec c d); [contradiction|]
         end.
  reflexivity.
Qed.

Lemma escChar_inj c d rest rest' :
  escChar c +:+ rest = escChar d +:+ rest' -> c = d /\ rest = rest'.
Proof.
  unfold escChar.
  destruct (Ascii.eqb_spec c "&") as [->|Hc1];
    [|destruct (Ascii.eqb_spec c "<") as [->|Hc2];
      [|destruct (Ascii.eqb_spec c ">") as [->|Hc3];
        [|destruct (Ascii.eqb_spec c Frontend.dquote) as [->|Hc4];
          [|destruct (Ascii.eqb_spec c "'") as [->|Hc5]]]]];
  (destruct (Ascii.eqb_spec d "&") as [->|Hd1];
    [|destruct (Ascii.eqb_spec d "<") as [->|Hd2];
      [|destruct (Ascii.eqb_spec d ">") as [->|Hd3];
        [|destruct (Ascii.eqb_spec d Frontend.dquote) as [->|Hd4];
          [|destruct (Ascii.eqb_spec d "'") as [->|Hd5]]]]]);
  cbn; intros H; try discriminate H;
  try (injection H as H; subst; try congruence; now split).
Qed.

(** X18.  [esc] does what five independent replacements would: every
    character is replaced by its own entity or kept, and no pass escapes
    what an earlier pass produced.  Its result holds none of the characters
    [<], [>], double quote and single quote, and no two texts are escaped
    to the same result. *)
Theorem esc_is_safe_and_lossless (s t : string) :
  Frontend.esc (Some s) = escapeEach s /\
  allChars htmlSafe (Frontend.esc (Some s)) = true /\
  (Frontend.esc (Some s) = Frontend.esc (Some t) -> s = t).
Proof.
  split; [apply escapeEach_passes|]. split.
  - rewrite escapeEach_passes. induction s as [|x s IH]; [reflexivity|].
    cbn [escapeEach]. now rewrite allChars_app, escChar_safe, IH.
  - rewrite !escapeEach_passes. revert t.
    induction s as [|x s IH]; intros [|y t]; cbn [escapeEach].
    + reflexivity.
    + intros H. exfalso. revert H. unfold escChar.
      repeat (destruct (Ascii.eqb y _); [discriminate|]). discriminate.
    + intros H. exfalso. revert H. unfold escChar.
      repeat (destruct (Ascii.eqb x _); [discriminate|]). discriminate.
    + intros H. apply escChar_inj in H as [-> H]. f_equal. now apply IH.
Qed.

Lemma esc_is_safe_and_lossless_witness :
  Frontend.esc (Some "<b title='x'>R&D</b>") =
    "&lt;b title=&#039;x&#039;&gt;R&amp;D&lt;/b&gt;" /\
  (Frontend.esc (Some "a<b") = Frontend.esc (Some "a<b") -> "a<b" = "a<b").
Proof.
  split; [vm_compute; reflexivity|].
  exact (proj2 (proj2 (esc_is_safe_and_lossless "a<b" "a<b"))).
Defined.

(** ** The ban dialog against the server *)

Lemma lower_char_space c : JsString.is_space (JsString.lower_char c) = JsString.is_space c.
Proof. destruct c as [[] [] [] [] [] [] [] []]; vm_compute; reflexivity. Qed.

Lemma collapse_lower in_run s :
  JsString.toLowerCase (JsString.collapse_from in_run s) =
  JsString.collapse_from in_run (JsString.toLowerCase s).
Proof.
  unfold JsString.toLowerCase. revert in_run.
  induction s as [|c s IH]; intros in_run; [reflexivity|].
  cbn [JsString.collapse_from JsString.map_chars]. rewrite lower_char_space.
  destruct (JsString.is_space c) eqn:Hc.
  - destruct in_run; cbn [JsString.map_chars]; now rewrite IH.
  - cbn [JsString.map_chars]. now rewrite IH.
Qed.

Lemma norm_of_page_norm s : norm s = JsString.collapseSpaces (Frontend.norm s).
Proof. unfold norm, Frontend.norm, JsString.collapseSpaces. apply collapse_lower. Qed.

Lemma postApiBan_refusal time body s :
  isOk (postApiBan time body s).1 = false -> (postApiBan time body s).2 = s.
Proof. unfold postApiBan. repeat case_match; cbn; congruence. Qed.

(** X19.  A champion that the ban dialog shows as already banned for a
    player, by its name, is never accepted by the server: a request to ban
    it for that player is refused and leaves the stored document as it is.
    (The page compares trimmed, lower-cased names; the server also
    collapses inner white space, so it refuses at least what the page
    disables.) *)
Theorem tile_shown_banned_is_refused
    (time : Z) (s : State) (i : nat) (p : Player) (name note : string) :
  findPlayerIndex (pid p) (players s) = Some i ->
  players s !! i = Some p ->
  existsb (String.eqb (Frontend.norm name))
    (List.map (fun b => Frontend.norm (ban_champion b)) (default [] (bans p))) = true ->
  Frontend.isBanned p name "" = true /\
  isOk (postApiBan time (mkBanRequest (pid p) name note) s).1 = false /\
  (postApiBan time (mkBanRequest (pid p) name note) s).2 = s.
Proof.
  intros Hf Hp Hb.
  split; [unfold Frontend.isBanned; now rewrite Hb|].
  assert (Hno : isOk (postApiBan time (mkBanRequest (pid p) name note) s).1 = false).
  { unfold postApiBan. cbn [req_playerId req_champion req_note].
    destruct (_ || _); [reflexivity|]. rewrite Hf, Hp.
    destruct (pendingBan p); [|reflexivity].
    destruct (bans p) as [bs|]; [|reflexivity]. cbn [default] in Hb.
    assert (Hdup : existsb (fun b => String.eqb (norm (ban_champion b))
                                       (norm (JsString.trim name))) bs = true).
    { apply existsb_exists in Hb as (x & Hin & Hx).
      apply in_map_iff in Hin as (b & <- & Hin).
      apply String.eqb_eq in Hx.
      apply existsb_exists. exists b. split; [assumption|].
      apply String.eqb_eq. rewrite norm_trim, !norm_of_page_norm. now rewrite Hx. }
    now rewrite Hdup. }
  split; [exact Hno | now apply postApiBan_refusal].
Qed.

Lemma tile_shown_banned_is_refused_witness :
  let p := set_bans (Some [mkBan 100 "Lee Sin" ""]) Sample.promoted in
  let s := mkState [p; Sample.bob] [] None in
  Frontend.isBanned p "  LEE SIN " "" = true /\
  isOk (postApiBan 3000 (mkBanRequest (pid p) "  LEE SIN " "x") s).1 = false /\
  (postApiBan 3000 (mkBanRequest (pid p) "  LEE SIN " "x") s).2 = s.
Proof.
  intros p s.
  apply (tile_shown_banned_is_refused 3000 s 0%nat p "  LEE SIN " "x").
  - vm_compute. reflexivity.
  - reflexivity.
  - vm_compute. reflexivity.
Defined.

(** ** The player list of the page *)

Lemma insert_sorted_ext {A} (le le' : A -> A -> bool) x l :
  (forall a b, le a b = le' a b) -> insert_sorted le x l = insert_sorted le' x l.
Proof.
  intros H. induction l as [|y l IH]; cbn; [reflexivity|].
  rewrite H. destruct (le' x y); [reflexivity|]. now rewrite IH.
Qed.

Lemma stable_sort_ext {A} (le le' : A -> A -> bool) l :
  (forall a b, le a b = le' a b) -> stable_sort le l = stable_sort le' l.
Proof.
  intros H. unfold stable_sort.
  induction l as [|x l IH]; cbn [foldr]; [reflexivity|]. rewrite IH.
  now apply insert_sorted_ext.
Qed.

Lemma stable_sort_desc {A} (f : A -> Z) l :
  StronglySorted (fun a b => f b <= f a) (stable_sort (fun a b => f b <=? f a) l).
Proof.
  rewrite (stable_sort_ext _ (fun a b => - f a <=? - f b)).
  - pose proof (stable_sort_by_key (fun p => - f p) l) as H.
    induction H as [|x l' Hs IH Hx]; constructor; [assumption|].
    eapply Forall_impl; [exact Hx|]. cbv beta. intros; lia.
  - intros a b. destruct (Z.leb_spec (f b) (f a)), (Z.leb_spec (- f a) (- f b));
      lia || reflexivity.
Qed.

Lemma stable_sort_desc_head {A} (f : A -> Z) l p :
  head (stable_sort (fun a b => f b <=? f a) l) = Some p ->
  exists i,
    l !! i = Some p /\
    (forall q, q ∈ l -> f q <= f p) /\
    (forall j q, (j < i)%nat -> l !! j = Some q -> f q < f p).
Proof.
  revert p.
  induction l as [|x l IH]; intros p; unfold stable_sort; cbn [foldr]; [discriminate|].
  fold (stable_sort (fun a b => f b <=? f a) l) in *.
  destruct (stable_sort (fun a b => f b <=? f a) l) as [|y l'] eqn:Hs.
  - assert (l = []) as ->.
    { apply Permutation_nil_r. rewrite <- Hs. symmetry. apply stable_sort_perm. }
    cbn [insert_sorted head]. intros [= <-]. exists 0%nat. split; [reflexivity|]. split.
    + intros q Hq. apply list_elem_of_singleton in Hq as ->. lia.
    + intros j q Hj. lia.
  - destruct (IH y eq_refl) as (i & Hi & Hmax & Hfirst).
    cbn [insert_sorted].
    destruct (Z.leb_spec (f y) (f x)) as [Hle|Hlt]; cbn [head]; intros [= <-].
    + exists 0%nat. split; [reflexivity|]. split.
      * intros q Hq. apply elem_of_cons in Hq as [->|Hq]; [lia|].
        specialize (Hmax q Hq). lia.
      * intros j q Hj. lia.
    + exists (S i). split; [exact Hi|]. split.
      * intros q Hq. apply elem_of_cons in Hq as [->|Hq]; [lia|]. now apply Hmax.
      * intros [|j] q Hj Hq.
        -- injection Hq as <-. lia.
        -- apply (Hfirst j q); [lia | exact Hq].
Qed.

(** X20.  The player list of the page shows every player of the roster
    once, in the order of falling rank score, and the crown goes to the
    first player of the roster among those with the highest score; only an
    empty roster has no leader. *)
Theorem crown_goes_to_the_first_of_the_best (ps : list Player) :
  Frontend.sortedPlayers ps ≡ₚ ps /\
  StronglySorted (fun a b => Frontend.score b <= Frontend.score a)
    (Frontend.sortedPlayers ps) /\
  match head (Frontend.sortedPlayers ps) with
  | None => ps = [] /\ Frontend.leaderId ps = None
  | Some p =>
      Frontend.leaderId ps = Some (pid p) /\
      exists i,
        ps !! i = Some p /\
        (forall q, q ∈ ps -> Frontend.score q <= Frontend.score p) /\
        (forall j q, (j < i)%nat -> ps !! j = Some q -> Frontend.score q < Frontend.score p)
  end.
Proof.
  split; [apply stable_sort_perm|]. split; [apply (stable_sort_desc Frontend.score)|].
  unfold Frontend.leaderId.
  destruct (head (Frontend.sortedPlayers ps)) as [p|] eqn:Hh.
  - split; [reflexivity|]. now apply (stable_sort_desc_head Frontend.score).
  - split; [|reflexivity]. apply head_None in Hh.
    apply Permutation_nil_r. rewrite <- Hh. symmetry. apply stable_sort_perm.
Qed.

Lemma crown_goes_to_the_first_of_the_best_witness :
  Frontend.leaderId [Sample.bob; Sample.alice; Sample.promoted] = Some "p1" /\
  exists i,
    [Sample.bob; Sample.alice; Sample.promoted] !! i = Some Sample.alice /\
    (forall j q, (j < i)%nat -> [Sample.bob; Sample.alice; Sample.promoted] !! j = Some q ->
                 Frontend.score q < Frontend.score Sample.alice).
Proof.
  pose proof (crown_goes_to_the_first_of_the_best
                [Sample.bob; Sample.alice; Sample.promoted]) as (_ & _ & H).
  assert (Hh : head (Frontend.sortedPlayers [Sample.bob; Sample.alice; Sample.promoted])
               = Some Sample.alice) by (vm_compute; reflexivity).
  rewrite Hh in H. destruct H as (Hl & i & Hi & _ & Hfirst).
  split; [exact Hl|]. exists i. split; [exact Hi | exact Hfirst].
Defined.

(** X21.  The page agrees with the promotion rule of the server: whenever
    the server detects a promotion between two ranked snapshots with a
    known tier and division and league points as the ladder has them, the
    new snapshot has the strictly higher score on the page. *)
Theorem promoted_player_scores_higher (o n : RankedData) :
  wellFormed o -> wellFormed n -> plausible o -> plausible n ->
  isPromotion (Some (Ranked o)) (Some (Ranked n)) = true ->
  Frontend.rankValue (Some (Ranked o)) < Frontend.rankValue (Some (Ranked n)).
Proof.
  intros (Hto & Hdo & Hlo) (Htn & Hdn & Hln) (Hpo & Hpo') (Hpn & Hpn').
  unfold isPromotion. rewrite rankValue_ranked.
  unfold Frontend.rankValue.
  destruct (tierIndex_indexOf o) as [Eto Eao].
  destruct (tierIndex_indexOf n) as [Etn Ean].
  rewrite Eao, Ean.
  pose proof (divIndex_indexOf o) as Edo.
  pose proof (divIndex_indexOf n) as Edn.
  pose proof (indexOf_lower_bound (JsString.toUpperCase (division o)) Legacy.divOrder).
  pose proof (indexOf_lower_bound (JsString.toUpperCase (division n)) Legacy.divOrder).
  pose proof (indexOf_upper_bound (JsString.toUpperCase (division o)) Legacy.divOrder).
  pose proof (indexOf_upper_bound (JsString.toUpperCase (division n)) Legacy.divOrder).
  pose proof (indexOf_lower_bound (JsString.toUpperCase (tier o)) tierNames).
  pose proof (indexOf_lower_bound (JsString.toUpperCase (tier n)) tierNames).
  cbn [length Legacy.divOrder] in *.
  set (to := indexOf (JsString.toUpperCase (tier o)) tierNames) in *.
  set (tn := indexOf (JsString.toUpperCase (tier n)) tierNames) in *.
  set (do := indexOf (JsString.toUpperCase (division o)) Legacy.divOrder) in *.
  set (dn := indexOf (JsString.toUpperCase (division n)) Legacy.divOrder) in *.
  destruct (Z.eqb_spec to (-1)) as [|_]; [contradiction|].
  destruct (Z.eqb_spec tn (-1)) as [|_]; [contradiction|].
  rewrite Eto, Etn, Edo, Edn in *.
  destruct (Z.ltb_spec (to + 1) 8), (Z.ltb_spec (tn + 1) 8); cbn [negb];
    repeat match goal with
           | |- context [if ?x =? -1 then _ else _] => destruct (Z.eqb_spec x (-1))
           end; lia.
Qed.

Lemma promoted_player_scores_higher_witness :
  let o := mkRanked "GOLD" "I" 99 10 10 in
  let n := mkRanked "PLATINUM" "IV" 0 11 10 in
  Frontend.rankValue (Some (Ranked o)) < Frontend.rankValue (Some (Ranked n)).
Proof.
  intros o n.
  apply (promoted_player_scores_higher o n).
  - repeat split; [vm_compute; discriminate | right; vm_compute; discriminate
                  | vm_compute; discriminate].
  - repeat split; [vm_compute; discriminate | right; vm_compute; discriminate
                  | vm_compute; discriminate].
  - repeat split; vm_compute; try discriminate; reflexivity.
  - repeat split; vm_compute; try discriminate; reflexivity.
  - vm_compute. reflexivity.
Defined.

(** ** The page against the refresh endpoint *)

Lemma errorString_nonempty e : errorString e <> "".
Proof. now destruct e as [[|c m]|[|c m]|[|c m]]. Qed.

Lemma errorString_Error m : m <> "" -> errorString (Error m) = m.
Proof. now destruct m. Qed.

(** X22.  The page after it has asked for a refresh.  When the cycle
    completes, a click on the refresh button and the initial load both
    bring the page to the document the cycle saved.  When the cycle throws,
    whatever the error, the click leaves the page as it was and alerts the
    text of that error as the server reports it, and the initial load falls
    back to the document [GET /api/state] answers with.  When it is the
    loop over the roster that throws, the alert reads [e is not defined]. *)
Theorem page_shows_the_stored_document
    (R : Remote) (srv : Server) (state0 : option State) (stored : State) :
  (forall st mem srv',
      refreshAll R srv = (Normal st, mem, srv') ->
      let out := postApiRefresh (Normal st) in
      Page.onRefreshClick out state0 = (Some (getApiState srv'), None) /\
      Page.init out stored = Some (getApiState srv')) /\
  (forall e,
      let out := postApiRefresh (Throw e) in
      Page.onRefreshClick out state0 = (state0, Some (errorString e)) /\
      Page.init out stored = Some stored) /\
  (forall e,
      (rosterLoop R srv).1.1.1 = Throw e ->
      Page.onRefreshClick (postApiRefresh (Throw e)) state0 =
        (state0, Some "e is not defined")).
Proof.
  assert (Hfail : forall e,
             Page.onRefreshClick (postApiRefresh (Throw e)) state0 =
               (state0, Some (errorString e)) /\
             Page.init (postApiRefresh (Throw e)) stored = Some stored).
  { intros e. unfold Page.onRefreshClick, Page.init, Page.apiRefresh, postApiRefresh.
    destruct (String.eqb_spec (errorString e) "") as [He|He];
      [now apply errorString_nonempty in He|].
    now rewrite errorString_Error. }
  split; [|split].
  - intros st mem srv' H. unfold refreshAll in H.
    destruct (refreshLoop _ _ _ _ _ _ _) as [[[c1 ps] onDisk] h'].
    destruct c1 as [[]|e]; [|discriminate]. injection H as <- <- <-.
    now split.
  - exact Hfail.
  - intros e H. unfold rosterLoop in H.
    destruct (refreshLoop _ _ _ _ _ _ _) as [[[c1 ps] onDisk] h'] eqn:Hl.
    cbn in H. subst c1. apply refreshLoop_throw in Hl. subst e.
    apply (Hfail (ReferenceError "e is not defined")).
Qed.

Lemma page_shows_the_stored_document_witness :
  (exists st mem srv',
      refreshAll (Sample.provider 4) (Sample.server 0) = (Normal st, mem, srv') /\
      Page.onRefreshClick (postApiRefresh (Normal st)) None = (Some (disk srv'), None)) /\
  (exists e,
      (rosterLoop Sample.leagueDown (Sample.server 0)).1.1.1 = Throw e /\
      Page.onRefreshClick (postApiRefresh (Throw e)) (Some Sample.roster) =
        (Some Sample.roster, Some "e is not defined") /\
      Page.init (postApiRefresh (Throw e)) Sample.roster = Some Sample.roster).
Proof.
  split.
  - assert (Hrun : exists st mem srv',
               refreshAll (Sample.provider 4) (Sample.server 0) = (Normal st, mem, srv'))
      by (vm_compute; eexists _, _, _; reflexivity).
    destruct Hrun as (st & mem & srv' & Hrun). exists st, mem, srv'.
    split; [exact Hrun|].
    apply (page_shows_the_stored_document (Sample.provider 4) (Sample.server 0) None
             Sample.roster) in Hrun.
    apply Hrun.
  - assert (Hloop : exists e,
               (rosterLoop Sample.leagueDown (Sample.server 0)).1.1.1 = Throw e)
      by (vm_compute; eexists; reflexivity).
    destruct Hloop as (e & Hloop). exists e.
    destruct (page_shows_the_stored_document Sample.leagueDown (Sample.server 0)
                (Some Sample.roster) Sample.roster) as (_ & Hany & Hroster).
    split; [exact Hloop|]. split; [now apply Hroster | apply Hany].
Defined.

(** ** The worker pool *)

Lemma mapGet_mapSet c k v m :
  Pool.mapGet c (Pool.mapSet k v m) = if c =? k then Some v else Pool.mapGet c m.
Proof.
  unfold Pool.mapGet. induction m as [|[k' v'] m IH]; cbn.
  - rewrite (Z.eqb_sym k c). now destruct (c =? k).
  - destruct (Z.eqb_spec k' k) as [->|Hk]; cbn.
    + rewrite (Z.eqb_sym k c). now destruct (c =? k).
    + destruct (Z.eqb_spec k' c) as [->|Hc]; cbn.
      * destruct (Z.eqb_spec c k); [congruence | reflexivity].
      * exact IH.
Qed.

Lemma gamesOn_snoc pu ms m c :
  gamesOn pu (ms ++ [m]) c =
  (gamesOn pu ms c + if bool_decide (champOf pu m = Some c) then 1 else 0)%nat.
Proof.
  unfold gamesOn. rewrite List.filter_app, length_app. cbn.
  now destruct (bool_decide _).
Qed.

Lemma gamesPlayed_snoc pu ms m :
  gamesPlayed pu (ms ++ [m]) =
  (gamesPlayed pu ms + if bool_decide (is_Some (champOf pu m)) then 1 else 0)%nat.
Proof.
  unfold gamesPlayed. rewrite List.filter_app, length_app. cbn.
  now destruct (bool_decide _).
Qed.

Lemma gamesOn_perm pu ms ms' c : ms ≡ₚ ms' -> gamesOn pu ms c = gamesOn pu ms' c.
Proof.
  unfold gamesOn. induction 1 as [|x l l' _ IH|x y l|l l' l'' _ IH1 _ IH2]; cbn.
  - reflexivity.
  - destruct (bool_decide _); cbn; now rewrite IH.
  - now destruct (bool_decide _), (bool_decide _).
  - now rewrite IH1.
Qed.

Lemma gamesPlayed_perm pu ms ms' : ms ≡ₚ ms' -> gamesPlayed pu ms = gamesPlayed pu ms'.
Proof.
  unfold gamesPlayed. induction 1 as [|x l l' _ IH|x y l|l l' l'' _ IH1 _ IH2]; cbn.
  - reflexivity.
  - destruct (bool_decide _); cbn; now rewrite IH.
  - now destruct (bool_decide _), (bool_decide _).
  - now rewrite IH1.
Qed.

Lemma recordsAt_seq (ms : list Match) n :
  forall k, recordsAt ms (seq k n) = take n (drop k ms).
Proof.
  unfold recordsAt. induction n as [|n IH]; intros k; [reflexivity|].
  cbn [seq omap list_omap].
  change (list_omap nat Match (fun i => ms !! i) (seq (S k) n))
    with (omap (fun i => ms !! i) (seq (S k) n)).
  rewrite IH.
  destruct (ms !! k) as [m|] eqn:Hk.
  - now rewrite (drop_S _ _ _ Hk).
  - apply lookup_ge_None in Hk. rewrite !drop_ge by lia. now rewrite !take_nil.
Qed.

Lemma recordsAt_all (ms : list Match) : recordsAt ms (seq 0 (length ms)) = ms.
Proof. rewrite recordsAt_seq. cbn. apply take_ge. lia. Qed.

Lemma awaiting_app w ws ws' :
  Pool.awaiting w (ws ++ ws') = Pool.awaiting w ws ++ Pool.awaiting (w + length ws) ws'.
Proof.
  revert w. induction ws as [|[i|] ws IH]; intros w; cbn.
  - now rewrite Nat.add_0_r.
  - rewrite IH. do 3 f_equal. lia.
  - rewrite IH. do 2 f_equal. lia.
Qed.

Lemma awaiting_lookup ws : forall w0 w i,
  (w, i) ∈ Pool.awaiting w0 ws ->
  (w0 <= w)%nat /\ ws !! (w - w0)%nat = Some (Pool.Awaiting i).
Proof.
  induction ws as [|[j|] ws IH]; intros w0 w i H; cbn in H.
  - now apply elem_of_nil in H.
  - apply elem_of_cons in H as [[= -> ->]|H].
    + split; [lia|]. now rewrite Nat.sub_diag.
    + apply IH in H as [Hle Hl]. split; [lia|].
      replace (w - w0)%nat with (S (w - S w0)) by lia. exact Hl.
  - apply IH in H as [Hle Hl]. split; [lia|].
    replace (w - w0)%nat with (S (w - S w0)) by lia. exact Hl.
Qed.

(** Replacing the worker that waited for [i]. *)
Lemma awaiting_replace ws w i wk :
  ws !! w = Some (Pool.Awaiting i) ->
  exists pre post,
    (Pool.awaiting 0 ws).*2 = pre ++ i :: post /\
    (Pool.awaiting 0 (<[w := wk]> ws)).*2 =
      pre ++ match wk with Pool.Awaiting j => [j] | Pool.Returned => [] end ++ post.
Proof.
  intros Hw.
  pose proof (take_drop_middle ws w _ Hw) as Hsplit.
  assert (Hlen : length (take w ws) = w).
  { rewrite length_take. apply lookup_lt_Some in Hw. lia. }
  exists (Pool.awaiting 0 (take w ws)).*2, (Pool.awaiting (S w) (drop (S w) ws)).*2.
  split.
  - rewrite <- Hsplit at 1. rewrite awaiting_app, fmap_app, Hlen. cbn.
    reflexivity.
  - rewrite (insert_take_drop ws w wk) by (now apply lookup_lt_Some in Hw).
    rewrite awaiting_app, fmap_app, Hlen. cbn.
    destruct wk; reflexivity.
Qed.

Lemma claim_step {A} (d p q : list A) i (new : list A) r :
  d ++ p ++ i :: q ≡ₚ r ->
  (d ++ [i]) ++ p ++ new ++ q ≡ₚ r ++ new.
Proof.
  intros H. rewrite <- H. rewrite <- !app_assoc. apply Permutation_app_head.
  cbn [app]. rewrite <- (Permutation_middle p (q ++ new) i).
  apply Permutation_skip. apply Permutation_app_head. apply Permutation_app_comm.
Qed.

Lemma start_spec matchIds n :
  forall k cs t ws req,
    (k + n <= length matchIds)%nat ->
    Pool.start matchIds n (Pool.mkPool k cs t ws req) =
    Pool.mkPool (k + n) cs t (ws ++ List.map Pool.Awaiting (seq k n))
      (req ++ take n (drop k matchIds)).
Proof.
  induction n as [|n IH]; intros k cs t ws req Hk.
  - cbn. now rewrite Nat.add_0_r, !app_nil_r.
  - cbn [Pool.start]. unfold Pool.enterLoop. cbn [Pool.idx].
    destruct (matchIds !! k) as [matchId|] eqn:Hid.
    2:{ apply lookup_ge_None in Hid. lia. }
    cbn [Pool.idx Pool.counts Pool.total Pool.workers Pool.requested].
    rewrite IH by lia. f_equal; [lia | |].
    + cbn [seq List.map]. now rewrite <- app_assoc.
    + rewrite (drop_S _ _ _ Hid). cbn [take]. now rewrite <- app_assoc.
Qed.

Lemma awaiting_all k n w0 :
  (Pool.awaiting w0 (List.map Pool.Awaiting (seq k n))).*2 = seq k n.
Proof.
  revert k w0. induction n as [|n IH]; intros k w0; [reflexivity|].
  cbn. now rewrite IH.
Qed.

Lemma start_inv pu matchIds ms :
  poolInv pu matchIds ms []
    (Pool.start matchIds (Nat.min Pool.CONCURRENCY (length matchIds))
       (Pool.mkPool 0 [] 0 [] [])).
Proof.
  rewrite start_spec by lia. cbn [app Nat.add].
  set (n := Nat.min Pool.CONCURRENCY (length matchIds)).
  constructor; cbn [Pool.idx Pool.counts Pool.total Pool.workers Pool.requested].
  - lia.
  - now rewrite awaiting_all.
  - destruct matchIds as [|id0 rest]; [left; reflexivity|]. right. split.
    + apply Forall_forall. intros w Hw.
      apply list_elem_of_In, in_map_iff in Hw as (i & <- & _). discriminate.
    + subst n. cbn. discriminate.
  - intros c. reflexivity.
  - reflexivity.
  - reflexivity.
  - reflexivity.
Qed.

Lemma mapSet_bump_sum k m :
  foldr (fun kv acc => kv.2 + acc) 0 (Pool.mapSet k (default 0 (Pool.mapGet k m) + 1) m) =
  foldr (fun kv acc => kv.2 + acc) 0 m + 1.
Proof.
  unfold Pool.mapGet. induction m as [|[k' v'] m IH]; cbn; [lia|].
  destruct (Z.eqb_spec k' k) as [->|Hk]; cbn; [lia|]. rewrite IH. lia.
Qed.

Lemma entryFor_bump n :
  Some (default 0 (entryFor n) + 1) = entryFor (n + 1).
Proof.
  unfold entryFor. destruct (decide (n = 0%nat)) as [->|Hn]; cbn; [reflexivity|].
  destruct (decide ((n + 1)%nat = 0%nat)); [lia|]. f_equal. lia.
Qed.

Lemma countRecord_inv pu matchIds ms done s i m :
  poolInv pu matchIds ms done s ->
  ms !! i = Some m ->
  let s1 := Pool.countRecord pu m s in
  Pool.idx s1 = Pool.idx s /\ Pool.workers s1 = Pool.workers s /\
  Pool.requested s1 = Pool.requested s /\
  (forall c, Pool.mapGet c (Pool.counts s1) =
             entryFor (gamesOn pu (recordsAt ms (done ++ [i])) c)) /\
  Pool.total s1 = Z.of_nat (gamesPlayed pu (recordsAt ms (done ++ [i]))) /\
  foldr (fun kv acc => kv.2 + acc) 0 (Pool.counts s1) = Pool.total s1.
Proof.
  intros [H1 H2 H3 H4 H5 H6 H7] Hm s1. subst s1.
  assert (Hrec : recordsAt ms (done ++ [i]) = recordsAt ms done ++ [m]).
  { unfold recordsAt. rewrite omap_app. cbn. now rewrite Hm. }
  rewrite Hrec. unfold Pool.countRecord. fold (champOf pu m).
  destruct (champOf pu m) as [champId|] eqn:Hc;
    cbn [Pool.idx Pool.counts Pool.total Pool.workers Pool.requested];
    repeat split.
  - intros c. rewrite mapGet_mapSet, gamesOn_snoc, Hc.
    destruct (Z.eqb_spec c champId) as [->|Hne].
    + rewrite bool_decide_eq_true_2 by reflexivity. rewrite H4. apply entryFor_bump.
    + rewrite bool_decide_eq_false_2 by congruence. rewrite Nat.add_0_r. apply H4.
  - rewrite gamesPlayed_snoc, Hc, bool_decide_eq_true_2 by eauto. lia.
  - rewrite mapSet_bump_sum. lia.
  - intros c. rewrite gamesOn_snoc, Hc, bool_decide_eq_false_2 by discriminate.
    rewrite Nat.add_0_r. apply H4.
  - rewrite gamesPlayed_snoc, Hc, bool_decide_eq_false_2.
    + rewrite Nat.add_0_r. exact H5.
    + intros [x Hx]. discriminate.
  - exact H7.
Qed.

Lemma run_spec R region pu matchIds ms sched :
  recordsOf R region matchIds ms ->
  forall done s,
    poolInv pu matchIds ms done s ->
    (length matchIds - length done <= length sched)%nat ->
    exists s',
      Pool.run R region pu matchIds sched s =
        (Some (Normal (Pool.counts s', Pool.total s')), s') /\
      (forall c, Pool.mapGet c (Pool.counts s') = entryFor (gamesOn pu ms c)) /\
      Pool.total s' = Z.of_nat (gamesPlayed pu ms) /\
      Pool.requested s' = matchIds /\
      foldr (fun kv acc => kv.2 + acc) 0 (Pool.counts s') = Pool.total s'.
Proof.
  intros Hrec. pose proof (Forall2_length _ _ _ Hrec) as Hlen.
  induction sched as [|k sched IH]; intros done s Hinv Hfuel.
  - destruct Hinv as [H1 H2 H3 H4 H5 H6 H7].
    assert (Hl : (length done + length (Pool.awaiting 0 (Pool.workers s)) = Pool.idx s)%nat).
    { apply Permutation_length in H2.
      rewrite length_app, length_fmap, length_seq in H2. exact H2. }
    cbn in Hfuel.
    assert (Haw : Pool.awaiting 0 (Pool.workers s) = []).
    { apply nil_length_inv. lia. }
    assert (Hidx : Pool.idx s = length matchIds) by lia.
    exists s. cbn [Pool.run]. rewrite Haw. split; [reflexivity|].
    rewrite Haw, app_nil_r, Hidx in H2.
    assert (Hp : recordsAt ms done ≡ₚ ms).
    { rewrite <- (recordsAt_all ms) at 2. rewrite <- Hlen. unfold recordsAt. now rewrite H2. }
    repeat split.
    + intros c. rewrite H4. f_equal. now apply gamesOn_perm.
    + rewrite H5. f_equal. now apply gamesPlayed_perm.
    + rewrite H6, Hidx. apply take_ge. lia.
    + exact H7.
  - cbn [Pool.run].
    destruct (Pool.awaiting 0 (Pool.workers s)) as [|first others] eqn:Haw.
    + destruct Hinv as [H1 H2 H3 H4 H5 H6 H7].
      rewrite Haw, app_nil_r in H2.
      assert (Hidx : Pool.idx s = length matchIds).
      { destruct H3 as [H3|[H3 Hne]]; [exact H3|]. exfalso.
        destruct (Pool.workers s) as [|[i|] ws]; [congruence | discriminate |].
        apply Forall_cons in H3 as [H3 _]. congruence. }
      rewrite Hidx in H2.
      assert (Hp : recordsAt ms done ≡ₚ ms).
      { rewrite <- (recordsAt_all ms) at 2. rewrite <- Hlen. unfold recordsAt. now rewrite H2. }
      exists s. split; [reflexivity|]. repeat split.
      * intros c. rewrite H4. f_equal. now apply gamesOn_perm.
      * rewrite H5. f_equal. now apply gamesPlayed_perm.
      * rewrite H6, Hidx. apply take_ge. lia.
      * exact H7.
    + set (aw := first :: others) in *.
      destruct (nth (k mod length aw) aw first) as [w i] eqn:Hpick.
      assert (Hin : (w, i) ∈ aw).
      { rewrite <- Hpick. apply list_elem_of_In, nth_In.
        apply Nat.mod_upper_bound. subst aw. cbn. lia. }
      rewrite <- Haw in Hin.
      apply awaiting_lookup in Hin as [_ Hw]. rewrite Nat.sub_0_r in Hw.
      pose proof Hinv as [H1 H2 H3 H4 H5 H6 H7].
      destruct (awaiting_replace (Pool.workers s) w i Pool.Returned Hw)
        as (pre & post & Hpre & _).
      assert (Hi : (i < Pool.idx s)%nat).
      { assert (Hel : i ∈ seq 0 (Pool.idx s)).
        { rewrite <- H2, Hpre. apply elem_of_app. right. apply elem_of_app. right. left. }
        apply elem_of_seq in Hel. lia. }
      destruct (lookup_lt_is_Some_2 matchIds i) as [matchId Hid]; [lia|].
      destruct (Forall2_lookup_l _ _ _ _ _ Hrec Hid) as (m & Hm & Hfetch).
      rewrite Hid. unfold default, from_option, id. rewrite Hfetch.
      destruct (countRecord_inv pu matchIds ms done s i m Hinv Hm)
        as (E1 & E2 & E3 & E4 & E5 & E6).
      set (s1 := Pool.countRecord pu m s) in *.
      unfold Pool.enterLoop. rewrite E1.
      destruct (matchIds !! Pool.idx s) as [nextId|] eqn:Hnext.
      * apply IH with (done := done ++ [i]).
        -- destruct (awaiting_replace (Pool.workers s) w i (Pool.Awaiting (Pool.idx s)) Hw)
             as (pre' & post' & Hpre' & Hpost').
           pose proof (lookup_lt_Some _ _ _ Hnext) as Hlt.
           constructor; cbn [Pool.idx Pool.counts Pool.total Pool.workers Pool.requested].
           ++ lia.
           ++ rewrite E2, Hpost', seq_S. cbn [Nat.add].
              rewrite Hpre' in H2.
              assert (Hc := claim_step done pre' post' i [Pool.idx s] _ H2).
              rewrite <- Hc. reflexivity.
           ++ right. destruct H3 as [H3|[H3 Hne]]; [lia|]. rewrite E2. split.
              ** apply Forall_insert; [assumption | discriminate].
              ** intros Hnil. apply (f_equal length) in Hnil.
                 rewrite length_insert in Hnil. destruct (Pool.workers s); [congruence|].
                 discriminate.
           ++ exact E4.
           ++ exact E5.
           ++ rewrite E3, H6. now rewrite (take_S_r _ _ _ Hnext).
           ++ exact E6.
        -- rewrite length_app. cbn in Hfuel |- *. lia.
      * apply IH with (done := done ++ [i]).
        -- destruct (awaiting_replace (Pool.workers s) w i Pool.Returned Hw)
             as (pre' & post' & Hpre' & Hpost').
           apply lookup_ge_None in Hnext.
           constructor; cbn [Pool.idx Pool.counts Pool.total Pool.workers Pool.requested].
           ++ rewrite E1. lia.
           ++ rewrite E1, E2, Hpost'. rewrite Hpre' in H2.
              assert (Hc := claim_step done pre' post' i [] _ H2).
              rewrite app_nil_r in Hc. exact Hc.
           ++ left. rewrite E1. lia.
           ++ exact E4.
           ++ exact E5.
           ++ rewrite E1, E3. exact H6.
           ++ exact E6.
        -- rewrite length_app. cbn in Hfuel |- *. lia.
Qed.

(** X23.  The worker pool counts every match once, however the answers
    of the provider interleave.  When every record of the listing can be
    fetched, then for every schedule the pool returns the same total and,
    for every champion, the same count: the number of listed matches the
    player played on it, remakes included; each match is requested once, in
    the order of the listing; and a schedule of as many deliveries as there
    are matches is enough for the run to end. *)
Theorem pool_result_is_independent_of_the_schedule
    (R : Remote) (pu : option string) (platform : string)
    (matchIds : list string) (ms : list Match) (sched : list nat) :
  recordsOf R (regionalForPlatform platform) matchIds ms ->
  (length matchIds <= length sched)%nat ->
  exists counts s',
    Pool.countGamesByChampionFromMatches R pu platform matchIds sched =
      (Some (Normal (counts, Z.of_nat (gamesPlayed pu ms))), s') /\
    (forall c, Pool.mapGet c counts = entryFor (gamesOn pu ms c)) /\
    Pool.requested s' = matchIds.
Proof.
  intros Hrec Hfuel. unfold Pool.countGamesByChampionFromMatches.
  destruct (run_spec R (regionalForPlatform platform) pu matchIds ms sched Hrec []
              _ (start_inv pu matchIds ms)) as (s' & Hrun & Hc & Ht & Hr & _).
  - cbn. lia.
  - exists (Pool.counts s'), s'. rewrite Hrun, Ht. repeat split; assumption.
Qed.

Lemma pool_result_is_independent_of_the_schedule_witness :
  let ids := Sample.timeline 5 in
  let ms := List.map (fun _ => Sample.game "puuid-a" 266 1800) ids in
  (Pool.countGamesByChampionFromMatches (Sample.provider 5) (Some "puuid-a") "euw1" ids
     [2; 0; 1; 1; 0]%nat).1 = Some (Normal ([(266, 5)], 5)) /\
  exists counts s',
    Pool.countGamesByChampionFromMatches (Sample.provider 5) (Some "puuid-a") "euw1" ids
      [0; 0; 0; 0; 0]%nat = (Some (Normal (counts, 5)), s') /\
    Pool.mapGet 266 counts = Some 5.
Proof.
  intros ids ms. split; [vm_compute; reflexivity|].
  destruct (pool_result_is_independent_of_the_schedule (Sample.provider 5) (Some "puuid-a")
              "euw1" ids ms [0; 0; 0; 0; 0]%nat) as (counts & s' & Hrun & Hc & _).
  - subst ids ms. vm_compute. repeat constructor.
  - vm_compute. lia.
  - exists counts, s'. split; [exact Hrun|]. rewrite Hc. vm_compute. reflexivity.
Defined.

(** ** The yearly aggregate of the older server *)

Lemma gamesPlayed_split pu ms :
  gamesPlayed pu ms =
  (length (List.filter (countable pu) ms) + remakesPlayed pu ms)%nat.
Proof.
  unfold gamesPlayed, remakesPlayed, countable, champOf.
  induction ms as [|m ms IH]; [reflexivity|]. cbn [List.filter].
  destruct (isRemake m), (findMe pu m) as [me|]; cbn;
    try destruct (me_championId me); cbn;
    repeat (rewrite ?bool_decide_eq_true_2 by eauto;
            rewrite ?bool_decide_eq_false_2 by (intros [? ?]; discriminate));
    cbn; lia.
Qed.

Lemma sumRows_mapCounts champions cs :
  sumRows (LegacyYear.mapCountsToChampionList champions cs) =
  foldr (fun kv acc => kv.2 + acc) 0 cs.
Proof.
  unfold LegacyYear.mapCountsToChampionList, sortByCountDesc.
  rewrite (sumRows_perm _ _ (stable_sort_perm _ _)).
  induction cs as [|[k v] cs IH]; cbn; [reflexivity|].
  unfold sumRows in IH. now rewrite IH.
Qed.

(** X24.  The yearly aggregate of the older server.  For a player whose
    stored aggregate is missing or out of date, over a provider that serves
    the player's year and every record of it, [computeChampionGamesForYear]
    ends, for every schedule of its workers, with an aggregate that is
    stored and saved, whose match count is the number of matches of the
    year, whose total is the number of matches the player played, and whose
    champion list sums to that total.  The total includes the remakes: it
    is the number of games the current aggregator would count plus the
    number of remakes the player took part in. *)
Theorem older_aggregate_counts_remakes
    (R : Remote) (history : option string -> list string) (ms : list Match)
    (champions : list Champion) (fuel : nat) (sched : list nat)
    (p : Player) (year : Z) (queueId : option Z) :
  JsString.truthy (puuid p) = true ->
  stale R p year queueId ->
  serves R history ->
  recordsOf R (regionalForPlatform (platform p)) (history (puuid p)) ms ->
  ddragon_champions R = Normal champions ->
  (pagesFor (length (history (puuid p))) <= fuel)%nat ->
  (length (history (puuid p)) <= length sched)%nat ->
  exists stats,
    LegacyYear.computeChampionGamesForYear fuel sched R p year queueId =
      Some (Normal stats, storeStats year stats p, true) /\
    matchCount stats = Z.of_nat (length (history (puuid p))) /\
    totalGames stats =
      Z.of_nat (length (List.filter (countable (puuid p)) ms) + remakesPlayed (puuid p) ms) /\
    sumRows (byChampion stats) = totalGames stats.
Proof.
  intros Hpu Hstale Hserve Hrec Hdd Hfuel Hsched.
  unfold LegacyYear.computeChampionGamesForYear.
  assert (He : ensurePuuidAndSummonerId R p = (Normal tt, p)).
  { unfold ensurePuuidAndSummonerId. now rewrite Hpu. }
  rewrite He. cbv zeta.
  assert (Hreuse :
    match champGamesByYear p !! year with
    | Some ex =>
        if bool_decide (is_Some (computedAt ex)) &&
           LegacyYear.isFresh R (computedAt ex) LegacyYear.CHAMP_GAMES_TTL_MS &&
           bool_decide (stats_queueId ex = queueId)
        then Some ex else None
    | None => None
    end = None).
  { destruct (champGamesByYear p !! year) as [ex|] eqn:Hex; [|reflexivity].
    destruct (Hstale ex Hex) as [Hf|Hq].
    - rewrite Hf. now rewrite andb_false_r.
    - rewrite (bool_decide_eq_false_2 _ Hq). now rewrite andb_false_r. }
  rewrite Hreuse. clear Hreuse.
  unfold fetchAllMatchIdsForYear, yearRangeEpochSeconds.
  destruct (pageLoop_serves R history (regionalForPlatform (platform p)) (puuid p)
              (utcYearStart year) (utcYearStart (year + 1)) queueId Hserve fuel 0 [] [])
    as (sent & Hrun & _); [lia | rewrite Nat.sub_0_r; unfold pagesFor in Hfuel; lia |].
  change (Z.of_nat 0) with 0 in Hrun. rewrite !app_nil_l, drop_0 in Hrun. rewrite Hrun.
  unfold Pool.countGamesByChampionFromMatches. cbv zeta.
  destruct (run_spec R (regionalForPlatform (platform p)) (puuid p) (history (puuid p)) ms
              sched Hrec [] _ (start_inv (puuid p) (history (puuid p)) ms))
    as (s' & Hpool & _ & Ht & _ & Hsum); [cbn; lia|].
  rewrite Hpool. cbn [fst]. rewrite Hdd.
  eexists. split; [reflexivity|]. cbn [matchCount totalGames byChampion].
  split; [reflexivity|]. split.
  - rewrite Ht. f_equal. apply gamesPlayed_split.
  - rewrite sumRows_mapCounts. exact Hsum.
Qed.

Lemma older_aggregate_counts_remakes_witness :
  let R := Sample.providerOfDuration 200 in
  let ms := [Sample.game "puuid-a" 266 200; Sample.game "puuid-a" 266 200] in
  exists stats,
    LegacyYear.computeChampionGamesForYear 1 [0; 0]%nat R
      (set_champGamesByYear ∅ Sample.alice) 2026 (Some 420) =
      Some (Normal stats, storeStats 2026 stats (set_champGamesByYear ∅ Sample.alice), true) /\
    totalGames stats = 2 /\
    length (List.filter (countable (Some "puuid-a")) ms) = 0%nat.
Proof.
  intros R ms.
  destruct (older_aggregate_counts_remakes R (fun _ => Sample.timeline 2) ms
              [mkChampion "266" "Aatrox" "Aatrox.png"] 1 [0; 0]%nat
              (set_champGamesByYear ∅ Sample.alice) 2026 (Some 420))
    as (stats & Hrun & _ & Ht & _).
  - reflexivity.
  - intros ex Hex. discriminate Hex.
  - intros region pu q. reflexivity.
  - vm_compute. repeat constructor.
  - reflexivity.
  - vm_compute. lia.
  - vm_compute. lia.
  - exists stats. split; [exact Hrun|]. split; [|vm_compute; reflexivity].
    rewrite Ht. vm_compute. reflexivity.
Defined.
